(** * Portfolio front end: timing primitives and typewriter engines

    A shallow embedding of the scheduling code of the portfolio site:

    - [debounce] and [throttle] from [Frontend/js/utils.js];
    - the [TypingEffect] and [MultiLineTypingEffect] classes of the
      typing-effect script.

    The host is reduced to what the code uses: a timer scheduler
    ([setTimeout] / [clearTimeout]) and text sinks ([textContent]).
    JavaScript numbers that hold indices, delays and timer handles are
    integers here ([Z]); strings are sequences of code units. *)

From stdpp Require Import base list strings gmap.
From Stdlib Require Import ZArith Lia.

Local Open Scope Z_scope.

(** ** The timer scheduler *)

Module Timers.

Section Sched.
Context {A : Type}.

(** A pending timer: its handle, the time it becomes due and the
    callback (by payload) it will run. *)
Record timer := Timer { tid : Z; due : Z; cb : A }.

(** The host clock, the next fresh handle and the pending timers in the
    order they were registered. Handles are positive, as in browsers. *)
Record sched := Sched { now : Z; next_id : Z; pending : list timer }.

Definition idle_at (t : Z) : sched := Sched t 1 [].

(** [setTimeout(cb, delay)]: a negative delay counts as zero. *)
Definition setTimeout (c : A) (delay : Z) (k : sched) : Z * sched :=
  (next_id k,
   Sched (now k) (next_id k + 1)
         (pending k ++ [Timer (next_id k) (now k + Z.max 0 delay) c])).

(** [clearTimeout(h)]: [undefined], [null] and unknown handles are
    ignored. *)
Definition clearTimeout (h : option Z) (k : sched) : sched :=
  match h with
  | None => k
  | Some i =>
      Sched (now k) (next_id k)
            (List.filter (fun t => negb (tid t =? i)) (pending k))
  end.

(** The timer the host runs next: the smallest due time, the first
    registered among equal ones. *)
Fixpoint earliest (l : list timer) : option timer :=
  match l with
  | [] => None
  | x :: r =>
      match earliest r with
      | Some y => if due y <? due x then Some y else Some x
      | None => Some x
      end
  end.

(** Take the next timer off the queue; the clock moves to its due time
    (a timer never runs early). *)
Definition pop (k : sched) : option (timer * sched) :=
  match earliest (pending k) with
  | None => None
  | Some t =>
      Some (t, Sched (Z.max (now k) (due t)) (next_id k)
                     (List.filter (fun u => negb (tid u =? tid t)) (pending k)))
  end.

(** Let the clock reach [t] without running anything. *)
Definition tick_clock (t : Z) (k : sched) : sched :=
  Sched (Z.max (now k) t) (next_id k) (pending k).

End Sched.

Arguments timer : clear implicits.
Arguments sched : clear implicits.

End Timers.

Import Timers.

(** JavaScript truthiness of a timer handle held in a variable that may
    also be [undefined] or [null]. *)
Definition truthy (h : option Z) : bool :=
  match h with
  | None => false
  | Some i => negb (i =? 0)
  end.

(** ** [throttle] (utils.js) *)

Module Throttle.

Section Wrapper.
Context {Arg : Type}.
Variable limit : Z.

(** The closure variable [inThrottle] ([undefined] is falsy), the host
    timers (the only callback is the one that reopens the gate) and the
    log of calls made to the wrapped function, oldest first. *)
Record state := State {
  inThrottle : bool;
  timers : sched unit;
  calls_made : list (Z * Arg)
}.

Definition init (t0 : Z) : state := State false (idle_at t0) [].

(** The returned function. *)
Definition call (a : Arg) (s : state) : state :=
  if negb (inThrottle s) then
    let k := snd (setTimeout tt limit (timers s)) in
    State true k (calls_made s ++ [(now (timers s), a)])
  else s.

(** The timer callback: [() => inThrottle = false]. *)
Definition fire (s : state) : option state :=
  match pop (timers s) with
  | None => None
  | Some (_, k) => Some (State false k (calls_made s))
  end.

(** Run every timer that is due at time [t]. Callbacks register no
    timers, so the number of pending timers bounds the work. *)
Fixpoint fire_due (fuel : nat) (t : Z) (s : state) : state :=
  match fuel with
  | O => s
  | S f =>
      match earliest (pending (timers s)) with
      | Some tm =>
          if due tm <=? t then
            match fire s with
            | Some s' => fire_due f t s'
            | None => s
            end
          else s
      | None => s
      end
  end.

(** The host reaches time [t]: the timers due by then have run (a timer
    due at [t] runs before a call made at [t]) and the clock reads [t]. *)
Definition at_time (t : Z) (s : state) : state :=
  let s' := fire_due (length (pending (timers s))) t s in
  State (inThrottle s') (tick_clock t (timers s')) (calls_made s').

(** A sequence of wrapper calls, each at its own time. *)
Definition run (cs : list (Z * Arg)) (s : state) : state :=
  fold_left (fun s c => call (snd c) (at_time (fst c) s)) cs s.

End Wrapper.

End Throttle.

(** ** [debounce] (utils.js) *)

Module Debounce.

Section Wrapper.
Context {Arg : Type}.
Variable wait : Z.
Variable immediate : bool.

(** The closure variable [timeout] ([undefined] at first, [null] once
    the timer has run), the host timers (each carries the arguments its
    [later] closure captured) and the log of calls made to the wrapped
    function, oldest first. *)
Record state := State {
  timeout : option Z;
  timers : sched Arg;
  calls_made : list (Z * Arg)
}.

Definition init (t0 : Z) : state := State None (idle_at t0) [].

(** The returned function [executedFunction]. *)
Definition call (a : Arg) (s : state) : state :=
  let callNow := immediate && negb (truthy (timeout s)) in
  let k1 := clearTimeout (timeout s) (timers s) in
  let r := setTimeout a wait k1 in
  State (Some (fst r)) (snd r)
        (if callNow then calls_made s ++ [(now (timers s), a)]
         else calls_made s).

(** The timer callback [later]. *)
Definition fire (s : state) : option state :=
  match pop (timers s) with
  | None => None
  | Some (tm, k) =>
      Some (State None k
              (if negb immediate then calls_made s ++ [(now k, cb tm)]
               else calls_made s))
  end.

(** Run every timer that is due at time [t]; [later] registers no
    timers, so the number of pending timers bounds the work. *)
Fixpoint fire_due (fuel : nat) (t : Z) (s : state) : state :=
  match fuel with
  | O => s
  | S f =>
      match earliest (pending (timers s)) with
      | Some tm =>
          if due tm <=? t then
            match fire s with
            | Some s' => fire_due f t s'
            | None => s
            end
          else s
      | None => s
      end
  end.

(** The host reaches time [t]: the timers due by then have run and the
    clock reads [t]. *)
Definition at_time (t : Z) (s : state) : state :=
  let s' := fire_due (length (pending (timers s))) t s in
  State (timeout s') (tick_clock t (timers s')) (calls_made s').

(** A sequence of wrapper calls, each at its own time. *)
Definition run (cs : list (Z * Arg)) (s : state) : state :=
  fold_left (fun s c => call (snd c) (at_time (fst c) s)) cs s.

(** Let every pending timer run. *)
Fixpoint drain (fuel : nat) (s : state) : state :=
  match fuel with
  | O => s
  | S f => match fire s with Some s' => drain f s' | None => s end
  end.

Definition settle (s : state) : state :=
  drain (length (pending (timers s))) s.

End Wrapper.

End Debounce.

(** ** Shared JavaScript helpers *)

(** How a method ends: it returns, or it throws a [TypeError] (a property
    of [undefined] or [null] was used). Either way the object is left in
    the state reached so far. *)
Inductive outcome (S : Type) : Type :=
| Returned (s : S)
| Threw (s : S).
Arguments Returned {S} s.
Arguments Threw {S} s.

Definition final {S : Type} (o : outcome S) : S :=
  match o with Returned s | Threw s => s end.

Definition and_then {S : Type} (o : outcome S) (f : S -> outcome S) : outcome S :=
  match o with
  | Returned s => f s
  | Threw s => Threw s
  end.

(** [arr[i]]: [undefined] outside the array. *)
Definition js_index {T : Type} (l : list T) (i : Z) : option T :=
  if i <? 0 then None else l !! Z.to_nat i.

(** [s.substring(0, e)]: [e] is clamped to the length of [s] and to 0. *)
Definition js_prefix (e : Z) (s : string) : string :=
  String.substring 0 (Z.to_nat e) s.

Definition js_length (s : string) : Z := Z.of_nat (String.length s).

(** The [texts] argument: an array, or a single value that gets wrapped. *)
Inductive texts_arg : Type :=
| Many (l : list string)
| One (t : string).

Definition as_array (a : texts_arg) : list string :=
  match a with
  | Many l => l
  | One t => [t]
  end.

(** ** [TypingEffect]: the single-text typewriter *)

Module TypingEffect.

Record options := Options {
  typeSpeed : Z;
  deleteSpeed : Z;
  pauseTime : Z;
  loop : bool;
  showCursor : bool;
  cursorChar : string
}.

(** The defaults the constructor spreads the caller's options over. *)
Definition default_options : options := Options 100 50 2000 true true "|".

(** The fields of an instance. [element] is [None] when the constructor
    got no element, otherwise it holds the element's [textContent]. The
    host timers are carried along; every timer runs [this.type()]. *)
Record state := State {
  element : option string;
  texts : list string;
  opts : options;
  currentTextIndex : Z;
  currentCharIndex : Z;
  isDeleting : bool;
  isPaused : bool;
  timeoutId : option Z;
  timers : sched unit
}.

Definition with_element (e : option string) (s : state) : state :=
  State e (texts s) (opts s) (currentTextIndex s) (currentCharIndex s)
        (isDeleting s) (isPaused s) (timeoutId s) (timers s).
Definition with_texts (l : list string) (s : state) : state :=
  State (element s) l (opts s) (currentTextIndex s) (currentCharIndex s)
        (isDeleting s) (isPaused s) (timeoutId s) (timers s).
Definition with_position (ti ci : Z) (d : bool) (s : state) : state :=
  State (element s) (texts s) (opts s) ti ci d (isPaused s) (timeoutId s)
        (timers s).
Definition with_paused (p : bool) (s : state) : state :=
  State (element s) (texts s) (opts s) (currentTextIndex s)
        (currentCharIndex s) (isDeleting s) p (timeoutId s) (timers s).
Definition with_timer (h : option Z) (k : sched unit) (s : state) : state :=
  State (element s) (texts s) (opts s) (currentTextIndex s)
        (currentCharIndex s) (isDeleting s) (isPaused s) h k.

(** [this.element.textContent = txt] *)
Definition set_textContent (txt : string) (s : state) : outcome state :=
  match element s with
  | None => Threw s
  | Some _ => Returned (with_element (Some txt) s)
  end.

(** [this.timeoutId = setTimeout(() => this.type(), delay)] *)
Definition schedule (delay : Z) (s : state) : state :=
  let r := setTimeout tt delay (timers s) in
  with_timer (Some (fst r)) (snd r) s.

Definition stop (s : state) : state :=
  if truthy (timeoutId s) then
    with_timer None (clearTimeout (timeoutId s) (timers s)) s
  else s.

Definition type (s : state) : outcome state :=
  if isPaused s then Returned s
  else
    match js_index (texts s) (currentTextIndex s) with
    | None => Threw s
    | Some currentText =>
        if negb (isDeleting s) then
          (* Typing mode *)
          let displayText := js_prefix (currentCharIndex s + 1) currentText in
          let ci := currentCharIndex s + 1 in
          if ci =? js_length currentText then
            (* Finished typing current text *)
            and_then
              (set_textContent displayText
                 (with_position (currentTextIndex s) ci true s))
              (fun s' => Returned (schedule (pauseTime (opts s)) s'))
          else
            and_then
              (set_textContent displayText
                 (with_position (currentTextIndex s) ci false s))
              (fun s' => Returned (schedule (typeSpeed (opts s)) s'))
        else
          (* Deleting mode *)
          let displayText := js_prefix (currentCharIndex s - 1) currentText in
          let ci := currentCharIndex s - 1 in
          if ci =? 0 then
            (* Finished deleting *)
            let ti :=
              Z.rem (currentTextIndex s + 1) (Z.of_nat (length (texts s))) in
            if negb (loop (opts s)) && (ti =? 0) then
              (* Stop if not looping and reached the end *)
              set_textContent displayText (with_position ti ci false s)
            else
              and_then
                (set_textContent displayText (with_position ti ci false s))
                (fun s' => Returned (schedule (typeSpeed (opts s)) s'))
          else
            and_then
              (set_textContent displayText
                 (with_position (currentTextIndex s) ci true s))
              (fun s' => Returned (schedule (deleteSpeed (opts s)) s'))
    end.

Definition start (s : state) : outcome state := type s.

Definition init (s : state) : outcome state :=
  if negb (bool_decide (is_Some (element s)))
     || (Z.of_nat (length (texts s)) =? 0)
  then Returned s
  else and_then (set_textContent "" s) start.

(** [new TypingEffect(element, texts, options)], with the host timers the
    instance will use. *)
Definition new (el : option string) (txts : texts_arg) (o : options)
    (k : sched unit) : outcome state :=
  init (State el (as_array txts) o 0 0 false false None k).

Definition reset (s : state) : outcome state :=
  set_textContent ""
    (with_paused false (with_position 0 0 false (stop s))).

Definition pause (s : state) : state := stop (with_paused true s).

Definition resume (s : state) : outcome state :=
  start (with_paused false s).

Definition changeTexts (newTexts : texts_arg) (s : state) : outcome state :=
  and_then (reset (with_texts (as_array newTexts) s)) start.

Definition getCurrentText (s : state) : option string :=
  js_index (texts s) (currentTextIndex s).

Definition destroy (s : state) : outcome state :=
  set_textContent "" (stop s).

(** One tick: the host takes the next pending timer and runs its
    callback, [this.type()]. [None] when nothing is pending. *)
Definition tick (s : state) : option (outcome state) :=
  match pop (timers s) with
  | None => None
  | Some (_, k) => Some (type (with_timer (timeoutId s) k s))
  end.

(** [n] ticks in a row. A tick that finds nothing pending, or that
    throws, ends the run where it is. *)
Fixpoint ticks (n : nat) (s : state) : state :=
  match n with
  | O => s
  | S m =>
      match tick s with
      | Some (Returned s') => ticks m s'
      | Some (Threw s') => s'
      | None => s
      end
  end.

(** What the sink shows. *)
Definition shown (s : state) : string :=
  match element s with Some t => t | None => "" end.

End TypingEffect.

(** ** [MultiLineTypingEffect]: the multi-line typewriter *)

Module MultiLine.

Record options := Options {
  typeSpeed : Z;
  lineDelay : Z;
  showCursor : bool;
  cursorChar : string
}.

Definition default_options : options := Options 80 500 true "|".

(** A child of the container: markup that was there before, or the
    [k]-th line element the instance created. *)
Inductive node : Type :=
| Foreign (html : string)
| Line (k : nat).

(** The fields of an instance. [container] is [None] when the
    constructor got no container, otherwise it lists the container's
    children. [elements] holds the [textContent] of each line element
    the instance created. Every timer runs [this.typeLine()]. *)
Record state := State {
  container : option (list node);
  lines : list string;
  opts : options;
  currentLineIndex : Z;
  currentCharIndex : Z;
  timeoutId : option Z;
  elements : list string;
  timers : sched unit
}.

Definition with_container (c : option (list node)) (s : state) : state :=
  State c (lines s) (opts s) (currentLineIndex s) (currentCharIndex s)
        (timeoutId s) (elements s) (timers s).
Definition with_position (li ci : Z) (s : state) : state :=
  State (container s) (lines s) (opts s) li ci (timeoutId s) (elements s)
        (timers s).
Definition with_elements (l : list string) (s : state) : state :=
  State (container s) (lines s) (opts s) (currentLineIndex s)
        (currentCharIndex s) (timeoutId s) l (timers s).
Definition with_timer (h : option Z) (k : sched unit) (s : state) : state :=
  State (container s) (lines s) (opts s) (currentLineIndex s)
        (currentCharIndex s) h (elements s) k.

(** [this.elements[i].textContent = txt]: a [TypeError] when there is no
    such element. *)
Definition set_line (i : Z) (txt : string) (s : state) : outcome state :=
  match js_index (elements s) i with
  | None => Threw s
  | Some _ => Returned (with_elements (<[Z.to_nat i := txt]> (elements s)) s)
  end.

(** [this.timeoutId = setTimeout(() => this.typeLine(), delay)] *)
Definition schedule (delay : Z) (s : state) : state :=
  let r := setTimeout tt delay (timers s) in
  with_timer (Some (fst r)) (snd r) s.

Definition stop (s : state) : state :=
  if truthy (timeoutId s) then
    with_timer None (clearTimeout (timeoutId s) (timers s)) s
  else s.

Definition typeLine (s : state) : outcome state :=
  if Z.of_nat (length (lines s)) <=? currentLineIndex s then
    (* Finished typing all lines *)
    Returned s
  else
    let i := currentLineIndex s in
    match js_index (lines s) i with
    | None => Threw s
    | Some currentLine =>
        if currentCharIndex s <? js_length currentLine then
          (* Continue typing current line *)
          let displayText := js_prefix (currentCharIndex s + 1) currentLine in
          let shownText :=
            if showCursor (opts s)
               && (i =? Z.of_nat (length (lines s)) - 1)
            then displayText +:+ cursorChar (opts s)
            else displayText in
          and_then (set_line i shownText s)
            (fun s' =>
               Returned
                 (schedule (typeSpeed (opts s))
                    (with_position i (currentCharIndex s + 1) s')))
        else
          (* Finished current line, move to next *)
          and_then (set_line i currentLine s)
            (fun s' =>
               Returned
                 (schedule (lineDelay (opts s)) (with_position (i + 1) 0 s')))
    end.

Definition start (s : state) : outcome state := typeLine s.

Definition init (s : state) : outcome state :=
  if negb (bool_decide (is_Some (container s)))
     || (Z.of_nat (length (lines s)) =? 0)
  then Returned s
  else
    (* the container is emptied and gets one element per line *)
    let n := length (lines s) in
    let first := length (elements s) in
    start
      (with_elements (elements s ++ replicate n "")
         (with_container (Some (Line <$> seq first n)) s)).

(** [new MultiLineTypingEffect(container, lines, options)] *)
Definition new (c : option (list node)) (ls : list string) (o : options)
    (k : sched unit) : outcome state :=
  init (State c ls o 0 0 None [] k).

Definition reset (s : state) : state :=
  with_elements ((fun _ => "") <$> elements s)
    (with_position 0 0 (stop s)).

Definition destroy (s : state) : outcome state :=
  let s' := stop s in
  match container s' with
  | None => Threw s'
  | Some _ => Returned (with_container (Some []) s')
  end.

(** One tick: the host runs the next pending timer's callback,
    [this.typeLine()]. [None] when nothing is pending. *)
Definition tick (s : state) : option (outcome state) :=
  match pop (timers s) with
  | None => None
  | Some (_, k) => Some (typeLine (with_timer (timeoutId s) k s))
  end.

Fixpoint ticks (n : nat) (s : state) : state :=
  match n with
  | O => s
  | S m =>
      match tick s with
      | Some (Returned s') => ticks m s'
      | Some (Threw s') => s'
      | None => s
      end
  end.

End MultiLine.

(** ** Call sequences and what the contracts promise *)

(** Times that never go back, none before [t0]. *)
Fixpoint ascending (t0 : Z) (ts : list Z) : Prop :=
  match ts with
  | [] => True
  | t :: r => t0 <= t /\ ascending t r
  end.

(** Neighbouring times at least [d] apart. *)
Fixpoint spaced (d : Z) (ts : list Z) : Prop :=
  match ts with
  | [] => True
  | t :: r =>
      match r with [] => True | u :: _ => t + d <= u end /\ spaced d r
  end.

(** Neighbouring times less than [d] apart: one burst. *)
Fixpoint burst (d : Z) (ts : list Z) : Prop :=
  match ts with
  | [] => True
  | t :: r =>
      match r with [] => True | u :: _ => u < t + d end /\ burst d r
  end.

(** The throttle contract in the words of its description: a call goes
    through when no cooldown is open and opens one of length [limit];
    a call inside the cooldown is dropped. [last] is the time of the call
    that opened the current cooldown, if any. *)
Fixpoint admitted {Arg : Type} (limit : Z) (last : option Z)
    (cs : list (Z * Arg)) : list (Z * Arg) :=
  match cs with
  | [] => []
  | c :: r =>
      match last with
      | Some tl =>
          if fst c <? tl + Z.max 0 limit then admitted limit last r
          else c :: admitted limit (Some (fst c)) r
      | None => c :: admitted limit (Some (fst c)) r
      end
  end.

(** How a throttle wrapper's state relates to the contract's [last]: the
    gate is shut exactly while the one timer that reopens it is pending. *)
Definition throttle_tracks {Arg : Type} (limit : Z) (last : option Z)
    (s : Throttle.state (Arg := Arg)) : Prop :=
  match last with
  | None =>
      Throttle.inThrottle s = false /\ pending (Throttle.timers s) = []
  | Some tl =>
      tl <= now (Throttle.timers s)
      /\ ((Throttle.inThrottle s = true
           /\ exists i,
               pending (Throttle.timers s)
               = [Timer i (tl + Z.max 0 limit) tt])
          \/ (Throttle.inThrottle s = false
              /\ pending (Throttle.timers s) = []
              /\ tl + Z.max 0 limit <= now (Throttle.timers s)))
  end.

(** A debounce wrapper keeps hold of its timer: nothing is pending, or
    the one pending timer is the one [timeout] names. *)
Definition debounce_tracks {Arg : Type} (s : Debounce.state (Arg := Arg)) : Prop :=
  pending (Debounce.timers s) = []
  \/ exists tm,
      pending (Debounce.timers s) = [tm]
      /\ Debounce.timeout s = Some (tid tm).

(** A debounce wrapper whose last call, with [a], came at [t] and is
    still waiting. *)
Definition debounce_waiting {Arg : Type} (wait : Z) (t : Z) (a : Arg)
    (s : Debounce.state (Arg := Arg)) : Prop :=
  now (Debounce.timers s) = t
  /\ exists i,
      pending (Debounce.timers s) = [Timer i (t + wait) a]
      /\ Debounce.timeout s = Some i.

(** A typewriter keeps hold of its timer: handles are positive and
    nothing is pending, or the one pending timer is the one [timeoutId]
    names. *)
Definition holds_its_timer (h : option Z) (k : sched unit) : Prop :=
  0 < next_id k
  /\ (pending k = []
      \/ exists tm, pending k = [tm] /\ h = Some (tid tm) /\ tid tm <> 0).

Definition typing_tracks (s : TypingEffect.state) : Prop :=
  holds_its_timer (TypingEffect.timeoutId s) (TypingEffect.timers s)
  /\ (TypingEffect.isPaused s = true ->
      pending (TypingEffect.timers s) = []).

Definition multiline_tracks (s : MultiLine.state) : Prop :=
  holds_its_timer (MultiLine.timeoutId s) (MultiLine.timers s).

(** A throttle wrapper's gate is shut exactly while its one timer is
    pending. *)
Definition throttle_gate {Arg : Type} (s : Throttle.state (Arg := Arg)) : Prop :=
  (Throttle.inThrottle s = true
   /\ exists tm, pending (Throttle.timers s) = [tm])
  \/ (Throttle.inThrottle s = false /\ pending (Throttle.timers s) = []).

(** A running single-text typewriter at a given place: text [i], [c]
    characters, direction [d], one timer pending. *)
Definition typing_at (txts : list string) (o : TypingEffect.options)
    (i : nat) (c : Z) (d : bool) (s : TypingEffect.state) : Prop :=
  TypingEffect.texts s = txts
  /\ TypingEffect.opts s = o
  /\ TypingEffect.currentTextIndex s = Z.of_nat i
  /\ TypingEffect.currentCharIndex s = c
  /\ TypingEffect.isDeleting s = d
  /\ TypingEffect.isPaused s = false
  /\ is_Some (TypingEffect.element s)
  /\ exists tm, pending (TypingEffect.timers s) = [tm].

(** The single-text typewriter at rest after its last text: the sink is
    empty, the position is back at the start and nothing is pending. *)
Definition typing_stopped (s : TypingEffect.state) : Prop :=
  TypingEffect.shown s = ""
  /\ pending (TypingEffect.timers s) = []
  /\ TypingEffect.currentTextIndex s = 0
  /\ TypingEffect.currentCharIndex s = 0
  /\ TypingEffect.isDeleting s = false
  /\ TypingEffect.isPaused s = false.

(** ** What can happen to an instance *)

(** A throttle wrapper: time passes (due timers run) and it is called. *)
Inductive throttle_reachable {Arg : Type} (limit : Z) :
    Throttle.state (Arg := Arg) -> Prop :=
| thr_init t0 : throttle_reachable limit (Throttle.init t0)
| thr_time t s :
    throttle_reachable limit s ->
    throttle_reachable limit (Throttle.at_time t s)
| thr_call a s :
    throttle_reachable limit s ->
    throttle_reachable limit (Throttle.call limit a s).

(** A debounce wrapper, likewise. *)
Inductive debounce_reachable {Arg : Type} (wait : Z) (immediate : bool) :
    Debounce.state (Arg := Arg) -> Prop :=
| deb_init t0 : debounce_reachable wait immediate (Debounce.init t0)
| deb_time t s :
    debounce_reachable wait immediate s ->
    debounce_reachable wait immediate (Debounce.at_time immediate t s)
| deb_call a s :
    debounce_reachable wait immediate s ->
    debounce_reachable wait immediate (Debounce.call wait immediate a s).

(** A single-text typewriter driven the way the page drives it: built on
    an idle host, ticked by its timers, paused, resumed after a pause,
    reset, given new texts, destroyed. *)
Inductive typing_driven : TypingEffect.state -> Prop :=
| typ_new el txts o t0 :
    typing_driven (final (TypingEffect.new el txts o (idle_at t0)))
| typ_tick s o :
    typing_driven s -> TypingEffect.tick s = Some o ->
    typing_driven (final o)
| typ_pause s :
    typing_driven s -> typing_driven (TypingEffect.pause s)
| typ_resume s :
    typing_driven s -> TypingEffect.isPaused s = true ->
    typing_driven (final (TypingEffect.resume s))
| typ_reset s :
    typing_driven s -> typing_driven (final (TypingEffect.reset s))
| typ_changeTexts txts s :
    typing_driven s ->
    typing_driven (final (TypingEffect.changeTexts txts s))
| typ_destroy s :
    typing_driven s -> typing_driven (final (TypingEffect.destroy s)).

(** The same with [resume] called whenever the caller likes. *)
Inductive typing_reachable : TypingEffect.state -> Prop :=
| typr_driven s : typing_driven s -> typing_reachable s
| typr_tick s o :
    typing_reachable s -> TypingEffect.tick s = Some o ->
    typing_reachable (final o)
| typr_pause s :
    typing_reachable s -> typing_reachable (TypingEffect.pause s)
| typr_resume s :
    typing_reachable s -> typing_reachable (final (TypingEffect.resume s)).

(** A multi-line typewriter: built on an idle host, ticked by its timers,
    reset, destroyed. *)
Inductive multiline_driven : MultiLine.state -> Prop :=
| ml_new c ls o t0 :
    multiline_driven (final (MultiLine.new c ls o (idle_at t0)))
| ml_tick s o :
    multiline_driven s -> MultiLine.tick s = Some o ->
    multiline_driven (final o)
| ml_reset s :
    multiline_driven s -> multiline_driven (MultiLine.reset s)
| ml_destroy s :
    multiline_driven s -> multiline_driven (final (MultiLine.destroy s)).

(** The number of characters of a list of texts. *)
Definition total_length (l : list string) : nat :=
  foldr (fun t n => (String.length t + n)%nat) 0%nat l.

(** ** The page's visibility listeners *)

(** Two scripts listen to [visibilitychange] once the page is loaded: the
    typing script itself and the application controller (through
    [handleVisibilityChange], [pauseAnimations] and [resumeAnimations]).
    Both reach the typewriter through [window.typingEffect]. *)
Module Page.

Record state := State {
  hidden : bool;
  play_state : string;
  typingEffect : option TypingEffect.state
}.

(** The listener of the typing script. An exception thrown by a listener
    is reported by the host and the instance stays as the throw left it. *)
Definition typing_script_listener (p : state) : state :=
  match typingEffect p with
  | None => p
  | Some te =>
      if hidden p
      then State (hidden p) (play_state p) (Some (TypingEffect.pause te))
      else State (hidden p) (play_state p)
             (Some (final (TypingEffect.resume te)))
  end.

Definition pauseAnimations (p : state) : state :=
  State (hidden p) "paused"
    (match typingEffect p with
     | None => None
     | Some te => Some (TypingEffect.pause te)
     end).

Definition resumeAnimations (p : state) : state :=
  State (hidden p) "running"
    (match typingEffect p with
     | None => None
     | Some te => Some (final (TypingEffect.resume te))
     end).

Definition handleVisibilityChange (p : state) : state :=
  if hidden p then pauseAnimations p else resumeAnimations p.

(** [document.hidden] becomes [h] and the event reaches both listeners. *)
Definition visibilitychange (h : bool) (p : state) : state :=
  handleVisibilityChange
    (typing_script_listener (State h (play_state p) (typingEffect p))).

End Page.

(** ** Where a single-text typewriter can be *)

(** The text index addresses a text and the character count is a prefix
    length of it: below the length while typing, at least one while
    deleting. *)
Definition in_bounds (s : TypingEffect.state) : Prop :=
  exists t,
    js_index (TypingEffect.texts s) (TypingEffect.currentTextIndex s) = Some t
    /\ if TypingEffect.isDeleting s
       then 1 <= TypingEffect.currentCharIndex s <= js_length t
       else 0 <= TypingEffect.currentCharIndex s < js_length t.

(** Texts as the page passes them: at least one, each with characters. *)
Definition proper_texts (l : list string) : Prop :=
  l <> [] /\ Forall (fun t => t <> "") l.

(** A single-text typewriter over proper texts, used in any way its
    methods allow: built on any host, ticked, and with [start], [pause],
    [resume], [reset], [changeTexts] and [destroy] called at any time. *)
Inductive typing_used : TypingEffect.state -> Prop :=
| use_new el txts o k :
    proper_texts (as_array txts) ->
    typing_used (final (TypingEffect.new el txts o k))
| use_tick s o :
    typing_used s -> TypingEffect.tick s = Some o -> typing_used (final o)
| use_start s :
    typing_used s -> typing_used (final (TypingEffect.start s))
| use_pause s :
    typing_used s -> typing_used (TypingEffect.pause s)
| use_resume s :
    typing_used s -> typing_used (final (TypingEffect.resume s))
| use_reset s :
    typing_used s -> typing_used (final (TypingEffect.reset s))
| use_changeTexts txts s :
    typing_used s -> proper_texts (as_array txts) ->
    typing_used (final (TypingEffect.changeTexts txts s))
| use_destroy s :
    typing_used s -> typing_used (final (TypingEffect.destroy s)).

(** ** Where a multi-line typewriter can be *)

(** A running multi-line typewriter at a given place: line [i], [c]
    characters, the line elements showing [els], one timer pending. *)
Definition multiline_at (ls : list string) (o : MultiLine.options)
    (i : nat) (c : Z) (els : list string) (s : MultiLine.state) : Prop :=
  MultiLine.lines s = ls
  /\ MultiLine.opts s = o
  /\ MultiLine.currentLineIndex s = Z.of_nat i
  /\ MultiLine.currentCharIndex s = c
  /\ MultiLine.elements s = els
  /\ exists tm, pending (MultiLine.timers s) = [tm].

(** ** What debounce does with any sequence of calls *)

(** Without [immediate]: a call is carried out [wait] after it was made,
    unless the next call comes before that. [prev] is the call that is
    still waiting, if any. *)
Fixpoint trailing {Arg : Type} (wait : Z) (prev : option (Z * Arg))
    (cs : list (Z * Arg)) : list (Z * Arg) :=
  match cs with
  | [] =>
      match prev with
      | Some p => [(fst p + Z.max 0 wait, snd p)]
      | None => []
      end
  | c :: r =>
      match prev with
      | Some p =>
          if fst c <? fst p + Z.max 0 wait then trailing wait (Some c) r
          else (fst p + Z.max 0 wait, snd p) :: trailing wait (Some c) r
      | None => trailing wait (Some c) r
      end
  end.

(** With [immediate]: a call is carried out at once when no call was made
    during the [wait] before it. [prev] is the time of the call before. *)
Fixpoint leading {Arg : Type} (wait : Z) (prev : option Z)
    (cs : list (Z * Arg)) : list (Z * Arg) :=
  match cs with
  | [] => []
  | c :: r =>
      match prev with
      | Some tp =>
          if fst c <? tp + Z.max 0 wait then leading wait (Some (fst c)) r
          else c :: leading wait (Some (fst c)) r
      | None => c :: leading wait (Some (fst c)) r
      end
  end.

(** The state of a debounce wrapper after the calls so far: nothing is
    pending and [timeout] is empty, or the timer of the last call is
    pending and [timeout] names it. *)
Definition debounce_after {Arg : Type} (wait : Z) (prev : option (Z * Arg))
    (s : Debounce.state (Arg := Arg)) : Prop :=
  0 < next_id (Debounce.timers s)
  /\ match prev with
     | None =>
         pending (Debounce.timers s) = [] /\ Debounce.timeout s = None
     | Some p =>
         fst p <= now (Debounce.timers s) <= fst p + Z.max 0 wait
         /\ exists i,
             pending (Debounce.timers s)
             = [Timer i (fst p + Z.max 0 wait) (snd p)]
             /\ Debounce.timeout s = Some i /\ i <> 0
     end.

(** ** Small helpers of utils.js *)

(** [isMobile], [isTablet], [isDesktop] and [getDeviceType], as functions
    of [window.innerWidth] (a whole number of pixels). *)
Module Device.

Definition isMobile (innerWidth : Z) : bool := innerWidth <=? 768.

Definition isTablet (innerWidth : Z) : bool :=
  (768 <? innerWidth) && (innerWidth <=? 1024).

Definition isDesktop (innerWidth : Z) : bool := 1024 <? innerWidth.

Definition getDeviceType (innerWidth : Z) : string :=
  if isMobile innerWidth then "mobile"
  else if isTablet innerWidth then "tablet"
  else "desktop".

End Device.

(** [generateId]. [draw i] stands for the value of
    [Math.floor(Math.random() * chars.length)] in the [i]-th round of the
    loop. *)
Module RandomId.

Definition chars : string :=
  "ABCDEFGHIJKLMNOPQRSTUVWXYZabcdefghijklmnopqrstuvwxyz0123456789".

(** [s.charAt(i)]: the empty string outside [s]. *)
Definition js_charAt (s : string) (i : Z) : string :=
  if i <? 0 then ""
  else match String.get (Z.to_nat i) s with
       | Some ch => String ch EmptyString
       | None => ""
       end.

(** The loop [for (let i = 0; i < length; i++) result += ...], from round
    [i] on, with [rounds] rounds left. *)
Fixpoint loop (draw : nat -> Z) (rounds : nat) (i : nat) (result : string)
    : string :=
  match rounds with
  | O => result
  | S r => loop draw r (S i) (result +:+ js_charAt chars (draw i))
  end.

(** [generateId(length)] for a whole number [length]. *)
Definition generateId (length : Z) (draw : nat -> Z) : string :=
  loop draw (Z.to_nat length) 0 "".

End RandomId.

(** The [storage] helper. The host provides [localStorage] and [JSON]:
    [stringify] and [parse] are [None] where the host throws, [fits] tells
    whether [setItem] accepts an entry (it throws when the quota is
    exceeded), and the store is [None] when reaching [localStorage]
    itself throws. *)
Module Storage.

Section Helper.
Context {V : Type}.
Variable stringify : V -> option string.
Variable parse : string -> option V.
Variable fits : gmap string string -> string -> string -> bool.

Definition store : Type := option (gmap string string).

Definition set (key : string) (value : V) (st : store) : bool * store :=
  match stringify value, st with
  | Some txt, Some m =>
      if fits m key txt then (true, Some (<[key := txt]> m)) else (false, st)
  | _, _ => (false, st)
  end.

Definition get (key : string) (defaultValue : V) (st : store) : V :=
  match st with
  | None => defaultValue
  | Some m =>
      match m !! key with
      | None => defaultValue
      | Some item =>
          if String.eqb item "" then defaultValue
          else match parse item with
               | Some v => v
               | None => defaultValue
               end
      end
  end.

Definition remove (key : string) (st : store) : bool * store :=
  match st with
  | None => (false, st)
  | Some m => (true, Some (delete key m))
  end.

Definition clear (st : store) : bool * store :=
  match st with
  | None => (false, st)
  | Some _ => (true, Some ∅)
  end.

End Helper.

End Storage.

(** ** [ProjectsController] (utils.js) *)

Module Projects.

(** The inline style of a card's overlay. *)
Record overlay_style := Overlay { ov_opacity : string; ov_visibility : string }.

(** What the controller reads and writes of a project card: its
    [data-category] ([None] when absent), its inline [display], [opacity]
    and [transform], its overlay element if it has one, and whether its
    class list holds [hovered]. *)
Record card := Card {
  category : option string;
  display : string;
  opacity : string;
  transform : string;
  overlay : option overlay_style;
  hovered : bool
}.

Definition showProjectOverlay (c : card) : card :=
  Card (category c) (display c) (opacity c) (transform c)
       (match overlay c with
        | Some _ => Some (Overlay "1" "visible")
        | None => None
        end)
       true.

Definition hideProjectOverlay (c : card) : card :=
  Card (category c) (display c) (opacity c) (transform c)
       (match overlay c with
        | Some _ => Some (Overlay "0" "hidden")
        | None => None
        end)
       false.

(** [toggleProjectOverlay(card)] for the [i]-th card of [projectCards]. *)
Definition toggleProjectOverlay (i : nat) (cards : list card) : list card :=
  match cards !! i with
  | None => cards
  | Some c =>
      match overlay c with
      | None => cards
      | Some ov =>
          if String.eqb (ov_opacity ov) "1"
          then <[i := hideProjectOverlay c]> cards
          else
            (* Hide other overlays first *)
            let others :=
              imap (fun j other =>
                      if bool_decide (j = i) then other
                      else hideProjectOverlay other) cards in
            alter showProjectOverlay i others
      end
  end.

(** The cards the arrow keys move between: those not hidden by the
    filter, by their place in [projectCards]. *)
Definition shown_cards (cards : list card) : list nat :=
  List.filter
    (fun j => match cards !! j with
              | Some c => negb (String.eqb (display c) "none")
              | None => false
              end)
    (seq 0 (length cards)).



(** The timers of [filterProjects]. *)
Inductive callback : Type :=
| HideCard (i : nat)
| ShowFiltered (filter : string)
| RevealCard (i : nat).

Record state := State {
  projectCards : list card;
  currentFilter : string;
  isAnimating : bool;
  timers : sched callback
}.

(** [list.forEach((card, index) => setTimeout(cb(card), index * step))]
    over the cards [idxs], from position [j] on. *)
Fixpoint schedule_each (mk : nat -> callback) (step : Z) (idxs : list nat)
    (j : nat) (k : sched callback) : sched callback :=
  match idxs with
  | [] => k
  | i :: r =>
      schedule_each mk step r (S j)
        (snd (setTimeout (mk i) (Z.of_nat j * step) k))
  end.

Definition filterProjects (filter : string) (s : state) : state :=
  if isAnimating s || String.eqb (currentFilter s) filter then s
  else
    let n := length (projectCards s) in
    (* Hide all cards first *)
    let k1 := schedule_each HideCard 50 (seq 0 n) 0 (timers s) in
    (* Show filtered cards after hide animation *)
    let k2 := snd (setTimeout (ShowFiltered filter) (Z.of_nat n * 50 + 100) k1) in
    State (projectCards s) filter true k2.

Definition shouldShow (filter : string) (c : card) : bool :=
  String.eqb filter "all"
  || match category c with
     | Some cat => String.eqb cat filter
     | None => false
     end.

Definition with_display (d : string) (c : card) : card :=
  Card (category c) d (opacity c) (transform c) (overlay c) (hovered c).

Definition with_fade (o t : string) (c : card) : card :=
  Card (category c) (display c) o t (overlay c) (hovered c).

(** What a timer does when it runs. *)
Definition run_callback (cb : callback) (s : state) : state :=
  match cb with
  | HideCard i =>
      State (alter (with_fade "0" "translateY(20px)") i (projectCards s))
            (currentFilter s) (isAnimating s) (timers s)
  | RevealCard i =>
      State (alter (with_fade "1" "translateY(0)") i (projectCards s))
            (currentFilter s) (isAnimating s) (timers s)
  | ShowFiltered filter =>
      let cards :=
        (fun c => with_display (if shouldShow filter c then "block"
                                else "none") c) <$> projectCards s in
      (* Animate visible cards *)
      let k := schedule_each RevealCard 100 (shown_cards cards) 0 (timers s) in
      State cards (currentFilter s) false k
  end.

(** The host runs the next pending timer. *)
Definition fire (s : state) : option state :=
  match pop (timers s) with
  | None => None
  | Some (tm, k) =>
      Some (run_callback (cb tm)
              (State (projectCards s) (currentFilter s) (isAnimating s) k))
  end.

(** The host runs timers until none is pending, [fuel] of them at most. *)
Fixpoint drain (fuel : nat) (s : state) : state :=
  match fuel with
  | O => s
  | S f => match fire s with Some s' => drain f s' | None => s end
  end.

End Projects.

(** ** The filter buttons of [ProjectsController] *)

Module FilterBar.

(** A filter button: its [data-filter], whether its class list holds
    [active], and its [aria-pressed] attribute. *)
Record button := Button {
  data_filter : string;
  active : bool;
  aria_pressed : option string
}.

(** [updateActiveFilter(activeButton)], the button given by its place
    among [filterButtons]. *)
Definition updateActiveFilter (activeButton : nat) (bs : list button)
    : list button :=
  alter (fun b => Button (data_filter b) true (Some "true")) activeButton
    ((fun b => Button (data_filter b) false (Some "false")) <$> bs).

(** The click listener of the [i]-th filter button. *)
Definition click (i : nat) (p : list button * Projects.state)
    : list button * Projects.state :=
  match fst p !! i with
  | None => p
  | Some button =>
      (updateActiveFilter i (fst p),
       Projects.filterProjects (data_filter button) (snd p))
  end.

End FilterBar.

(** ** The theme system of [PortfolioApp] *)

(** A value [JSON.parse] can give back: [null], a boolean, a string, or
    something else (a number, an array, an object), of which only the
    truthiness matters here. *)
Inductive jsval : Type :=
| JNull
| JBool (b : bool)
| JStr (s : string)
| JOther (truthy : bool).

Definition js_truthy (v : jsval) : bool :=
  match v with
  | JNull => false
  | JBool b => b
  | JStr s => negb (String.eqb s "")
  | JOther t => t
  end.

Module Theme.

Section System.
Variable stringify : jsval -> option string.
Variable parse : string -> option jsval.
Variable fits : gmap string string -> string -> string -> bool.

(** The [data-theme] attribute of the document element (by the value it
    was set from) and [localStorage]. *)
Record state := State {
  data_theme : option jsval;
  storage : Storage.store
}.

Definition setTheme (theme : jsval) (s : state) : state :=
  State (Some theme)
        (snd (Storage.set stringify fits "theme" theme (storage s))).

(** The listener for changes of the system colour scheme; [matches] says
    whether the system now prefers dark. *)
Definition system_theme_changed (matches : bool) (s : state) : state :=
  if negb (js_truthy (Storage.get parse "theme" JNull (storage s)))
  then setTheme (JStr (if matches then "dark" else "light")) s
  else s.

Definition initializeThemeSystem (s : state) : state :=
  let savedTheme := Storage.get parse "theme" (JStr "light") (storage s) in
  setTheme savedTheme s.

End System.

End Theme.

(** ** Queues of timers *)

(** A queue the host empties from the front: every timer is due no later
    than the ones behind it, and no handle comes twice. *)
Fixpoint in_order {A : Type} (l : list (timer A)) : Prop :=
  match l with
  | [] => True
  | tm :: r =>
      Forall (fun u => due tm <= due u /\ tid u <> tid tm) r /\ in_order r
  end.

(** The timers [Projects.schedule_each] registers on a host whose clock
    reads [base] and whose next handle is [id]. *)
Fixpoint batch (mk : nat -> Projects.callback) (step base id : Z) (j : nat)
    (idxs : list nat) : list (timer Projects.callback) :=
  match idxs with
  | [] => []
  | i :: r =>
      Timer id (base + Z.max 0 (Z.of_nat j * step)) (mk i)
        :: batch mk step base (id + 1) (S j) r
  end.

(** What the timers that fade a card do to the cards. *)
Definition fade (cb : Projects.callback) (cards : list Projects.card)
    : list Projects.card :=
  match cb with
  | Projects.HideCard i =>
      alter (Projects.with_fade "0" "translateY(20px)") i cards
  | Projects.RevealCard i =>
      alter (Projects.with_fade "1" "translateY(0)") i cards
  | Projects.ShowFiltered _ => cards
  end.

Definition is_fade (cb : Projects.callback) : Prop :=
  match cb with
  | Projects.ShowFiltered _ => False
  | _ => True
  end.

(** A card once [filterProjects] has settled. *)
Definition filtered (filter : string) (c : Projects.card) : Projects.card :=
  if Projects.shouldShow filter c
  then Projects.Card (Projects.category c) "block" "1" "translateY(0)"
         (Projects.overlay c) (Projects.hovered c)
  else Projects.Card (Projects.category c) "none" "0" "translateY(20px)"
         (Projects.overlay c) (Projects.hovered c).

(** ** [TextRevealEffect]: a text shown word by word *)

Module TextReveal.

Record options := Options {
  animationType : string;
  duration : Z;
  delay : Z;
  stagger : Z
}.

(** What the effect reads and writes of a [span.reveal-word]: its text
    and its inline [opacity], [transform] and [display]; [transition] is
    the number of milliseconds in [all <duration>ms ease]. *)
Record span := Span {
  text : string;
  opacity : string;
  transform : string;
  display : string;
  transition : Z
}.

(** A child of the target element: a [span.reveal-word], a text node, or
    any other element, of which only the text matters. *)
Inductive node : Type :=
| RevealWord (w : span)
| TextNode (t : string)
| Element (t : string).

Definition node_text (n : node) : string :=
  match n with
  | RevealWord w => text w
  | TextNode t | Element t => t
  end.

(** [element.textContent]: the texts of the children, in order. *)
Definition textContent (children : list node) : string :=
  foldr (fun n rest => String.append (node_text n) rest) "" children.

(** The space character. *)
Definition space : Ascii.ascii :=
  Ascii.Ascii false false false false false true false false.

(** [s.split(sep)] for a separator of one character: the pieces between
    the separators, empty ones included; one empty piece for the empty
    string. *)
Fixpoint js_split (sep : Ascii.ascii) (s : string) : list string :=
  match s with
  | EmptyString => [""]
  | String c r =>
      if Ascii.eqb c sep then "" :: js_split sep r
      else
        match js_split sep r with
        | w :: ws => String c w :: ws
        | [] => [String c ""]
        end
  end.

(** The timers of the effect: revealing the word element at a place among
    the children, and the delayed [animate] of [replay]. The children are
    replaced in [init] only, so a place names the same element for as
    long as the instance lives. *)
Inductive callback : Type :=
| Reveal (p : nat)
| Animate.

Record state := State {
  element : option (list node);
  opts : options;
  originalText : string;
  words : list string;
  timers : sched callback
}.

Definition with_children (children : list node) (s : state) : state :=
  State (Some children) (opts s) (originalText s) (words s) (timers s).

Definition with_timers (k : sched callback) (s : state) : state :=
  State (element s) (opts s) (originalText s) (words s) k.

Definition getInitialTransform (o : options) : string :=
  if String.eqb (animationType o) "fadeInUp" then "translateY(20px)"
  else if String.eqb (animationType o) "fadeInDown" then "translateY(-20px)"
  else if String.eqb (animationType o) "slideInLeft" then "translateX(-20px)"
  else if String.eqb (animationType o) "slideInRight" then "translateX(20px)"
  else if String.eqb (animationType o) "scaleIn" then "scale(0.8)"
  else "translateY(20px)".

(** The span [createWordElements] makes for a word. *)
Definition word_span (o : options) (word : string) : span :=
  Span word "0" (getInitialTransform o) "inline-block" (duration o).

(** [words.forEach((word, index) => ...)] of [createWordElements], from
    [index] on: a span per word and a space after each but the last of
    the [n] words. *)
Fixpoint word_nodes (o : options) (n : Z) (index : nat) (ws : list string)
    : list node :=
  match ws with
  | [] => []
  | word :: r =>
      RevealWord (word_span o word)
        :: (if Z.of_nat index <? n - 1 then [TextNode " "] else [])
        ++ word_nodes o n (S index) r
  end.

Definition createWordElements (s : state) : outcome state :=
  match element s with
  | None => Threw s
  | Some _ =>
      Returned
        (with_children
           (word_nodes (opts s) (Z.of_nat (length (words s))) 0 (words s)) s)
  end.

(** [querySelectorAll('.reveal-word')]: the places of the word elements
    among the children from place [p] on, in document order. *)
Fixpoint reveal_words (p : nat) (children : list node) : list nat :=
  match children with
  | [] => []
  | RevealWord _ :: r => p :: reveal_words (S p) r
  | _ :: r => reveal_words (S p) r
  end.

(** [wordElements.forEach((wordElement, index) => setTimeout(...,
    delay + index * stagger))], from [index] on. *)
Fixpoint schedule_each (o : options) (ps : list nat) (index : nat)
    (k : sched callback) : sched callback :=
  match ps with
  | [] => k
  | p :: r =>
      schedule_each o r (S index)
        (snd (setTimeout (Reveal p) (delay o + Z.of_nat index * stagger o) k))
  end.

Definition animate (s : state) : outcome state :=
  match element s with
  | None => Threw s
  | Some children =>
      Returned
        (with_timers
           (schedule_each (opts s) (reveal_words 0 children) 0 (timers s)) s)
  end.

Definition init (s : state) : outcome state :=
  if negb (bool_decide (is_Some (element s)))
     || String.eqb (originalText s) ""
  then Returned s
  else and_then (createWordElements s) animate.

(** [new TextRevealEffect(element, options)] with the options already
    merged over the defaults. [element.textContent] is read before [init]
    looks at [element]. *)
Definition new (element : option (list node)) (o : options)
    (k : sched callback) : outcome state :=
  match element with
  | None => Threw (State None o "" [] k)
  | Some children =>
      let originalText := textContent children in
      init (State (Some children) o originalText
              (js_split space originalText) k)
  end.

Definition on_word (f : span -> span) (n : node) : node :=
  match n with
  | RevealWord w => RevealWord (f w)
  | other => other
  end.

Definition hide (o : options) (w : span) : span :=
  Span (text w) "0" (getInitialTransform o) (display w) (transition w).

Definition show (w : span) : span :=
  Span (text w) "1" "translateY(0) translateX(0) scale(1)" (display w)
       (transition w).

Definition reset (s : state) : outcome state :=
  match element s with
  | None => Threw s
  | Some children =>
      Returned (with_children (on_word (hide (opts s)) <$> children) s)
  end.

Definition replay (s : state) : outcome state :=
  and_then (reset s)
    (fun s => Returned (with_timers (snd (setTimeout Animate 100 (timers s))) s)).

(** What a timer does when it runs; the host swallows what it throws. *)
Definition run_callback (c : callback) (s : state) : state :=
  match c with
  | Reveal p =>
      match element s with
      | Some children => with_children (alter (on_word show) p children) s
      | None => s
      end
  | Animate => final (animate s)
  end.

(** The host runs the next pending timer. *)
Definition fire (s : state) : option state :=
  match pop (timers s) with
  | None => None
  | Some (tm, k) => Some (run_callback (cb tm) (with_timers k s))
  end.

(** The host runs timers until none is pending, [fuel] of them at most. *)
Fixpoint drain (fuel : nat) (s : state) : state :=
  match fuel with
  | O => s
  | S f => match fire s with Some s' => drain f s' | None => s end
  end.

Definition word_of (n : node) : option span :=
  match n with
  | RevealWord w => Some w
  | _ => None
  end.

(** The word elements of an instance, in document order. *)
Definition spans (s : state) : list span :=
  match element s with
  | Some children => omap word_of children
  | None => []
  end.

End TextReveal.

(** [ws.join(' ')]. *)
Fixpoint js_join (ws : list string) : string :=
  match ws with
  | [] => ""
  | w :: r =>
      match r with
      | [] => w
      | _ => String.append w (String TextReveal.space (js_join r))
      end
  end.

(** The timers [TextReveal.schedule_each] registers on a host whose clock
    reads [base] and whose next handle is [id]. *)
Fixpoint reveal_batch (o : TextReveal.options) (base id : Z) (index : nat)
    (ps : list nat) : list (timer TextReveal.callback) :=
  match ps with
  | [] => []
  | p :: r =>
      Timer id
        (base + Z.max 0 (TextReveal.delay o
                         + Z.of_nat index * TextReveal.stagger o))
        (TextReveal.Reveal p)
        :: reveal_batch o base (id + 1) (S index) r
  end.

(** The places the timers of a queue reveal. *)
Definition revealed_by (l : list (timer TextReveal.callback)) : list nat :=
  omap (fun tm => match cb tm with
                  | TextReveal.Reveal p => Some p
                  | TextReveal.Animate => None
                  end) l.



(** ** Proof steps that come back *)

(** Take a [typing_at] hypothesis apart. *)
Ltac open_at H :=
  let e := fresh "e" in
  let tm := fresh "tm" in
  destruct H as (Htx & Ho & Hi & Hc & Hd & Hp & [e He] & [tm Hq]).

(** Read the fields of an instance whose timer was just taken off the
    queue. *)
Ltac popped_fields :=
  cbn [TypingEffect.isPaused TypingEffect.texts TypingEffect.currentTextIndex
       TypingEffect.currentCharIndex TypingEffect.isDeleting
       TypingEffect.element TypingEffect.opts TypingEffect.with_timer].

(** * Properties *)

(** ** Small runs, as sanity checks of the embedding *)

Example throttle_0_10_60 :
  Throttle.calls_made
    (Throttle.run 50 [(0, "a"); (10, "b"); (60, "c")] (Throttle.init 0))
  = [(0, "a"); (60, "c")].
Proof. vm_compute. reflexivity. Qed.

Example debounce_0_10_20 :
  Debounce.calls_made
    (Debounce.settle false
       (Debounce.run 50 false [(0, "a"); (10, "b"); (20, "c")] (Debounce.init 0)))
  = [(70, "c")].
Proof. vm_compute. reflexivity. Qed.

Example typing_ab_first_steps :
  let s0 := final (TypingEffect.new (Some "old") (Many ["ab"])
                     TypingEffect.default_options (idle_at 0)) in
  TypingEffect.shown s0 = "a"
  /\ TypingEffect.shown (TypingEffect.ticks 1 s0) = "ab"
  /\ TypingEffect.shown (TypingEffect.ticks 2 s0) = "a"
  /\ TypingEffect.shown (TypingEffect.ticks 3 s0) = ""
  /\ now (TypingEffect.timers (TypingEffect.ticks 3 s0)) = 2150.
Proof. vm_compute. repeat split. Qed.

Example multiline_ab_c :
  let s0 := final (MultiLine.new (Some [MultiLine.Foreign "<p/>"]) ["ab"; "c"]
                     (MultiLine.Options 10 20 true "|") (idle_at 0)) in
  MultiLine.elements s0 = ["a"; ""]
  /\ MultiLine.elements (MultiLine.ticks 1 s0) = ["ab"; ""]
  /\ MultiLine.elements (MultiLine.ticks 2 s0) = ["ab"; ""]
  /\ MultiLine.elements (MultiLine.ticks 3 s0) = ["ab"; "c|"]
  /\ MultiLine.elements (MultiLine.ticks 4 s0) = ["ab"; "c"]
  /\ pending (MultiLine.timers (MultiLine.ticks 4 s0)) <> []
  /\ pending (MultiLine.timers (MultiLine.ticks 5 s0)) = [].
Proof. vm_compute. repeat split. discriminate. Qed.

(** ** The scheduler *)

Section TimerFacts.
Context {A : Type}.
Implicit Types (k : sched A) (tm : timer A).

Lemma pop_idle k : pending k = [] -> pop k = None.
Proof. intros H. unfold pop. now rewrite H. Qed.

Lemma pop_single k tm :
  pending k = [tm] ->
  pop k = Some (tm, Sched (Z.max (now k) (due tm)) (next_id k) []).
Proof.
  intros H. unfold pop. rewrite H. cbn.
  now rewrite Z.eqb_refl.
Qed.

Lemma clear_single k tm :
  pending k = [tm] ->
  clearTimeout (Some (tid tm)) k = Sched (now k) (next_id k) [].
Proof.
  intros H. unfold clearTimeout. rewrite H. cbn.
  now rewrite Z.eqb_refl.
Qed.

Lemma clear_idle h k : pending k = [] -> clearTimeout h k = k.
Proof.
  intros H. destruct h as [i|]; [|reflexivity].
  unfold clearTimeout. rewrite H. destruct k; cbn in *. now subst.
Qed.

Lemma earliest_in (l : list (timer A)) tm : earliest l = Some tm -> In tm l.
Proof.
  revert tm. induction l as [|x r IH]; intros tm; cbn; [discriminate|].
  destruct (earliest r) as [y|].
  - destruct (due y <? due x); intros [= <-]; auto.
  - intros [= <-]. auto.
Qed.

Lemma earliest_none (l : list (timer A)) : earliest l = None -> l = [].
Proof.
  destruct l as [|x r]; [reflexivity|]. cbn.
  destruct (earliest r) as [y|]; [destruct (due y <? due x)|]; discriminate.
Qed.

Lemma filter_length_le (f : timer A -> bool) (l : list (timer A)) :
  (length (List.filter f l) <= length l)%nat.
Proof.
  induction l as [|x r IH]; cbn; [lia|]. destruct (f x); cbn; lia.
Qed.
End TimerFacts.

(** ** [throttle] *)

Section ThrottleFacts.
Context {Arg : Type}.
Variable limit : Z.
Implicit Types (s : Throttle.state (Arg := Arg)) (cs : list (Z * Arg)).

Lemma throttle_open_call a s :
  Throttle.inThrottle s = false ->
  pending (Throttle.timers s) = [] ->
  Throttle.calls_made (Throttle.call limit a s)
  = Throttle.calls_made s ++ [(now (Throttle.timers s), a)]
  /\ throttle_tracks limit (Some (now (Throttle.timers s)))
       (Throttle.call limit a s)
  /\ now (Throttle.timers (Throttle.call limit a s))
     = now (Throttle.timers s).
Proof.
  intros Hg Hp. unfold Throttle.call. rewrite Hg. cbn.
  split; [reflexivity|]. split; [|reflexivity].
  split; [lia|]. left. split; [reflexivity|].
  exists (next_id (Throttle.timers s)). now rewrite Hp.
Qed.

Lemma throttle_at_time_idle t s :
  pending (Throttle.timers s) = [] ->
  Throttle.at_time t s
  = Throttle.State (Throttle.inThrottle s)
      (tick_clock t (Throttle.timers s)) (Throttle.calls_made s).
Proof. intros Hp. unfold Throttle.at_time. now rewrite Hp. Qed.

Lemma throttle_at_time_waiting t s tm :
  pending (Throttle.timers s) = [tm] -> t < due tm ->
  Throttle.at_time t s
  = Throttle.State (Throttle.inThrottle s)
      (tick_clock t (Throttle.timers s)) (Throttle.calls_made s).
Proof.
  intros Hp Hlt. unfold Throttle.at_time. rewrite Hp. cbn.
  rewrite Hp. cbn. destruct (Z.leb_spec (due tm) t); [lia|]. reflexivity.
Qed.

Lemma throttle_at_time_due t s tm :
  pending (Throttle.timers s) = [tm] -> due tm <= t ->
  Throttle.at_time t s
  = Throttle.State false
      (Sched (Z.max (Z.max (now (Throttle.timers s)) (due tm)) t)
             (next_id (Throttle.timers s)) [])
      (Throttle.calls_made s).
Proof.
  intros Hp Hle. unfold Throttle.at_time. rewrite Hp. cbn.
  rewrite Hp. cbn. destruct (Z.leb_spec (due tm) t); [|lia].
  unfold Throttle.fire. rewrite (pop_single _ _ Hp). reflexivity.
Qed.

(** A call that finds the gate open. *)
Lemma throttle_step_open last t a s1 r :
  Throttle.inThrottle s1 = false ->
  pending (Throttle.timers s1) = [] ->
  now (Throttle.timers s1) = t ->
  match last with Some tl => tl + Z.max 0 limit <= t | None => True end ->
  let s' := Throttle.call limit a s1 in
  now (Throttle.timers s') = t
  /\ throttle_tracks limit (Some t) s'
  /\ Throttle.calls_made s1 ++ admitted limit last ((t, a) :: r)
     = Throttle.calls_made s' ++ admitted limit (Some t) r.
Proof.
  intros Hg Hp Hn Hlast.
  destruct (throttle_open_call a s1 Hg Hp) as (Hc & Htr & Hn').
  rewrite Hn in *. cbn zeta. split; [exact Hn'|]. split; [exact Htr|].
  rewrite Hc, <- app_assoc. f_equal. cbn [admitted fst].
  destruct last as [tl|]; [|reflexivity].
  destruct (Z.ltb_spec t (tl + Z.max 0 limit)); [lia|]. reflexivity.
Qed.

Lemma throttle_step last c s :
  throttle_tracks limit last s ->
  now (Throttle.timers s) <= fst c ->
  let s' := Throttle.call limit (snd c) (Throttle.at_time (fst c) s) in
  now (Throttle.timers s') = fst c
  /\ exists last',
      throttle_tracks limit last' s'
      /\ forall r,
          Throttle.calls_made s ++ admitted limit last (c :: r)
          = Throttle.calls_made s' ++ admitted limit last' r.
Proof.
  destruct c as [t a]. cbn [fst snd]. intros Ht Hle.
  assert (Hopen : forall s1,
    Throttle.inThrottle s1 = false ->
    pending (Throttle.timers s1) = [] ->
    now (Throttle.timers s1) = t ->
    Throttle.calls_made s1 = Throttle.calls_made s ->
    match last with Some tl => tl + Z.max 0 limit <= t | None => True end ->
    let s' := Throttle.call limit a s1 in
    now (Throttle.timers s') = t
    /\ exists last',
        throttle_tracks limit last' s'
        /\ forall r,
            Throttle.calls_made s ++ admitted limit last ((t, a) :: r)
            = Throttle.calls_made s' ++ admitted limit last' r).
  { intros s1 Hg Hp Hn Hc Hl. cbn zeta. split.
    - apply (throttle_step_open last t a s1 [] Hg Hp Hn Hl).
    - exists (Some t). split.
      + apply (throttle_step_open last t a s1 [] Hg Hp Hn Hl).
      + intros r. rewrite <- Hc.
        apply (throttle_step_open last t a s1 r Hg Hp Hn Hl). }
  destruct last as [tl|]; cbn [throttle_tracks] in Ht.
  - destruct Ht as [Htl [[Hg [i Hp]] | [Hg [Hp Hd]]]].
    + (* a cooldown is open *)
      destruct (Z.le_gt_cases (tl + Z.max 0 limit) t) as [Hdue|Hdue].
      * (* it ends before the call *)
        rewrite (throttle_at_time_due t s _ Hp Hdue).
        apply Hopen; cbn; try reflexivity; lia.
      * (* the call falls into it *)
        rewrite (throttle_at_time_waiting t s _ Hp); [|cbn; lia].
        cbn zeta. unfold Throttle.call. cbn [Throttle.inThrottle].
        rewrite Hg. cbn [negb]. cbn. split; [lia|].
        exists (Some tl). split.
        -- cbn. split; [lia|]. left. split; [reflexivity|]. now exists i.
        -- intros r. destruct (Z.ltb_spec t (tl + Z.max 0 limit)); [|lia].
           reflexivity.
    + (* the cooldown is over *)
      rewrite (throttle_at_time_idle _ _ Hp).
      apply Hopen; cbn; try assumption; try reflexivity; lia.
  - destruct Ht as [Hg Hp].
    rewrite (throttle_at_time_idle _ _ Hp).
    apply Hopen; cbn; try assumption; try reflexivity; lia.
Qed.

Lemma throttle_run_admitted cs : forall last s,
  throttle_tracks limit last s ->
  ascending (now (Throttle.timers s)) (cs.*1) ->
  Throttle.calls_made (Throttle.run limit cs s)
  = Throttle.calls_made s ++ admitted limit last cs.
Proof.
  induction cs as [|c r IH]; intros last s Ht Hasc.
  - cbn. now rewrite app_nil_r.
  - cbn in Hasc. destruct Hasc as [Hle Hasc].
    destruct (throttle_step last c s Ht Hle) as (Hn & last' & Ht' & Heq).
    cbn [Throttle.run fold_left].
    change (fold_left _ r ?x) with (Throttle.run limit r x).
    rewrite (IH last' _ Ht'); [now rewrite Heq|].
    now rewrite Hn.
Qed.
End ThrottleFacts.

Section AdmittedFacts.
Context {Arg : Type}.
Variable limit : Z.
Implicit Types (cs : list (Z * Arg)).

Lemma admitted_sublist cs : forall last, sublist (admitted limit last cs) cs.
Proof.
  induction cs as [|c r IH]; intros last; cbn; [constructor|].
  destruct last as [tl|].
  - destruct (fst c <? tl + Z.max 0 limit).
    + apply sublist_cons, IH.
    + apply sublist_skip, IH.
  - apply sublist_skip, IH.
Qed.

Lemma admitted_spaced cs : forall last,
  spaced limit ((admitted limit last cs).*1)
  /\ match last, (admitted limit last cs).*1 with
     | Some tl, u :: _ => tl + limit <= u
     | _, _ => True
     end.
Proof.
  induction cs as [|c r IH]; intros last; cbn [admitted].
  - cbn. destruct last; auto.
  - assert (Hkeep :
      spaced limit ((c :: admitted limit (Some (fst c)) r).*1)).
    { destruct (IH (Some (fst c))) as [Hs Hh]. cbn. split; [|exact Hs].
      destruct ((admitted limit (Some (fst c)) r).*1); [exact I|exact Hh]. }
    destruct last as [tl|].
    + destruct (Z.ltb_spec (fst c) (tl + Z.max 0 limit)).
      * exact (IH (Some tl)).
      * split; [exact Hkeep|]. cbn. lia.
    + split; [exact Hkeep|exact I].
Qed.
End AdmittedFacts.

(** C4. The throttle wrapper lets a call through exactly when no cooldown
    is open: the first call is made at once, at its own time; a call that
    finds the gate shut changes nothing (it is dropped, not queued); the
    calls that go through are the ones the contract admits, each at the
    time it was made, and two of them are never less than [limit] apart. *)
Theorem throttle_contract {Arg : Type} (limit t0 : Z) (cs : list (Z * Arg)) :
  ascending t0 (cs.*1) ->
  let s := Throttle.run limit cs (Throttle.init t0) in
  Throttle.calls_made s = admitted limit None cs
  /\ sublist (Throttle.calls_made s) cs
  /\ spaced limit ((Throttle.calls_made s).*1)
  /\ (forall c r, cs = c :: r -> exists l, Throttle.calls_made s = c :: l)
  /\ (forall a (s1 : Throttle.state (Arg := Arg)),
        Throttle.inThrottle s1 = true -> Throttle.call limit a s1 = s1)
  /\ (forall a (s1 : Throttle.state (Arg := Arg)),
        Throttle.inThrottle s1 = false ->
        Throttle.calls_made (Throttle.call limit a s1)
        = Throttle.calls_made s1 ++ [(now (Throttle.timers s1), a)]
        /\ Throttle.inThrottle (Throttle.call limit a s1) = true).
Proof.
  intros Hasc s.
  assert (Hrun : Throttle.calls_made s = admitted limit None cs).
  { subst s.
    rewrite (throttle_run_admitted limit cs None (Throttle.init t0));
      [reflexivity| split; reflexivity | exact Hasc]. }
  split; [exact Hrun|]. rewrite Hrun.
  split; [apply admitted_sublist|].
  split; [apply admitted_spaced|].
  split.
  { intros c r ->. cbn. eauto. }
  split.
  - intros a s1 Hg. unfold Throttle.call. now rewrite Hg.
  - intros a s1 Hg. unfold Throttle.call. now rewrite Hg.
Qed.

(** The calls at 0, 10 and 60 with a limit of 50: the wrapped function runs
    at 0 and at 60, the call at 10 is lost. *)
Lemma throttle_contract_witness :
  Throttle.calls_made
    (Throttle.run 50 [(0, "first"); (10, "second"); (60, "third")]
       (Throttle.init 0))
  = [(0, "first"); (60, "third")].
Proof.
  pose proof (throttle_contract 50 0
                [(0, "first"); (10, "second"); (60, "third")]) as H.
  cbn zeta in H. destruct H as [H _].
  - cbn. lia.
  - rewrite H. vm_compute. reflexivity.
Defined.

(** ** [debounce] *)

Section DebounceFacts.
Context {Arg : Type}.
Variable wait : Z.
Variable immediate : bool.
Implicit Types (s : Debounce.state (Arg := Arg)) (cs : list (Z * Arg)).

(** Whatever was pending, a call leaves exactly its own timer. *)
Lemma debounce_call_replaces a s :
  debounce_tracks s ->
  pending (Debounce.timers (Debounce.call wait immediate a s))
  = [Timer (next_id (Debounce.timers s))
           (now (Debounce.timers s) + Z.max 0 wait) a]
  /\ Debounce.timeout (Debounce.call wait immediate a s)
     = Some (next_id (Debounce.timers s))
  /\ now (Debounce.timers (Debounce.call wait immediate a s))
     = now (Debounce.timers s).
Proof.
  intros [Hp | (tm & Hp & Hh)]; unfold Debounce.call.
  - rewrite (clear_idle _ _ Hp). cbn. now rewrite Hp.
  - rewrite Hh, (clear_single _ _ Hp). cbn. auto.
Qed.

Lemma debounce_call_tracks a s :
  debounce_tracks s -> debounce_tracks (Debounce.call wait immediate a s).
Proof.
  intros Ht. destruct (debounce_call_replaces a s Ht) as (Hp & Hh & _).
  right. eexists. split; [exact Hp|]. now rewrite Hh.
Qed.

Lemma debounce_at_time_idle t s :
  pending (Debounce.timers s) = [] ->
  Debounce.at_time immediate t s
  = Debounce.State (Debounce.timeout s)
      (tick_clock t (Debounce.timers s)) (Debounce.calls_made s).
Proof. intros Hp. unfold Debounce.at_time. now rewrite Hp. Qed.

Lemma debounce_at_time_waiting t s tm :
  pending (Debounce.timers s) = [tm] -> t < due tm ->
  Debounce.at_time immediate t s
  = Debounce.State (Debounce.timeout s)
      (tick_clock t (Debounce.timers s)) (Debounce.calls_made s).
Proof.
  intros Hp Hlt. unfold Debounce.at_time. rewrite Hp. cbn.
  rewrite Hp. cbn. destruct (Z.leb_spec (due tm) t); [lia|]. reflexivity.
Qed.

Lemma debounce_fire_single s tm :
  pending (Debounce.timers s) = [tm] ->
  Debounce.fire immediate s
  = Some (Debounce.State None
            (Sched (Z.max (now (Debounce.timers s)) (due tm))
                   (next_id (Debounce.timers s)) [])
            (if negb immediate
             then Debounce.calls_made s
                  ++ [(Z.max (now (Debounce.timers s)) (due tm), cb tm)]
             else Debounce.calls_made s)).
Proof.
  intros Hp. unfold Debounce.fire. now rewrite (pop_single _ _ Hp).
Qed.

Lemma debounce_at_time_tracks t s :
  debounce_tracks s -> debounce_tracks (Debounce.at_time immediate t s).
Proof.
  intros [Hp | (tm & Hp & Hh)].
  - rewrite (debounce_at_time_idle _ _ Hp). now left.
  - destruct (Z.le_gt_cases (due tm) t) as [Hd|Hd].
    + unfold Debounce.at_time. rewrite Hp. cbn. rewrite Hp. cbn.
      destruct (Z.leb_spec (due tm) t); [|lia].
      rewrite (debounce_fire_single _ _ Hp). now left.
    + rewrite (debounce_at_time_waiting _ _ _ Hp Hd).
      right. exists tm. now split.
Qed.

Lemma debounce_reachable_tracks s :
  debounce_reachable wait immediate s -> debounce_tracks s.
Proof.
  induction 1 as [t0 | t s _ IH | a s _ IH].
  - now left.
  - now apply debounce_at_time_tracks.
  - now apply debounce_call_tracks.
Qed.
End DebounceFacts.

Lemma last_default_irrelevant {T : Type} (l : list T) (c d d' : T) :
  List.last (c :: l) d = List.last (c :: l) d'.
Proof.
  revert c. induction l as [|x r IH]; intros c; [reflexivity|].
  change (List.last (x :: r) d = List.last (x :: r) d'). apply IH.
Qed.

Section DebounceBurst.
Context {Arg : Type}.
Variable wait : Z.
Hypothesis wait_nonneg : 0 <= wait.
Implicit Types (s : Debounce.state (Arg := Arg)) (cs : list (Z * Arg)).

Lemma debounce_first_call a s :
  debounce_tracks s ->
  debounce_waiting wait (now (Debounce.timers s)) a
    (Debounce.call wait false a s)
  /\ Debounce.calls_made (Debounce.call wait false a s)
     = Debounce.calls_made s.
Proof.
  intros Ht. destruct (debounce_call_replaces wait false a s Ht)
    as (Hp & Hh & Hn).
  split; [|reflexivity]. split; [exact Hn|].
  exists (next_id (Debounce.timers s)). split; [|exact Hh].
  rewrite Hp. now rewrite Z.max_r.
Qed.

Lemma debounce_burst_run cs : forall s t a,
  debounce_waiting wait t a s ->
  ascending t (cs.*1) ->
  burst wait (t :: cs.*1) ->
  let s' := Debounce.run wait false cs s in
  Debounce.calls_made s' = Debounce.calls_made s
  /\ debounce_waiting wait (List.last cs (t, a)).1 (List.last cs (t, a)).2 s'.
Proof.
  induction cs as [|[t1 a1] r IH]; intros s t a Hw Hasc Hb; cbn zeta.
  - cbn. split; [reflexivity|exact Hw].
  - cbn in Hasc, Hb. destruct Hasc as [Hle Hasc]. destruct Hb as [Hlt Hb].
    destruct Hw as (Hn & i & Hp & Hh).
    cbn [Debounce.run fold_left fst snd].
    change (fold_left _ r ?x) with (Debounce.run wait false r x).
    set (s1 := Debounce.at_time false t1 s).
    assert (Hs1 : s1 = Debounce.State (Debounce.timeout s)
               (tick_clock t1 (Debounce.timers s)) (Debounce.calls_made s)).
    { subst s1. apply (debounce_at_time_waiting false t1 s _ Hp). cbn. lia. }
    assert (Ht1 : debounce_tracks s1).
    { rewrite Hs1. right. eexists. cbn. split; [exact Hp|exact Hh]. }
    destruct (debounce_first_call a1 s1 Ht1) as (Hw1 & Hc1).
    assert (Hn1 : now (Debounce.timers s1) = t1)
      by (rewrite Hs1; cbn; lia).
    rewrite Hn1 in Hw1.
    destruct (IH _ t1 a1 Hw1 Hasc) as (Hc & Hw').
    { cbn. exact Hb. }
    split.
    + rewrite Hc, Hc1, Hs1. reflexivity.
    + destruct r as [|c r']; [exact Hw'|].
      change (List.last ((t1, a1) :: c :: r') (t, a))
        with (List.last (c :: r') (t, a)).
      rewrite (last_default_irrelevant r' c (t, a) (t1, a1)). exact Hw'.
Qed.

Lemma debounce_settle_waiting t a s :
  debounce_waiting wait t a s ->
  Debounce.calls_made (Debounce.settle false s)
  = Debounce.calls_made s ++ [(t + wait, a)].
Proof.
  intros (Hn & i & Hp & Hh). unfold Debounce.settle. rewrite Hp.
  cbn [length Debounce.drain]. rewrite (debounce_fire_single _ _ _ Hp).
  cbn. rewrite Hn. f_equal. f_equal. f_equal. lia.
Qed.
End DebounceBurst.

(** C5. A debounce wrapper without [immediate]: every call leaves exactly
    one pending timer, its own, due [wait] later and carrying its
    arguments (what was pending is cancelled); so a burst of calls, each
    less than [wait] after the one before, makes the wrapped function run
    once, [wait] after the last call and with that call's arguments, and
    not before. *)
Theorem debounce_burst_once {Arg : Type} (wait t0 : Z)
    (cs : list (Z * Arg)) (tl : Z) (al : Arg) :
  0 <= wait ->
  ascending t0 ((cs ++ [(tl, al)]).*1) ->
  burst wait ((cs ++ [(tl, al)]).*1) ->
  let s := Debounce.run wait false (cs ++ [(tl, al)]) (Debounce.init t0) in
  Debounce.calls_made s = []
  /\ Debounce.calls_made (Debounce.settle false s) = [(tl + wait, al)]
  /\ (forall a (s1 : Debounce.state (Arg := Arg)),
        debounce_reachable wait false s1 ->
        pending (Debounce.timers (Debounce.call wait false a s1))
        = [Timer (next_id (Debounce.timers s1))
                 (now (Debounce.timers s1) + wait) a]
        /\ Debounce.calls_made (Debounce.call wait false a s1)
           = Debounce.calls_made s1).
Proof.
  intros Hw Hasc Hb s.
  assert (Hone : forall a (s1 : Debounce.state (Arg := Arg)),
            debounce_tracks s1 ->
            debounce_waiting wait (now (Debounce.timers s1)) a
              (Debounce.call wait false a s1)
            /\ Debounce.calls_made (Debounce.call wait false a s1)
               = Debounce.calls_made s1)
    by (intros; now apply debounce_first_call).
  assert (Hrun : Debounce.calls_made s = []
                 /\ debounce_waiting wait tl al s).
  { subst s. destruct (cs ++ [(tl, al)]) as [|[t1 a1] r] eqn:E.
    { destruct cs; discriminate. }
    cbn in Hasc. destruct Hasc as [Hle Hasc].
    cbn [Debounce.run fold_left fst snd].
    change (fold_left _ r ?x) with (Debounce.run wait false r x).
    rewrite (debounce_at_time_idle false t1 (Debounce.init t0) eq_refl).
    set (s1 := Debounce.State _ _ _).
    destruct (Hone a1 s1) as (Hw1 & Hc1); [now left|].
    assert (Hn1 : now (Debounce.timers s1) = t1) by (subst s1; cbn; lia).
    rewrite Hn1 in Hw1.
    destruct (debounce_burst_run wait Hw r _ t1 a1 Hw1 Hasc Hb) as (Hc & Hl).
    assert (Hlast : List.last r (t1, a1) = (tl, al)).
    { destruct cs as [|c cs'].
      - cbn in E. now injection E as <- <- <-.
      - cbn in E. injection E as -> <-. apply last_last. }
    rewrite Hlast in Hl. split; [|exact Hl].
    rewrite Hc, Hc1. reflexivity. }
  destruct Hrun as [Hc Hwl]. split; [exact Hc|]. split.
  - rewrite (debounce_settle_waiting wait Hw tl al s Hwl), Hc. reflexivity.
  - intros a s1 Hr.
    pose proof (debounce_reachable_tracks wait false s1 Hr) as Ht.
    destruct (debounce_call_replaces wait false a s1 Ht) as (Hp & _ & _).
    rewrite Hp, Z.max_r by lia. split; reflexivity.
Qed.

(** The calls at 0, 10 and 20 with a wait of 50: one run of the wrapped
    function, at 70, with the arguments of the call at 20. *)
Lemma debounce_burst_once_witness :
  Debounce.calls_made
    (Debounce.settle false
       (Debounce.run 50 false [(0, "first"); (10, "second"); (20, "third")]
          (Debounce.init 0)))
  = [(70, "third")].
Proof.
  pose proof (debounce_burst_once 50 0 [(0, "first"); (10, "second")]
                20 "third") as H.
  cbn zeta in H. destruct H as (_ & H & _).
  - lia.
  - cbn. lia.
  - cbn. lia.
  - exact H.
Defined.

(** ** [TypingEffect] *)

Section TypingFacts.
Import TypingEffect.
Implicit Types (s : state).

(** What one call of [type] can do to the instance: it changes the
    position and the sink at most, and either leaves the timers alone or
    registers one (cancelling nothing) and keeps its handle. *)
Lemma type_effect s :
  exists e ti ci d,
    final (type s)
    = State e (texts s) (opts s) ti ci d (isPaused s) (timeoutId s)
            (timers s)
    \/ exists delay,
        isPaused s = false
        /\ final (type s)
           = State e (texts s) (opts s) ti ci d false
               (Some (next_id (timers s)))
               (snd (setTimeout tt delay (timers s))).
Proof.
  unfold type. destruct s as [e tx o ti ci d p h k]. cbn.
  destruct p.
  { exists e, ti, ci, d. now left. }
  destruct (js_index tx ti) as [t|].
  2:{ exists e, ti, ci, d. now left. }
  unfold set_textContent, with_position, with_element, schedule, with_timer.
  cbn.
  destruct d; cbn;
    repeat match goal with
           | |- context [if ?b then _ else _] => destruct b
           end;
    cbn; eauto 10.
Qed.

Lemma paused_type s : isPaused s = true -> type s = Returned s.
Proof. intros H. unfold type. now rewrite H. Qed.

Lemma with_paused_same s : with_paused (isPaused s) s = s.
Proof. now destruct s. Qed.

Lemma stop_with_paused b s : stop (with_paused b s) = with_paused b (stop s).
Proof.
  unfold stop. cbn. destruct (truthy (timeoutId s)); reflexivity.
Qed.

Lemma stop_keeps s :
  element (stop s) = element s /\ texts (stop s) = texts s
  /\ opts (stop s) = opts s
  /\ currentTextIndex (stop s) = currentTextIndex s
  /\ currentCharIndex (stop s) = currentCharIndex s
  /\ isDeleting (stop s) = isDeleting s
  /\ isPaused (stop s) = isPaused s.
Proof. unfold stop. destruct (truthy (timeoutId s)); cbn; auto 10. Qed.

Lemma stop_stop s : stop (stop s) = stop s.
Proof.
  unfold stop. destruct (truthy (timeoutId s)) eqn:E; cbn.
  - reflexivity.
  - now rewrite E.
Qed.

(** The sink after a call of [type] on an active instance. *)
Lemma type_shows s e t :
  isPaused s = false ->
  element s = Some e ->
  js_index (texts s) (currentTextIndex s) = Some t ->
  shown (final (type s))
  = js_prefix (if isDeleting s then currentCharIndex s - 1
               else currentCharIndex s + 1) t.
Proof.
  intros Hp He Ht. unfold type. rewrite Hp, Ht.
  unfold set_textContent. cbn. rewrite He.
  destruct (isDeleting s); cbn;
    repeat match goal with
           | |- context [if ?b then _ else _] => destruct b
           end; reflexivity.
Qed.
End TypingFacts.

Section TypingTimers.
Import TypingEffect.
Implicit Types (s : state).

Lemma idle_tracks s :
  0 < next_id (timers s) -> pending (timers s) = [] -> typing_tracks s.
Proof. intros Hn Hp. split; [split; auto|auto]. Qed.

Lemma type_idle_tracks s :
  0 < next_id (timers s) -> pending (timers s) = [] ->
  typing_tracks (final (type s)).
Proof.
  intros Hn Hp.
  destruct (type_effect s) as (e & ti & ci & d & [H | (dl & Hq & H)]);
    rewrite H.
  - now apply idle_tracks.
  - split; [split|]; cbn.
    + lia.
    + right. eexists. rewrite Hp. cbn. split; [reflexivity|].
      split; [reflexivity|]. cbn. lia.
    + discriminate.
Qed.

Lemma stop_idle s :
  holds_its_timer (timeoutId s) (timers s) ->
  pending (timers (stop s)) = []
  /\ next_id (timers (stop s)) = next_id (timers s)
  /\ now (timers (stop s)) = now (timers s).
Proof.
  intros [Hn [Hp | (tm & Hp & Hh & Hz)]]; unfold stop.
  - destruct (truthy (timeoutId s)); cbn; [|auto].
    now rewrite (clear_idle _ _ Hp).
  - rewrite Hh. unfold truthy.
    destruct (Z.eqb_spec (tid tm) 0); [contradiction|].
    cbn [negb]. unfold with_timer. cbn [timers].
    rewrite (clear_single _ _ Hp). cbn. auto.
Qed.

Lemma set_textContent_timers txt s :
  timers (final (set_textContent txt s)) = timers s
  /\ timeoutId (final (set_textContent txt s)) = timeoutId s
  /\ isPaused (final (set_textContent txt s)) = isPaused s.
Proof. unfold set_textContent. destruct (element s); cbn; auto. Qed.

Lemma tick_tracks s o :
  typing_tracks s -> tick s = Some o -> typing_tracks (final o).
Proof.
  intros [[Hn [Hp | (tm & Hp & _)]] _]; unfold tick.
  - now rewrite (pop_idle _ Hp).
  - rewrite (pop_single _ _ Hp). intros [= <-].
    now apply type_idle_tracks.
Qed.

Lemma pause_tracks s : typing_tracks s -> typing_tracks (pause s).
Proof.
  intros [Ht _]. unfold pause.
  destruct (stop_idle (with_paused true s) Ht) as (Hp & Hn & _).
  apply idle_tracks; [|exact Hp]. rewrite Hn. apply Ht.
Qed.

Lemma reset_tracks s : typing_tracks s -> typing_tracks (final (reset s)).
Proof.
  intros [Ht _]. unfold reset.
  destruct (set_textContent_timers ""
              (with_paused false (with_position 0 0 false (stop s))))
    as (Hk & _ & _).
  destruct (stop_idle s Ht) as (Hp & Hn & _).
  apply idle_tracks; rewrite Hk; cbn; [|exact Hp].
  rewrite Hn. apply Ht.
Qed.

Lemma destroy_tracks s :
  typing_tracks s -> typing_tracks (final (destroy s)).
Proof.
  intros [Ht _]. unfold destroy.
  destruct (set_textContent_timers "" (stop s)) as (Hk & _ & _).
  destruct (stop_idle s Ht) as (Hp & Hn & _).
  apply idle_tracks; rewrite Hk; [|exact Hp].
  rewrite Hn. apply Ht.
Qed.

Lemma start_after_tracks (o : outcome state) :
  0 < next_id (timers (final o)) -> pending (timers (final o)) = [] ->
  typing_tracks (final (and_then o start)).
Proof.
  intros Hn Hp. destruct o as [s1|s1]; cbn in *.
  - now apply type_idle_tracks.
  - now apply idle_tracks.
Qed.

Lemma typing_driven_tracks s : typing_driven s -> typing_tracks s.
Proof.
  induction 1 as [el txts o t0 | s o _ IH Ho | s _ IH | s _ IH Hp
                 | s _ IH | txts s _ IH | s _ IH].
  - unfold new, init. cbn [element texts].
    destruct (_ || _).
    + now apply idle_tracks.
    + apply start_after_tracks;
        rewrite (proj1 (set_textContent_timers _ _)); cbn; [lia|reflexivity].
  - now apply (tick_tracks s).
  - now apply pause_tracks.
  - unfold resume, start. destruct IH as [[Hn _] Hq].
    apply type_idle_tracks; cbn; [exact Hn|now apply Hq].
  - now apply reset_tracks.
  - unfold changeTexts.
    assert (Ht : typing_tracks (with_texts (as_array txts) s)) by exact IH.
    apply reset_tracks in Ht. destruct Ht as [[Hn [Hp | (tm & Hp & _)]] _].
    + now apply start_after_tracks.
    + exfalso. revert Hp. unfold reset.
      rewrite (proj1 (set_textContent_timers _ _)). cbn.
      destruct IH as [IH _].
      now rewrite (proj1 (stop_idle (with_texts (as_array txts) s) IH)).
  - now apply destroy_tracks.
Qed.
End TypingTimers.

(** C10. A tick that comes while the instance is paused does nothing:
    [type] returns at once, so the text index, the character count, the
    direction, the sink and the stored handle stay as they are, no handle
    is issued and no timer is added. *)
Theorem paused_tick_is_noop (s : TypingEffect.state) :
  TypingEffect.isPaused s = true ->
  TypingEffect.type s = Returned s
  /\ forall o, TypingEffect.tick s = Some o ->
       exists s',
         o = Returned s'
         /\ TypingEffect.currentTextIndex s' = TypingEffect.currentTextIndex s
         /\ TypingEffect.currentCharIndex s' = TypingEffect.currentCharIndex s
         /\ TypingEffect.isDeleting s' = TypingEffect.isDeleting s
         /\ TypingEffect.element s' = TypingEffect.element s
         /\ TypingEffect.isPaused s' = true
         /\ TypingEffect.timeoutId s' = TypingEffect.timeoutId s
         /\ next_id (TypingEffect.timers s') = next_id (TypingEffect.timers s)
         /\ (length (pending (TypingEffect.timers s'))
             <= length (pending (TypingEffect.timers s)))%nat
         /\ forall tm, In tm (pending (TypingEffect.timers s')) ->
                       In tm (pending (TypingEffect.timers s)).
Proof.
  intros Hp. split; [now apply paused_type|].
  intros o. unfold TypingEffect.tick, pop.
  destruct (earliest (pending (TypingEffect.timers s))) as [tm|];
    [|discriminate].
  intros [= <-]. eexists. split.
  - apply paused_type. exact Hp.
  - cbn. repeat (split; [reflexivity || assumption|]). split.
    + apply filter_length_le.
    + intros u Hu. apply filter_In in Hu. apply Hu.
Qed.

Lemma paused_tick_is_noop_witness :
  let s := TypingEffect.pause
             (final (TypingEffect.new (Some "") (Many ["ab"])
                       TypingEffect.default_options (idle_at 0))) in
  TypingEffect.type s = Returned s.
Proof.
  intros s. apply (paused_tick_is_noop s). reflexivity.
Defined.

(** C8. A typewriter built with no texts (or lines), or without a sink,
    stays as the constructor's first lines left it: construction returns
    normally, no timer is registered, no sink is written, no line element
    is created, and on a host with nothing pending no tick ever comes. *)
Theorem degenerate_construction_is_inert
    (el : option string) (txts : texts_arg) (o : TypingEffect.options)
    (c : option (list MultiLine.node)) (ls : list string)
    (mo : MultiLine.options) (k : sched unit) :
  el = None \/ as_array txts = [] ->
  c = None \/ ls = [] ->
  TypingEffect.new el txts o k
  = Returned (TypingEffect.State el (as_array txts) o 0 0 false false None k)
  /\ MultiLine.new c ls mo k
     = Returned (MultiLine.State c ls mo 0 0 None [] k)
  /\ (pending k = [] ->
      forall n,
        TypingEffect.tick (final (TypingEffect.new el txts o k)) = None
        /\ TypingEffect.ticks n (final (TypingEffect.new el txts o k))
           = final (TypingEffect.new el txts o k)
        /\ MultiLine.tick (final (MultiLine.new c ls mo k)) = None
        /\ MultiLine.ticks n (final (MultiLine.new c ls mo k))
           = final (MultiLine.new c ls mo k)).
Proof.
  intros Ht Hm.
  assert (H1 : TypingEffect.new el txts o k
               = Returned (TypingEffect.State el (as_array txts) o 0 0 false
                             false None k)).
  { unfold TypingEffect.new, TypingEffect.init. cbn.
    destruct Ht as [-> | ->]; [reflexivity|].
    cbn. now rewrite orb_true_r. }
  assert (H2 : MultiLine.new c ls mo k
               = Returned (MultiLine.State c ls mo 0 0 None [] k)).
  { unfold MultiLine.new, MultiLine.init. cbn.
    destruct Hm as [-> | ->]; [reflexivity|].
    cbn. now rewrite orb_true_r. }
  split; [exact H1|]. split; [exact H2|].
  intros Hk n. rewrite H1, H2. cbn [final].
  assert (T1 : TypingEffect.tick
                 (TypingEffect.State el (as_array txts) o 0 0 false false
                    None k) = None)
    by (unfold TypingEffect.tick; cbn; now rewrite (pop_idle _ Hk)).
  assert (T2 : MultiLine.tick (MultiLine.State c ls mo 0 0 None [] k) = None)
    by (unfold MultiLine.tick; cbn; now rewrite (pop_idle _ Hk)).
  repeat split; try assumption.
  - destruct n; cbn; [reflexivity|]. now rewrite T1.
  - destruct n; cbn; [reflexivity|]. now rewrite T2.
Qed.

Lemma degenerate_construction_is_inert_witness :
  TypingEffect.new (Some "kept") (Many []) TypingEffect.default_options
    (idle_at 0)
  = Returned (TypingEffect.State (Some "kept") [] TypingEffect.default_options
                0 0 false false None (idle_at 0))
  /\ MultiLine.new None ["never typed"] MultiLine.default_options (idle_at 0)
     = Returned (MultiLine.State None ["never typed"]
                   MultiLine.default_options 0 0 None [] (idle_at 0)).
Proof.
  destruct (degenerate_construction_is_inert (Some "kept") (Many [])
              TypingEffect.default_options None ["never typed"]
              MultiLine.default_options (idle_at 0)) as (H1 & H2 & _).
  - right. reflexivity.
  - left. reflexivity.
  - split; [exact H1|exact H2].
Defined.

(** C1, as stated, fails: the page shows "a" when the typewriter for "ab"
    is paused right after construction, and "ab" as soon as [resume]
    returns, before any timer runs. *)
Lemma resume_shows_next_prefix :
  let s := final (TypingEffect.new (Some "") (Many ["ab"])
                    TypingEffect.default_options (idle_at 0)) in
  typing_driven s
  /\ TypingEffect.shown (TypingEffect.pause s) = "a"
  /\ TypingEffect.shown (final (TypingEffect.resume (TypingEffect.pause s)))
     = "ab"
  /\ TypingEffect.shown (final (TypingEffect.resume (TypingEffect.pause s)))
     <> TypingEffect.shown (TypingEffect.pause s).
Proof.
  cbn zeta. split; [constructor|].
  split; [vm_compute; reflexivity|].
  split; [vm_compute; reflexivity|].
  vm_compute. discriminate.
Qed.

(** C1, amended. [pause] leaves the text index, the character count, the
    direction and the sink as they are, sets the paused flag and, on an
    instance that holds its timer, leaves nothing pending. [resume] after
    it does not wait for a timer: it runs the tick that was cancelled at
    once, so the sink shows the next prefix of the current text (one
    character more when typing, one less when deleting). *)
Theorem pause_keeps_resume_steps (s : TypingEffect.state) (e t : string) :
  TypingEffect.isPaused s = false ->
  TypingEffect.element s = Some e ->
  js_index (TypingEffect.texts s) (TypingEffect.currentTextIndex s) = Some t ->
  let p := TypingEffect.pause s in
  TypingEffect.currentTextIndex p = TypingEffect.currentTextIndex s
  /\ TypingEffect.currentCharIndex p = TypingEffect.currentCharIndex s
  /\ TypingEffect.isDeleting p = TypingEffect.isDeleting s
  /\ TypingEffect.shown p = TypingEffect.shown s
  /\ TypingEffect.isPaused p = true
  /\ (typing_tracks s -> pending (TypingEffect.timers p) = [])
  /\ TypingEffect.resume p = TypingEffect.type (TypingEffect.stop s)
  /\ TypingEffect.shown (final (TypingEffect.resume p))
     = js_prefix (if TypingEffect.isDeleting s
                  then TypingEffect.currentCharIndex s - 1
                  else TypingEffect.currentCharIndex s + 1) t.
Proof.
  intros Hp He Ht p.
  assert (Hres : TypingEffect.resume p = TypingEffect.type (TypingEffect.stop s)).
  { subst p. unfold TypingEffect.resume, TypingEffect.start, TypingEffect.pause.
    rewrite stop_with_paused. f_equal.
    rewrite <- (with_paused_same (TypingEffect.stop s)) at 2.
    rewrite (proj2 (proj2 (proj2 (proj2 (proj2 (proj2
               (stop_keeps s))))))), Hp.
    now destruct (TypingEffect.stop s). }
  destruct (stop_keeps (TypingEffect.with_paused true s))
    as (K1 & K2 & K3 & K4 & K5 & K6 & K7).
  destruct (stop_keeps s) as (S1 & S2 & S3 & S4 & S5 & S6 & S7).
  subst p. unfold TypingEffect.pause in *.
  repeat split; try assumption.
  - unfold TypingEffect.shown. now rewrite K1.
  - intros [Hh _]. now apply (stop_idle (TypingEffect.with_paused true s)).
  - rewrite Hres.
    rewrite (type_shows (TypingEffect.stop s) e t).
    + now rewrite S5, S6.
    + now rewrite S7.
    + now rewrite S1.
    + now rewrite S2, S4.
Qed.

Lemma pause_keeps_resume_steps_witness :
  let s := final (TypingEffect.new (Some "") (Many ["ab"])
                    TypingEffect.default_options (idle_at 0)) in
  TypingEffect.currentCharIndex (TypingEffect.pause s) = 1
  /\ TypingEffect.shown (final (TypingEffect.resume (TypingEffect.pause s)))
     = "ab".
Proof.
  intros s.
  destruct (pause_keeps_resume_steps s "a" "ab")
    as (_ & H2 & _ & _ & _ & _ & _ & H8);
    [reflexivity | reflexivity | reflexivity |].
  split; [exact H2 | exact H8].
Defined.

(** C2, as stated, fails for [resume]: called on a running typewriter it
    types the next character at once and leaves two timers pending. *)
Lemma resume_on_active_ticks :
  let s := final (TypingEffect.new (Some "") (Many ["ab"])
                    TypingEffect.default_options (idle_at 0)) in
  TypingEffect.isPaused s = false
  /\ TypingEffect.shown s = "a"
  /\ length (pending (TypingEffect.timers s)) = 1%nat
  /\ TypingEffect.resume s <> Returned s
  /\ TypingEffect.shown (final (TypingEffect.resume s)) = "ab"
  /\ length (pending (TypingEffect.timers (final (TypingEffect.resume s))))
     = 2%nat.
Proof.
  cbn zeta. repeat split; try (vm_compute; reflexivity).
  intros H.
  apply (f_equal (fun o => TypingEffect.shown (final o))) in H.
  vm_compute in H. discriminate.
Qed.

(** C2, amended. [pause] is idempotent. [resume] has no guard: on an
    instance that is not paused it is one more call of [type], and the
    timers that were pending stay pending next to the one it adds. *)
Theorem pause_idempotent_resume_unguarded (s : TypingEffect.state) :
  TypingEffect.pause (TypingEffect.pause s) = TypingEffect.pause s
  /\ (TypingEffect.isPaused s = false ->
      TypingEffect.resume s = TypingEffect.type s)
  /\ (forall tm,
        In tm (pending (TypingEffect.timers s)) ->
        In tm (pending (TypingEffect.timers (final (TypingEffect.resume s))))).
Proof.
  split; [|split].
  - unfold TypingEffect.pause.
    rewrite !stop_with_paused, stop_stop. now destruct (TypingEffect.stop s).
  - intros Hp. unfold TypingEffect.resume, TypingEffect.start.
    rewrite <- Hp. now rewrite with_paused_same.
  - intros tm Hin. unfold TypingEffect.resume, TypingEffect.start.
    destruct (type_effect (TypingEffect.with_paused false s))
      as (e & ti & ci & d & [H | (dl & _ & H)]); rewrite H; cbn.
    + exact Hin.
    + apply in_or_app. now left.
Qed.

(** ** [MultiLineTypingEffect] *)

Lemma js_index_nat {T : Type} (l : list T) (i : nat) :
  js_index l (Z.of_nat i) = l !! i.
Proof.
  unfold js_index. destruct (Z.ltb_spec (Z.of_nat i) 0); [lia|].
  now rewrite Nat2Z.id.
Qed.

Section MultiLineFacts.
Import MultiLine.
Implicit Types (s : state).

(** What one call of [typeLine] can do to the instance: it changes the
    position and the line elements at most, and either leaves the timers
    alone or registers one (cancelling nothing) and keeps its handle. *)
Lemma typeLine_effect s :
  exists li ci els,
    final (typeLine s)
    = State (container s) (lines s) (opts s) li ci (timeoutId s) els
            (timers s)
    \/ exists delay,
        final (typeLine s)
        = State (container s) (lines s) (opts s) li ci
            (Some (next_id (timers s))) els
            (snd (setTimeout tt delay (timers s))).
Proof.
  unfold typeLine. destruct s as [c ls o li ci h els k]. cbn.
  destruct (_ <=? _); [cbn; eauto 10|].
  destruct (js_index ls li) as [line|]; [|cbn; eauto 10].
  unfold set_line, with_position, with_elements, schedule, with_timer. cbn.
  destruct (ci <? js_length line); cbn;
    destruct (js_index els li); cbn; eauto 10.
Qed.

Lemma typeLine_idle_tracks s :
  0 < next_id (timers s) -> pending (timers s) = [] ->
  multiline_tracks (final (typeLine s)).
Proof.
  intros Hn Hp.
  destruct (typeLine_effect s) as (li & ci & els & [H | (dl & H)]);
    rewrite H; split; cbn; try lia; auto.
  right. eexists. rewrite Hp. cbn. split; [reflexivity|].
  split; [reflexivity|]. cbn. lia.
Qed.

Lemma ml_stop_idle s :
  multiline_tracks s ->
  pending (timers (stop s)) = []
  /\ next_id (timers (stop s)) = next_id (timers s).
Proof.
  intros [Hn [Hp | (tm & Hp & Hh & Hz)]]; unfold stop.
  - destruct (truthy (timeoutId s)); cbn; [|auto].
    now rewrite (clear_idle _ _ Hp).
  - rewrite Hh. unfold truthy.
    destruct (Z.eqb_spec (tid tm) 0); [contradiction|].
    cbn [negb]. unfold with_timer. cbn [timers].
    rewrite (clear_single _ _ Hp). cbn. auto.
Qed.

Lemma ml_tick_tracks s o :
  multiline_tracks s -> tick s = Some o -> multiline_tracks (final o).
Proof.
  intros [Hn [Hp | (tm & Hp & _)]]; unfold tick.
  - now rewrite (pop_idle _ Hp).
  - rewrite (pop_single _ _ Hp). intros [= <-].
    now apply typeLine_idle_tracks.
Qed.

Lemma multiline_driven_tracks s : multiline_driven s -> multiline_tracks s.
Proof.
  induction 1 as [c ls o t0 | s o _ IH Ho | s _ IH | s _ IH].
  - unfold new, init. cbn [container lines].
    destruct (_ || _).
    + split; cbn; [lia|auto].
    + apply typeLine_idle_tracks; cbn; [lia|reflexivity].
  - now apply (ml_tick_tracks s).
  - destruct (ml_stop_idle s IH) as (Hp & Hn).
    split; cbn; [|now left]. rewrite Hn. apply IH.
  - destruct (ml_stop_idle s IH) as (Hp & Hn). unfold destroy.
    destruct (container (stop s)); split; cbn; try (now left);
      rewrite Hn; apply IH.
Qed.

(** The instance once every line is done. *)
Lemma typeLine_done s :
  Z.of_nat (length (lines s)) <= currentLineIndex s ->
  typeLine s = Returned s.
Proof.
  intros H. unfold typeLine.
  destruct (Z.leb_spec (Z.of_nat (length (lines s))) (currentLineIndex s));
    [reflexivity|lia].
Qed.

(** The tick that finds the current line fully typed. *)
Lemma typeLine_line_end s (i : nat) (line : string) :
  currentLineIndex s = Z.of_nat i ->
  lines s !! i = Some line ->
  js_length line <= currentCharIndex s ->
  is_Some (elements s !! i) ->
  typeLine s
  = Returned
      (schedule (lineDelay (opts s))
         (with_position (Z.of_nat i + 1) 0
            (with_elements (<[i := line]> (elements s)) s))).
Proof.
  intros Hi Hl Hc [x Hx]. unfold typeLine. rewrite Hi.
  pose proof (lookup_lt_Some _ _ _ Hl) as Hlt.
  destruct (Z.leb_spec (Z.of_nat (length (lines s))) (Z.of_nat i)); [lia|].
  rewrite js_index_nat, Hl.
  destruct (Z.ltb_spec (currentCharIndex s) (js_length line)); [lia|].
  unfold set_line. rewrite js_index_nat, Hx, Nat2Z.id. reflexivity.
Qed.

(** The tick that types one more character of the current line. *)
Lemma typeLine_next_char s (i : nat) (line : string) :
  currentLineIndex s = Z.of_nat i ->
  lines s !! i = Some line ->
  currentCharIndex s < js_length line ->
  is_Some (elements s !! i) ->
  typeLine s
  = Returned
      (schedule (typeSpeed (opts s))
         (with_position (Z.of_nat i) (currentCharIndex s + 1)
            (with_elements
               (<[i := if showCursor (opts s)
                          && (Z.of_nat i =? Z.of_nat (length (lines s)) - 1)
                       then js_prefix (currentCharIndex s + 1) line
                            +:+ cursorChar (opts s)
                       else js_prefix (currentCharIndex s + 1) line]>
                  (elements s)) s))).
Proof.
  intros Hi Hl Hc [x Hx]. unfold typeLine. rewrite Hi.
  pose proof (lookup_lt_Some _ _ _ Hl) as Hlt.
  destruct (Z.leb_spec (Z.of_nat (length (lines s))) (Z.of_nat i)); [lia|].
  rewrite js_index_nat, Hl.
  destruct (Z.ltb_spec (currentCharIndex s) (js_length line)); [|lia].
  unfold set_line. rewrite js_index_nat, Hx, Nat2Z.id. reflexivity.
Qed.
End MultiLineFacts.

(** C6, as stated, fails: once the last character of the only line "a" is
    on the page a timer is pending; the tick it brings registers one more
    timer, and only the tick after that one leaves nothing pending. *)
Lemma last_line_still_ticks :
  let s := final (MultiLine.new (Some []) ["a"] MultiLine.default_options
                    (idle_at 0)) in
  MultiLine.elements s = ["a|"]
  /\ length (pending (MultiLine.timers s)) = 1%nat
  /\ MultiLine.tick s <> None
  /\ next_id (MultiLine.timers (MultiLine.ticks 1 s))
     = next_id (MultiLine.timers s) + 1
  /\ length (pending (MultiLine.timers (MultiLine.ticks 1 s))) = 1%nat
  /\ MultiLine.tick (MultiLine.ticks 1 s) <> None
  /\ MultiLine.tick (MultiLine.ticks 2 s) = None.
Proof.
  cbn zeta. repeat split; try (vm_compute; reflexivity);
    vm_compute; discriminate.
Qed.

(** C6, amended. When the last line is fully typed the instance is two
    ticks away from rest. The next tick writes the bare line to its
    element, moves the line index to the number of lines and registers one
    more timer, due [lineDelay] later. The tick after that finds every line
    done and returns at once: it changes nothing and registers nothing.
    From then on nothing is pending and no tick runs. *)
Theorem last_line_then_two_ticks
    (s : MultiLine.state) (i : nat) (line : string) (tm : timer unit) :
  MultiLine.currentLineIndex s = Z.of_nat i ->
  (i + 1)%nat = length (MultiLine.lines s) ->
  MultiLine.lines s !! i = Some line ->
  MultiLine.currentCharIndex s = js_length line ->
  is_Some (MultiLine.elements s !! i) ->
  pending (MultiLine.timers s) = [tm] ->
  exists s1 s2 tm1,
    MultiLine.tick s = Some (Returned s1)
    /\ MultiLine.currentLineIndex s1 = Z.of_nat (length (MultiLine.lines s))
    /\ MultiLine.elements s1 = <[i := line]> (MultiLine.elements s)
    /\ pending (MultiLine.timers s1) = [tm1]
    /\ due tm1
       = Z.max (now (MultiLine.timers s)) (due tm)
         + Z.max 0 (MultiLine.lineDelay (MultiLine.opts s))
    /\ MultiLine.tick s1 = Some (Returned s2)
    /\ s2 = MultiLine.with_timer (MultiLine.timeoutId s1)
              (Sched (Z.max (now (MultiLine.timers s1)) (due tm1))
                     (next_id (MultiLine.timers s1)) []) s1
    /\ MultiLine.tick s2 = None
    /\ forall n, MultiLine.ticks n s2 = s2.
Proof.
  intros Hi Hlast Hl Hc He Hp.
  set (p := MultiLine.with_timer (MultiLine.timeoutId s)
              (Sched (Z.max (now (MultiLine.timers s)) (due tm))
                     (next_id (MultiLine.timers s)) []) s).
  assert (T1 : MultiLine.tick s = Some (MultiLine.typeLine p)).
  { unfold MultiLine.tick. now rewrite (pop_single _ _ Hp). }
  rewrite (typeLine_line_end p i line) in T1; try assumption;
    [|cbn; lia].
  set (s1 := MultiLine.schedule _ _) in T1.
  assert (Hp1 : pending (MultiLine.timers s1)
                = [Timer (next_id (MultiLine.timers s))
                     (Z.max (now (MultiLine.timers s)) (due tm)
                      + Z.max 0 (MultiLine.lineDelay (MultiLine.opts s)))
                     tt]) by reflexivity.
  set (s2 := MultiLine.with_timer (MultiLine.timeoutId s1)
               (Sched (Z.max (now (MultiLine.timers s1))
                         (Z.max (now (MultiLine.timers s)) (due tm)
                          + Z.max 0 (MultiLine.lineDelay (MultiLine.opts s))))
                      (next_id (MultiLine.timers s1)) []) s1).
  assert (T2 : MultiLine.tick s1 = Some (Returned s2)).
  { unfold MultiLine.tick. rewrite (pop_single _ _ Hp1). cbn [due].
    fold s2. rewrite (typeLine_done s2); [reflexivity|].
    subst s2 s1. cbn. lia. }
  assert (T3 : MultiLine.tick s2 = None).
  { unfold MultiLine.tick. now rewrite (pop_idle (MultiLine.timers s2)). }
  exists s1, s2, (Timer (next_id (MultiLine.timers s))
                    (Z.max (now (MultiLine.timers s)) (due tm)
                     + Z.max 0 (MultiLine.lineDelay (MultiLine.opts s))) tt).
  split; [exact T1|]. split; [subst s1; cbn; lia|].
  split; [reflexivity|]. split; [exact Hp1|]. split; [reflexivity|].
  split; [exact T2|]. split; [reflexivity|]. split; [exact T3|].
  intros n. destruct n; [reflexivity|].
  cbn [MultiLine.ticks]. now rewrite T3.
Qed.

Lemma last_line_then_two_ticks_witness :
  let s := final (MultiLine.new (Some []) ["a"] MultiLine.default_options
                    (idle_at 0)) in
  exists s1 s2,
    MultiLine.tick s = Some (Returned s1)
    /\ MultiLine.tick s1 = Some (Returned s2)
    /\ MultiLine.tick s2 = None.
Proof.
  intros s.
  destruct (last_line_then_two_ticks s 0 "a" (Timer 1 80 tt))
    as (s1 & s2 & tm1 & H1 & _ & _ & _ & _ & H2 & _ & H3 & _);
    try reflexivity.
  - exists "a|". reflexivity.
  - exists s1, s2. auto.
Defined.

(** C7, as stated, fails: with the cursor switched on, the element of the
    only line "a" shows "a|" while the line is being typed and just "a"
    once the line is complete. *)
Lemma cursor_removed_at_completion :
  let s := final (MultiLine.new (Some []) ["a"] MultiLine.default_options
                    (idle_at 0)) in
  MultiLine.showCursor (MultiLine.opts s) = true
  /\ MultiLine.elements s = ["a|"]
  /\ MultiLine.elements (MultiLine.ticks 1 s) = ["a"]
  /\ MultiLine.elements (MultiLine.ticks 2 s) = ["a"]
  /\ MultiLine.elements (MultiLine.ticks 2 s) <> ["a|"].
Proof.
  cbn zeta. repeat split; try (vm_compute; reflexivity).
  vm_compute. discriminate.
Qed.

(** C7, amended. With the cursor switched on, every character typed on
    the last line is written with the cursor character after it; the tick
    that finds the last line complete writes the line alone, so the cursor
    is removed and the final element holds exactly the line. *)
Theorem cursor_only_while_typing
    (s : MultiLine.state) (i : nat) (line : string) :
  MultiLine.showCursor (MultiLine.opts s) = true ->
  MultiLine.currentLineIndex s = Z.of_nat i ->
  (i + 1)%nat = length (MultiLine.lines s) ->
  MultiLine.lines s !! i = Some line ->
  is_Some (MultiLine.elements s !! i) ->
  (MultiLine.currentCharIndex s < js_length line ->
   MultiLine.elements (final (MultiLine.typeLine s)) !! i
   = Some (js_prefix (MultiLine.currentCharIndex s + 1) line
           +:+ MultiLine.cursorChar (MultiLine.opts s)))
  /\ (js_length line <= MultiLine.currentCharIndex s ->
      MultiLine.elements (final (MultiLine.typeLine s)) !! i = Some line
      /\ MultiLine.currentLineIndex (final (MultiLine.typeLine s))
         = Z.of_nat (length (MultiLine.lines s))).
Proof.
  intros Hcur Hi Hlast Hl He.
  assert (Hlen : (i < length (MultiLine.elements s))%nat).
  { destruct He as [x Hx]. exact (lookup_lt_Some _ _ _ Hx). }
  split; intros Hc.
  - rewrite (typeLine_next_char s i line Hi Hl Hc He). cbn.
    rewrite Hcur.
    destruct (Z.eqb_spec (Z.of_nat i)
                (Z.of_nat (length (MultiLine.lines s)) - 1)); [|lia].
    cbn. now apply list_lookup_insert_eq.
  - rewrite (typeLine_line_end s i line Hi Hl Hc He). cbn.
    split; [now apply list_lookup_insert_eq|lia].
Qed.

Lemma cursor_only_while_typing_witness :
  let s0 := final (MultiLine.new (Some []) ["a"] MultiLine.default_options
                     (idle_at 0)) in
  let s := MultiLine.with_timer (MultiLine.timeoutId s0) (Sched 80 2 []) s0 in
  MultiLine.elements (final (MultiLine.typeLine s)) !! 0%nat = Some "a".
Proof.
  intros s0 s.
  refine (proj1 (proj2 (cursor_only_while_typing s 0 "a"
                          eq_refl eq_refl eq_refl eq_refl _) _)).
  - exists "a|". reflexivity.
  - vm_compute. discriminate.
Defined.

(** ** One timer per instance *)

Lemma throttle_reachable_gate {Arg : Type} (limit : Z)
    (s : Throttle.state (Arg := Arg)) :
  throttle_reachable limit s -> throttle_gate s.
Proof.
  induction 1 as [t0 | t s _ IH | a s _ IH].
  - right. split; reflexivity.
  - destruct IH as [(Hg & tm & Hp) | (Hg & Hp)].
    + destruct (Z.le_gt_cases (due tm) t) as [Hd|Hd].
      * rewrite (throttle_at_time_due t s tm Hp Hd). right. split; reflexivity.
      * rewrite (throttle_at_time_waiting t s tm Hp Hd).
        left. split; [exact Hg|]. now exists tm.
    + rewrite (throttle_at_time_idle t s Hp). right. now split.
  - destruct IH as [(Hg & tm & Hp) | (Hg & Hp)]; unfold Throttle.call;
      rewrite Hg; cbn.
    + left. split; [exact Hg|]. now exists tm.
    + left. split; [reflexivity|]. rewrite Hp. cbn. eauto.
Qed.

Lemma holds_at_most_one (h : option Z) (k : sched unit) :
  holds_its_timer h k -> (length (pending k) <= 1)%nat.
Proof.
  intros [_ [-> | (tm & -> & _)]]; cbn; lia.
Qed.

(** C9, as stated, fails for the typewriter: [type] registers its timer
    without cancelling the one that is pending, so a [resume] on a running
    instance leaves two timers pending, and both of them run. *)
Lemma resume_leaves_two_timers :
  let s := final (TypingEffect.new (Some "") (Many ["abcd"])
                    TypingEffect.default_options (idle_at 0)) in
  let r := final (TypingEffect.resume s) in
  typing_reachable r
  /\ tid <$> pending (TypingEffect.timers r) = [1; 2]
  /\ TypingEffect.timeoutId r = Some 2
  /\ TypingEffect.shown r = "ab"
  /\ TypingEffect.shown (TypingEffect.ticks 1 r) = "abc"
  /\ TypingEffect.shown (TypingEffect.ticks 2 r) = "abcd"
  /\ now (TypingEffect.timers (TypingEffect.ticks 2 r)) = 100.
Proof.
  cbn zeta. split.
  - apply typr_resume, typr_driven, typ_new.
  - vm_compute. repeat split.
Qed.

(** C9, amended. A debounce wrapper names its one pending timer and every
    call cancels it before registering its own. A throttle wrapper never
    cancels, and registers a timer only while none is pending. A typewriter
    never cancels when it ticks either ([type] and [typeLine] keep whatever
    is pending); it holds at most one pending timer, named by [timeoutId],
    as long as it is driven by its constructor, its own ticks, [pause],
    [reset], [changeTexts], [destroy] and a [resume] that follows a
    [pause]. *)
Theorem one_pending_timer_when_driven :
  (forall (Arg : Type) (wait : Z) (immediate : bool)
          (s : Debounce.state (Arg := Arg)),
      debounce_reachable wait immediate s ->
      debounce_tracks s
      /\ (length (pending (Debounce.timers s)) <= 1)%nat
      /\ forall a,
          pending (Debounce.timers (Debounce.call wait immediate a s))
          = [Timer (next_id (Debounce.timers s))
                   (now (Debounce.timers s) + Z.max 0 wait) a])
  /\ (forall (Arg : Type) (limit : Z) (s : Throttle.state (Arg := Arg)),
        throttle_reachable limit s ->
        throttle_gate s
        /\ (length (pending (Throttle.timers s)) <= 1)%nat)
  /\ (forall s : TypingEffect.state,
        typing_driven s ->
        typing_tracks s
        /\ (length (pending (TypingEffect.timers s)) <= 1)%nat)
  /\ (forall s : MultiLine.state,
        multiline_driven s ->
        multiline_tracks s
        /\ (length (pending (MultiLine.timers s)) <= 1)%nat)
  /\ (forall (s : TypingEffect.state) tm,
        In tm (pending (TypingEffect.timers s)) ->
        In tm (pending (TypingEffect.timers (final (TypingEffect.type s)))))
  /\ (forall (s : MultiLine.state) tm,
        In tm (pending (MultiLine.timers s)) ->
        In tm (pending (MultiLine.timers (final (MultiLine.typeLine s))))).
Proof.
  repeat apply conj.
  - intros Arg wait immediate s Hr.
    pose proof (debounce_reachable_tracks wait immediate s Hr) as Ht.
    split; [exact Ht|]. split.
    + destruct Ht as [-> | (tm & -> & _)]; cbn; lia.
    + intros a. apply (debounce_call_replaces wait immediate a s Ht).
  - intros Arg limit s Hr.
    pose proof (throttle_reachable_gate limit s Hr) as Hg.
    split; [exact Hg|].
    destruct Hg as [(_ & tm & ->) | (_ & ->)]; cbn; lia.
  - intros s Hd. pose proof (typing_driven_tracks s Hd) as Ht.
    split; [exact Ht|]. apply (holds_at_most_one _ _ (proj1 Ht)).
  - intros s Hd. pose proof (multiline_driven_tracks s Hd) as Ht.
    split; [exact Ht|]. apply (holds_at_most_one _ _ Ht).
  - intros s tm Hin.
    destruct (type_effect s) as (e & ti & ci & d & [H | (dl & _ & H)]);
      rewrite H; cbn; [exact Hin|]. apply in_or_app. now left.
  - intros s tm Hin.
    destruct (typeLine_effect s) as (li & ci & els & [H | (dl & H)]);
      rewrite H; cbn; [exact Hin|]. apply in_or_app. now left.
Qed.

(** ** The single-text typewriter, tick by tick *)

Lemma js_prefix_full (t : string) : js_prefix (js_length t) t = t.
Proof.
  unfold js_prefix, js_length. rewrite Nat2Z.id.
  induction t as [|a t IH]; cbn; [reflexivity|]. now rewrite IH.
Qed.

Lemma js_prefix_zero (t : string) : js_prefix 0 t = "".
Proof. unfold js_prefix. now destruct t. Qed.

Lemma js_length_pos (t : string) : t <> "" -> 1 <= js_length t.
Proof. unfold js_length. destruct t; [congruence|cbn; lia]. Qed.

Section TypingSteps.
Import TypingEffect.
Implicit Types (s : state).

(** [type] in typing mode. *)
Lemma type_typing s t e :
  isPaused s = false ->
  js_index (texts s) (currentTextIndex s) = Some t ->
  isDeleting s = false ->
  element s = Some e ->
  let ci := currentCharIndex s + 1 in
  let full := ci =? js_length t in
  type s
  = Returned
      (schedule (if full then pauseTime (opts s) else typeSpeed (opts s))
         (with_element (Some (js_prefix ci t))
            (with_position (currentTextIndex s) ci full s))).
Proof.
  intros Hp Ht Hd He. cbn zeta. unfold type. rewrite Hp, Ht, Hd.
  cbn [negb]. unfold set_textContent.
  destruct (_ =? _); cbn [element with_position and_then]; rewrite He;
    reflexivity.
Qed.

(** [type] in deleting mode, away from the end of the text. *)
Lemma type_deleting s t e :
  isPaused s = false ->
  js_index (texts s) (currentTextIndex s) = Some t ->
  isDeleting s = true ->
  element s = Some e ->
  currentCharIndex s <> 1 ->
  type s
  = Returned
      (schedule (deleteSpeed (opts s))
         (with_element (Some (js_prefix (currentCharIndex s - 1) t))
            (with_position (currentTextIndex s) (currentCharIndex s - 1)
               true s))).
Proof.
  intros Hp Ht Hd He Hc. unfold type. rewrite Hp, Ht, Hd.
  cbn [negb]. unfold set_textContent.
  destruct (Z.eqb_spec (currentCharIndex s - 1) 0); [lia|].
  cbn [element with_position and_then]. now rewrite He.
Qed.

(** [type] when the last character goes and another text follows (or
    the list loops). *)
Lemma type_deleted_next s t e :
  isPaused s = false ->
  js_index (texts s) (currentTextIndex s) = Some t ->
  isDeleting s = true ->
  element s = Some e ->
  currentCharIndex s = 1 ->
  let ti := Z.rem (currentTextIndex s + 1) (Z.of_nat (length (texts s))) in
  loop (opts s) = true \/ ti <> 0 ->
  type s
  = Returned
      (schedule (typeSpeed (opts s))
         (with_element (Some "") (with_position ti 0 false s))).
Proof.
  intros Hp Ht Hd He Hc ti Hl. unfold type. rewrite Hp, Ht, Hd, Hc.
  cbn [negb]. change (1 - 1) with 0. rewrite js_prefix_zero.
  cbn [Z.eqb]. fold ti.
  assert (negb (loop (opts s)) && (ti =? 0) = false) as ->.
  { destruct Hl as [-> | Hne]; [reflexivity|].
    destruct (Z.eqb_spec ti 0); [contradiction|apply andb_false_r]. }
  unfold set_textContent. cbn [element with_position and_then].
  now rewrite He.
Qed.

(** [type] when the last character of the last text goes and the list
    does not loop: the sink is emptied and nothing is registered. *)
Lemma type_deleted_last s t e :
  isPaused s = false ->
  js_index (texts s) (currentTextIndex s) = Some t ->
  isDeleting s = true ->
  element s = Some e ->
  currentCharIndex s = 1 ->
  loop (opts s) = false ->
  Z.rem (currentTextIndex s + 1) (Z.of_nat (length (texts s))) = 0 ->
  type s = Returned (with_element (Some "") (with_position 0 0 false s)).
Proof.
  intros Hp Ht Hd He Hc Hl Hw. unfold type. rewrite Hp, Ht, Hd, Hc, Hw, Hl.
  cbn [negb]. change (1 - 1) with 0. rewrite js_prefix_zero.
  cbn [Z.eqb andb]. unfold set_textContent. cbn [element with_position].
  now rewrite He.
Qed.

(** A tick of a running instance is [type] on the instance with its
    timer taken off the queue. *)
Lemma tick_running s tm :
  pending (timers s) = [tm] ->
  tick s
  = Some (type (with_timer (timeoutId s)
                  (Sched (Z.max (now (timers s)) (due tm))
                         (next_id (timers s)) []) s)).
Proof. intros Hp. unfold tick. now rewrite (pop_single _ _ Hp). Qed.
End TypingSteps.

Section TypingRun.
Import TypingEffect.
Variable txts : list string.
Variable o : options.
Implicit Types (s : state) (i : nat) (c : Z).

Lemma tick_at_typing i c t s :
  typing_at txts o i c false s -> txts !! i = Some t ->
  exists s',
    tick s = Some (Returned s')
    /\ shown s' = js_prefix (c + 1) t
    /\ typing_at txts o i (c + 1) (c + 1 =? js_length t) s'.
Proof.
  intros H Ht. open_at H. rewrite (tick_running s tm Hq).
  erewrite type_typing with (t := t) (e := e); popped_fields;
    [|assumption|now rewrite Htx, Hi, js_index_nat|assumption|assumption].
  eexists. split; [reflexivity|]. rewrite Hc. split; [reflexivity|].
  repeat split; cbn; try assumption; eauto.
Qed.

Lemma tick_at_deleting i c t s :
  typing_at txts o i c true s -> txts !! i = Some t -> c <> 1 ->
  exists s',
    tick s = Some (Returned s')
    /\ shown s' = js_prefix (c - 1) t
    /\ typing_at txts o i (c - 1) true s'.
Proof.
  intros H Ht Hne. open_at H. rewrite (tick_running s tm Hq).
  erewrite type_deleting with (t := t) (e := e); popped_fields;
    [|assumption|now rewrite Htx, Hi, js_index_nat|assumption|assumption
     |now rewrite Hc].
  eexists. split; [reflexivity|]. rewrite Hc. split; [reflexivity|].
  repeat split; cbn; try assumption; eauto.
Qed.

Lemma tick_at_deleted_next i t s :
  typing_at txts o i 1 true s -> txts !! i = Some t ->
  (i + 1 < length txts)%nat ->
  exists s',
    tick s = Some (Returned s')
    /\ shown s' = ""
    /\ typing_at txts o (i + 1) 0 false s'.
Proof.
  intros H Ht Hlt. open_at H. rewrite (tick_running s tm Hq).
  assert (Hrem : Z.rem (Z.of_nat i + 1) (Z.of_nat (length txts))
                 = Z.of_nat (i + 1)).
  { rewrite Z.rem_small; lia. }
  erewrite type_deleted_next with (t := t) (e := e); popped_fields;
    [|assumption|now rewrite Htx, Hi, js_index_nat|assumption|assumption
     |assumption|rewrite Htx, Hi, Hrem; right; lia].
  eexists. split; [reflexivity|]. split; [reflexivity|].
  rewrite Htx, Hi, Hrem.
  repeat split; cbn; try assumption; eauto.
Qed.

Lemma tick_at_deleted_last i t s :
  typing_at txts o i 1 true s -> txts !! i = Some t ->
  (i + 1)%nat = length txts -> loop o = false ->
  exists s',
    tick s = Some (Returned s')
    /\ typing_stopped s'
    /\ next_id (timers s') = next_id (timers s)
    /\ tick s' = None.
Proof.
  intros H Ht Hlast Hl. open_at H. rewrite (tick_running s tm Hq).
  erewrite type_deleted_last with (t := t) (e := e); popped_fields;
    [|assumption|now rewrite Htx, Hi, js_index_nat|assumption|assumption
     |assumption|now rewrite Ho
     |rewrite Htx, Hi;
      replace (Z.of_nat i + 1) with (Z.of_nat (length txts)) by lia;
      apply Z.rem_same; lia].
  eexists. split; [reflexivity|]. split; [|split; [reflexivity|]].
  - repeat split; cbn; assumption.
  - unfold tick. cbn. reflexivity.
Qed.

(** Runs of ticks. *)
Lemma ticks_step s s' n :
  tick s = Some (Returned s') -> ticks (S n) s = ticks n s'.
Proof. intros H. cbn [ticks]. now rewrite H. Qed.

(** Typing the rest of text [i]. *)
Lemma typing_phase i t : forall (k : nat) c s,
  txts !! i = Some t ->
  typing_at txts o i c false s ->
  c + Z.of_nat (S k) = js_length t ->
  exists s',
    typing_at txts o i (js_length t) true s'
    /\ shown s' = t
    /\ forall n, ticks (S k + n) s = ticks n s'.
Proof.
  induction k as [|k IH]; intros c s Ht Hat Hlen.
  - destruct (tick_at_typing i c t s Hat Ht) as (s' & Hs & Hsh & Hat').
    assert (Hc : c + 1 = js_length t) by lia.
    rewrite Hc, Z.eqb_refl in *.
    exists s'. split; [exact Hat'|]. split.
    + now rewrite Hsh, js_prefix_full.
    + intros n. now apply ticks_step.
  - destruct (tick_at_typing i c t s Hat Ht) as (s1 & Hs & _ & Hat1).
    destruct (Z.eqb_spec (c + 1) (js_length t)) as [|_]; [lia|].
    destruct (IH (c + 1) s1 Ht Hat1) as (s' & Hat' & Hsh & Hrun); [lia|].
    exists s'. split; [exact Hat'|]. split; [exact Hsh|].
    intros n. rewrite <- Hrun. now apply ticks_step.
Qed.

(** Deleting text [i] down to its first character. *)
Lemma deleting_phase i t : forall (k : nat) c s,
  txts !! i = Some t ->
  typing_at txts o i c true s ->
  c = Z.of_nat k + 1 ->
  exists s',
    typing_at txts o i 1 true s'
    /\ forall n, ticks (k + n) s = ticks n s'.
Proof.
  induction k as [|k IH]; intros c s Ht Hat Hc.
  - exists s. subst c. split; [exact Hat|reflexivity].
  - destruct (tick_at_deleting i c t s Hat Ht) as (s1 & Hs & _ & Hat1);
      [lia|].
    destruct (IH (c - 1) s1 Ht Hat1) as (s' & Hat' & Hrun); [lia|].
    exists s'. split; [exact Hat'|].
    intros n. rewrite <- Hrun. now apply ticks_step.
Qed.

(** From a text fully typed to the moment its last character is about
    to go. *)
Lemma typed_to_last_char i t s :
  txts !! i = Some t -> t <> "" ->
  typing_at txts o i (js_length t) true s ->
  exists s',
    typing_at txts o i 1 true s'
    /\ forall n, ticks (String.length t - 1 + n) s = ticks n s'.
Proof.
  intros Ht Hne Hat. pose proof (js_length_pos t Hne) as Hpos.
  apply (deleting_phase i t (String.length t - 1) _ s Ht Hat).
  unfold js_length in *. lia.
Qed.

(** From the start of text [i] to the moment its last character is
    about to go. *)
Lemma cycle_to_last_char i t s :
  txts !! i = Some t -> t <> "" ->
  typing_at txts o i 0 false s ->
  exists s',
    typing_at txts o i 1 true s'
    /\ forall n,
        ticks (String.length t + (String.length t - 1) + n) s = ticks n s'.
Proof.
  intros Ht Hne Hat. pose proof (js_length_pos t Hne) as Hpos.
  destruct (typing_phase i t (String.length t - 1) 0 s Ht Hat)
    as (s1 & Hat1 & _ & Hrun1); [unfold js_length in *; lia|].
  destruct (typed_to_last_char i t s1 Ht Hne Hat1) as (s' & Hat' & Hrun2).
  exists s'. split; [exact Hat'|]. intros n.
  rewrite <- Hrun2, <- Hrun1. f_equal. unfold js_length in *. lia.
Qed.
End TypingRun.

Section TypingToTheEnd.
Import TypingEffect.
Variable txts : list string.
Variable o : options.
Hypothesis no_loop : loop o = false.
Hypothesis texts_not_empty : Forall (fun t => t <> "") txts.
Implicit Types (s : state) (i : nat).

(** From the last character of text [i] to rest, through the texts that
    follow. *)
Lemma from_last_char_to_stop : forall (rest : list string) i t s,
  txts !! i = Some t ->
  drop (S i) txts = rest ->
  typing_at txts o i 1 true s ->
  exists s',
    typing_stopped s'
    /\ tick s' = None
    /\ forall n, ticks (1 + 2 * total_length rest + n) s = ticks n s'.
Proof.
  induction rest as [|t' r IH]; intros i t s Ht Hdrop Hat.
  - assert (Hlast : (i + 1)%nat = length txts).
    { pose proof (lookup_lt_Some _ _ _ Ht).
      apply (f_equal length) in Hdrop. rewrite length_drop in Hdrop.
      cbn in Hdrop. lia. }
    destruct (tick_at_deleted_last txts o i t s Hat Ht Hlast no_loop)
      as (s' & Hs & Hstop & _ & Hnone).
    exists s'. split; [exact Hstop|]. split; [exact Hnone|].
    intros n. cbn [total_length foldr Nat.mul Nat.add].
    now apply ticks_step.
  - assert (Ht' : txts !! (i + 1)%nat = Some t').
    { rewrite Nat.add_1_r, <- (Nat.add_0_r (S i)), <- lookup_drop, Hdrop.
      reflexivity. }
    pose proof (lookup_lt_Some _ _ _ Ht') as Hlt.
    assert (Hne : t' <> "").
    { rewrite Forall_forall in texts_not_empty. apply texts_not_empty.
      apply list_elem_of_lookup. eauto. }
    destruct (tick_at_deleted_next txts o i t s Hat Ht Hlt)
      as (s1 & Hs1 & _ & Hat1).
    destruct (cycle_to_last_char txts o (i + 1) t' s1 Ht' Hne Hat1)
      as (s2 & Hat2 & Hrun2).
    destruct (IH (i + 1)%nat t' s2 Ht') as (s' & Hstop & Hnone & Hrun);
      [|exact Hat2|].
    { replace (S i) with (i + 1)%nat in Hdrop by lia.
      rewrite (drop_S _ _ _ Ht') in Hdrop. congruence. }
    exists s'. split; [exact Hstop|]. split; [exact Hnone|].
    intros n. rewrite <- Hrun, <- Hrun2.
    rewrite <- (ticks_step s s1 _ Hs1). f_equal.
    pose proof (js_length_pos t' Hne). unfold js_length in *.
    cbn [total_length foldr]. fold (total_length r). lia.
Qed.

(** The first text, which the constructor has already started. *)
Lemma first_text_to_last_char t s :
  txts !! 0%nat = Some t -> t <> "" ->
  typing_at txts o 0 1 (1 =? js_length t) s ->
  exists s',
    typing_at txts o 0 1 true s'
    /\ forall n, ticks (2 * (String.length t - 1) + n) s = ticks n s'.
Proof.
  intros Ht Hne Hat. pose proof (js_length_pos t Hne) as Hpos.
  destruct (Z.eqb_spec 1 (js_length t)) as [H1|H1].
  - exists s. split; [exact Hat|]. intros n. f_equal.
    unfold js_length in *. lia.
  - destruct (typing_phase txts o 0 t (String.length t - 2) 1 s Ht Hat)
      as (s1 & Hat1 & _ & Hrun1); [unfold js_length in *; lia|].
    destruct (typed_to_last_char txts o 0 t s1 Ht Hne Hat1)
      as (s' & Hat' & Hrun2).
    exists s'. split; [exact Hat'|]. intros n.
    rewrite <- Hrun2, <- Hrun1. f_equal. unfold js_length in *. lia.
Qed.

(** What the constructor leaves behind. *)
Lemma new_starts_typing e0 t k :
  txts !! 0%nat = Some t -> pending k = [] ->
  typing_at txts o 0 1 (1 =? js_length t)
    (final (new (Some e0) (Many txts) o k)).
Proof.
  intros Ht Hk. unfold new, init, start.
  cbn [element texts as_array]. rewrite bool_decide_true by eauto.
  pose proof (lookup_lt_Some _ _ _ Ht) as Hlen.
  destruct (Z.eqb_spec (Z.of_nat (length txts)) 0) as [|_]; [lia|].
  cbn [negb orb and_then set_textContent element].
  erewrite type_typing with (t := t) (e := "");
    [|reflexivity|exact (eq_trans (js_index_nat txts 0) Ht)
     |reflexivity|reflexivity].
  change (0 + 1) with 1.
  repeat split; try reflexivity.
  - eexists. reflexivity.
  - unfold schedule, setTimeout, with_timer.
    cbn [timers with_element with_position pending snd]. rewrite Hk.
    eexists. reflexivity.
Qed.

Lemma run_to_stop e0 k :
  txts <> [] -> pending k = [] ->
  exists s',
    typing_stopped s'
    /\ tick s' = None
    /\ forall n,
        ticks (2 * total_length txts - 1 + n)
          (final (new (Some e0) (Many txts) o k))
        = ticks n s'.
Proof.
  intros Hne Hk.
  assert (E : exists t rest, txts = t :: rest).
  { clear -Hne. destruct txts; [congruence|eauto]. }
  destruct E as (t & rest & E).
  assert (Ht : txts !! 0%nat = Some t) by now rewrite E.
  assert (Htne : t <> "").
  { rewrite Forall_forall in texts_not_empty. apply texts_not_empty.
    apply list_elem_of_lookup. eauto. }
  pose proof (new_starts_typing e0 t k Ht Hk) as Hat.
  destruct (first_text_to_last_char t _ Ht Htne Hat) as (s1 & Hat1 & Hrun1).
  destruct (from_last_char_to_stop rest 0 t s1 Ht) as (s' & Hs & Hn & Hrun);
    [now rewrite E|exact Hat1|].
  exists s'. split; [exact Hs|]. split; [exact Hn|].
  intros n. rewrite <- Hrun, <- Hrun1. f_equal.
  pose proof (js_length_pos t Htne). unfold js_length in *.
  rewrite E. cbn [total_length foldr]. fold (total_length rest). lia.
Qed.
End TypingToTheEnd.

(** C3. With looping off, the tick that deletes the last character of the
    last text (the one after which the index would wrap to 0) empties the
    sink, puts the position back at the start and registers no timer. A
    typewriter built on an idle host over texts that all have characters
    gets there: after one tick per character typed and one per character
    deleted it is at rest with an empty sink, and no tick follows. *)
Theorem stops_after_last_cycle
    (txts : list string) (o : TypingEffect.options) (e0 : string)
    (k : sched unit) :
  txts <> [] ->
  TypingEffect.loop o = false ->
  (forall (s : TypingEffect.state) (t e : string),
      TypingEffect.texts s = txts ->
      TypingEffect.opts s = o ->
      TypingEffect.isPaused s = false ->
      TypingEffect.isDeleting s = true ->
      TypingEffect.currentCharIndex s = 1 ->
      TypingEffect.currentTextIndex s = Z.of_nat (length txts) - 1 ->
      js_index txts (TypingEffect.currentTextIndex s) = Some t ->
      TypingEffect.element s = Some e ->
      exists s',
        TypingEffect.type s = Returned s'
        /\ TypingEffect.shown s' = ""
        /\ TypingEffect.timers s' = TypingEffect.timers s
        /\ TypingEffect.timeoutId s' = TypingEffect.timeoutId s
        /\ TypingEffect.currentTextIndex s' = 0
        /\ TypingEffect.currentCharIndex s' = 0
        /\ TypingEffect.isDeleting s' = false)
  /\ (Forall (fun t => t <> "") txts ->
      pending k = [] ->
      let s' :=
        TypingEffect.ticks (2 * total_length txts - 1)
          (final (TypingEffect.new (Some e0) (Many txts) o k)) in
      typing_stopped s'
      /\ TypingEffect.tick s' = None
      /\ forall n, TypingEffect.ticks n s' = s').
Proof.
  intros Hne Hloop. split.
  - intros s t e Htx Ho Hp Hd Hc Hi Ht He.
    eexists. split.
    + apply (type_deleted_last s t e Hp); try assumption.
      * now rewrite Htx.
      * now rewrite Ho.
      * rewrite Htx, Hi.
        replace (Z.of_nat (length txts) - 1 + 1)
          with (Z.of_nat (length txts)) by lia.
        apply Z.rem_same. destruct txts; [congruence|cbn; lia].
    + cbn. repeat split.
  - intros Hall Hk s'.
    destruct (run_to_stop txts o Hloop Hall e0 k Hne Hk)
      as (s1 & Hs & Hn & Hrun).
    assert (E : s' = s1).
    { subst s'. specialize (Hrun 0%nat). rewrite Nat.add_0_r in Hrun.
      exact Hrun. }
    rewrite E. split; [exact Hs|]. split; [exact Hn|].
    intros n. destruct n; [reflexivity|].
    cbn [TypingEffect.ticks]. now rewrite Hn.
Qed.

Lemma stops_after_last_cycle_witness :
  let o := TypingEffect.Options 100 50 2000 false true "|" in
  let s := TypingEffect.ticks 5
             (final (TypingEffect.new (Some "") (Many ["ab"; "c"]) o
                       (idle_at 0))) in
  typing_stopped s /\ TypingEffect.tick s = None.
Proof.
  intros o s.
  destruct (stops_after_last_cycle ["ab"; "c"] o "" (idle_at 0)) as [_ H];
    [discriminate|reflexivity|].
  destruct H as (Hs & Hn & _);
    [repeat constructor; discriminate|reflexivity|].
  split; [exact Hs|exact Hn].
Defined.

(** A text without characters is never finished: the character count
    runs past its length, the sink stays empty and a timer is always
    pending. *)
Example empty_text_keeps_ticking :
  let o := TypingEffect.Options 100 50 2000 false true "|" in
  let s := TypingEffect.ticks 7
             (final (TypingEffect.new (Some "") (Many [""]) o (idle_at 0))) in
  TypingEffect.currentCharIndex s = 8
  /\ TypingEffect.isDeleting s = false
  /\ TypingEffect.shown s = ""
  /\ length (pending (TypingEffect.timers s)) = 1%nat.
Proof. vm_compute. repeat split. Qed.

(** * Further properties of the code *)

(** ** The single-text typewriter stays within its texts *)

Section TypingBounds.
Import TypingEffect.
Implicit Types (s : state).

Lemma js_index_some_range {T : Type} (l : list T) (i : Z) (x : T) :
  js_index l i = Some x -> 0 <= i < Z.of_nat (length l).
Proof.
  unfold js_index. destruct (Z.ltb_spec i 0); [discriminate|].
  intros H0. apply lookup_lt_Some in H0. lia.
Qed.

Lemma js_index_in_range {T : Type} (l : list T) (i : Z) :
  0 <= i < Z.of_nat (length l) -> exists x, js_index l i = Some x /\ x ∈ l.
Proof.
  intros Hi. unfold js_index. destruct (Z.ltb_spec i 0); [lia|].
  destruct (lookup_lt_is_Some_2 l (Z.to_nat i)) as [x Hx]; [lia|].
  exists x. split; [exact Hx|]. apply list_elem_of_lookup. eauto.
Qed.

Lemma set_textContent_keeps txt s :
  let s' := final (set_textContent txt s) in
  texts s' = texts s /\ opts s' = opts s
  /\ currentTextIndex s' = currentTextIndex s
  /\ currentCharIndex s' = currentCharIndex s
  /\ isDeleting s' = isDeleting s.
Proof. unfold set_textContent. destruct (element s); cbn; auto. Qed.

Lemma in_bounds_position s s' :
  texts s' = texts s ->
  currentTextIndex s' = currentTextIndex s ->
  currentCharIndex s' = currentCharIndex s ->
  isDeleting s' = isDeleting s ->
  in_bounds s -> in_bounds s'.
Proof.
  intros Ht Hi Hc Hd (t & Hx & Hb). exists t.
  rewrite Ht, Hi, Hc, Hd. auto.
Qed.

(** Writing the sink and registering a timer do not move the position. *)
Lemma in_bounds_written txt (d : option Z) s :
  in_bounds s ->
  in_bounds
    (final (and_then (set_textContent txt s)
              (fun s' =>
                 Returned (match d with
                           | Some delay => schedule delay s'
                           | None => s'
                           end)))).
Proof.
  intros H. unfold set_textContent.
  destruct (element s), d; cbn;
    (eapply in_bounds_position; [| | | |exact H]; reflexivity).
Qed.

Lemma in_bounds_start_of (l : list string) (i : Z) s :
  Forall (fun t => t <> "") l ->
  0 <= i < Z.of_nat (length l) ->
  texts s = l -> currentTextIndex s = i -> currentCharIndex s = 0 ->
  isDeleting s = false ->
  in_bounds s.
Proof.
  intros Hall Hi Ht Hidx Hc Hd.
  destruct (js_index_in_range l i Hi) as (t & Hx & Hin).
  exists t. rewrite Ht, Hidx, Hc, Hd. split; [exact Hx|].
  rewrite Forall_forall in Hall. pose proof (js_length_pos t (Hall t Hin)).
  lia.
Qed.

(** One call of [type] keeps the position within the texts. *)
Lemma type_in_bounds s :
  Forall (fun t => t <> "") (texts s) ->
  in_bounds s ->
  in_bounds (final (type s)) /\ texts (final (type s)) = texts s.
Proof.
  intros Hall Hb.
  assert (Htexts : texts (final (type s)) = texts s).
  { destruct (type_effect s) as (e & ti & ci & d & [H | (dl & _ & H)]);
      now rewrite H. }
  split; [|exact Htexts].
  destruct Hb as (t & Hx & Hb). unfold type.
  destruct (isPaused s) eqn:Hp; [now exists t|].
  rewrite Hx. pose proof (js_index_some_range _ _ _ Hx) as Hrange.
  destruct (isDeleting s) eqn:Hd; cbn [negb].
  - (* deleting *)
    destruct (Z.eqb_spec (currentCharIndex s - 1) 0) as [H0|H0].
    + assert (Hti : 0 <= Z.rem (currentTextIndex s + 1)
                            (Z.of_nat (length (texts s)))
                    < Z.of_nat (length (texts s)))
        by (apply Z.rem_bound_pos; lia).
      set (ti := Z.rem _ _) in *.
      assert (Hnext : in_bounds (with_position ti (currentCharIndex s - 1)
                                   false s)).
      { apply (in_bounds_start_of (texts s) ti); auto. }
      destruct (negb (loop (opts s)) && (ti =? 0)).
      * eapply in_bounds_position; [| | | |exact Hnext];
          apply set_textContent_keeps.
      * apply (in_bounds_written _ (Some (typeSpeed (opts s)))), Hnext.
    + apply (in_bounds_written _ (Some (deleteSpeed (opts s)))).
      exists t. cbn. split; [exact Hx|]. lia.
  - (* typing *)
    destruct (Z.eqb_spec (currentCharIndex s + 1) (js_length t)) as [H0|H0].
    + apply (in_bounds_written _ (Some (pauseTime (opts s)))).
      exists t. cbn. split; [exact Hx|]. lia.
    + apply (in_bounds_written _ (Some (typeSpeed (opts s)))).
      exists t. cbn. split; [exact Hx|]. lia.
Qed.

Lemma set_textContent_some txt s e :
  element s = Some e ->
  set_textContent txt s = Returned (with_element (Some txt) s).
Proof. intros He. unfold set_textContent. now rewrite He. Qed.

(** On an instance within its texts and with a sink, [type] returns. *)
Lemma type_returns s e :
  in_bounds s -> element s = Some e -> exists s', type s = Returned s'.
Proof.
  intros (t & Hx & _) He. unfold type.
  destruct (isPaused s); [eauto|]. rewrite Hx.
  destruct (negb (isDeleting s));
    repeat match goal with
           | |- context [if ?b then _ else _] => destruct b
           end;
    erewrite set_textContent_some by exact He; cbn; eauto.
Qed.

Lemma stop_in_bounds s : in_bounds s -> in_bounds (stop s).
Proof.
  intros H. destruct (stop_keeps s) as (_ & K2 & _ & K4 & K5 & K6 & _).
  now apply (in_bounds_position s).
Qed.

Lemma with_paused_in_bounds b s : in_bounds s -> in_bounds (with_paused b s).
Proof. intros H. now apply (in_bounds_position s). Qed.

Lemma reset_in_bounds s :
  proper_texts (texts s) ->
  in_bounds (final (reset s)) /\ texts (final (reset s)) = texts s.
Proof.
  intros [Hne Hall]. unfold reset.
  set (z := with_paused false (with_position 0 0 false (stop s))).
  assert (Htz : texts z = texts s).
  { subst z. cbn. apply stop_keeps. }
  destruct (set_textContent_keeps "" z) as (K1 & _ & K3 & K4 & K5).
  cbn zeta in *. split; [|congruence].
  apply (in_bounds_start_of (texts s) 0); try congruence;
    try (rewrite K3 || rewrite K4 || rewrite K5; reflexivity).
  destruct (texts s); [congruence|cbn; lia].
Qed.

Lemma typing_used_bounds s :
  typing_used s -> proper_texts (texts s) /\ in_bounds s.
Proof.
  induction 1 as [el txts o k Hp | s o _ [Hp Hb] Ho | s _ [Hp Hb]
                 | s _ [Hp Hb] | s _ [Hp Hb] | s _ [Hp Hb]
                 | txts s _ _ Hnew | s _ [Hp Hb]].
  - (* new *)
    unfold new, init. cbn [element texts].
    set (z := State el (as_array txts) o 0 0 false false None k).
    assert (Hz : in_bounds z).
    { apply (in_bounds_start_of (as_array txts) 0); try reflexivity;
        [apply Hp|]. destruct Hp as [Hne _].
      destruct (as_array txts); [congruence|cbn; lia]. }
    destruct (_ || _); [now split|].
    unfold set_textContent. destruct (element z) eqn:He; cbn [and_then final].
    + destruct (type_in_bounds (with_element (Some "") z)) as [Hb Ht];
        [apply Hp|now apply (in_bounds_position z)|].
      split; [|exact Hb]. unfold start. now rewrite Ht.
    + now split.
  - (* tick *)
    unfold tick in Ho. destruct (pop (timers s)) as [[tm k]|];
      [|discriminate]. injection Ho as <-.
    destruct (type_in_bounds (with_timer (timeoutId s) k s)) as [Hb' Ht];
      [exact (proj2 Hp)|now apply (in_bounds_position s)|].
    split; [|exact Hb']. now rewrite Ht.
  - (* start *)
    destruct (type_in_bounds s (proj2 Hp) Hb) as [Hb' Ht].
    split; [|exact Hb']. unfold start. now rewrite Ht.
  - (* pause *)
    unfold pause. split.
    + now rewrite (proj1 (proj2 (stop_keeps (with_paused true s)))).
    + now apply stop_in_bounds, with_paused_in_bounds.
  - (* resume *)
    destruct (type_in_bounds (with_paused false s) (proj2 Hp)) as [Hb' Ht];
      [now apply with_paused_in_bounds|].
    split; [|exact Hb']. unfold resume, start. now rewrite Ht.
  - (* reset *)
    destruct (reset_in_bounds s Hp) as [Hb' Ht]. split; [|exact Hb'].
    now rewrite Ht.
  - (* changeTexts *)
    unfold changeTexts.
    destruct (reset_in_bounds (with_texts (as_array txts) s) Hnew)
      as [Hb' Ht].
    destruct (reset (with_texts (as_array txts) s)) as [z|z];
      cbn [and_then final] in *.
    + destruct (type_in_bounds z) as [Hb'' Ht'];
        [rewrite Ht; apply Hnew|exact Hb'|].
      split; [|exact Hb'']. unfold start. now rewrite Ht', Ht.
    + split; [|exact Hb']. now rewrite Ht.
  - (* destroy *)
    unfold destroy.
    destruct (set_textContent_keeps "" (stop s)) as (K1 & _ & K3 & K4 & K5).
    cbn zeta in *. split.
    + rewrite K1. now rewrite (proj1 (proj2 (stop_keeps s))).
    + eapply in_bounds_position; [exact K1|exact K3|exact K4|exact K5|].
      now apply stop_in_bounds.
Qed.
End TypingBounds.

(** X1. Over proper texts (at least one, none empty) the position of a
    single-text typewriter is always valid, however its methods are
    called: the text index addresses a text and the character count is a
    prefix length of that text, at least one while deleting and below the
    length while typing. *)
Theorem typing_position_stays_valid (s : TypingEffect.state) :
  typing_used s ->
  exists t,
    TypingEffect.getCurrentText s = Some t
    /\ 0 <= TypingEffect.currentTextIndex s
          < Z.of_nat (length (TypingEffect.texts s))
    /\ 0 <= TypingEffect.currentCharIndex s <= js_length t
    /\ (TypingEffect.isDeleting s = true ->
        1 <= TypingEffect.currentCharIndex s)
    /\ (TypingEffect.isDeleting s = false ->
        TypingEffect.currentCharIndex s < js_length t).
Proof.
  intros Hu. destruct (typing_used_bounds s Hu) as [_ (t & Hx & Hb)].
  exists t. split; [exact Hx|].
  split; [exact (js_index_some_range _ _ _ Hx)|].
  destruct (TypingEffect.isDeleting s); repeat split; try lia;
    discriminate.
Qed.

Lemma typing_position_stays_valid_witness :
  let s := final (TypingEffect.resume
                    (final (TypingEffect.new (Some "") (Many ["ab"; "c"])
                              TypingEffect.default_options (idle_at 0)))) in
  exists t,
    TypingEffect.getCurrentText s = Some t
    /\ 0 <= TypingEffect.currentTextIndex s
          < Z.of_nat (length (TypingEffect.texts s))
    /\ 0 <= TypingEffect.currentCharIndex s <= js_length t
    /\ (TypingEffect.isDeleting s = true ->
        1 <= TypingEffect.currentCharIndex s)
    /\ (TypingEffect.isDeleting s = false ->
        TypingEffect.currentCharIndex s < js_length t).
Proof.
  intros s. apply typing_position_stays_valid.
  apply use_resume, use_new. split; [discriminate|].
  repeat constructor; discriminate.
Defined.

(** X2. A single-text typewriter that has a sink, over proper texts, never
    throws: whatever was called before, the next tick and the next call
    of [start], [resume], [reset], [destroy] or [changeTexts] (with proper
    texts) returns normally. *)
Theorem typing_with_sink_never_throws (s : TypingEffect.state) (e : string) :
  typing_used s ->
  TypingEffect.element s = Some e ->
  (forall o, TypingEffect.tick s = Some o -> exists s', o = Returned s')
  /\ (exists s', TypingEffect.start s = Returned s')
  /\ (exists s', TypingEffect.resume s = Returned s')
  /\ (exists s', TypingEffect.reset s = Returned s')
  /\ (exists s', TypingEffect.destroy s = Returned s')
  /\ (forall txts, proper_texts (as_array txts) ->
        exists s', TypingEffect.changeTexts txts s = Returned s').
Proof.
  intros Hu He. destruct (typing_used_bounds s Hu) as [Hp Hb].
  split; [|split; [|split; [|split; [|split]]]].
  - intros o. unfold TypingEffect.tick.
    destruct (pop (TypingEffect.timers s)) as [[tm k]|]; [|discriminate].
    intros [= <-].
    apply (type_returns _ e); [|exact He].
    now apply (in_bounds_position s).
  - now apply (type_returns s e).
  - apply (type_returns _ e); [|exact He].
    now apply with_paused_in_bounds.
  - unfold TypingEffect.reset.
    erewrite set_textContent_some; [eauto|].
    cbn. rewrite (proj1 (stop_keeps s)). exact He.
  - unfold TypingEffect.destroy.
    erewrite set_textContent_some; [eauto|].
    rewrite (proj1 (stop_keeps s)). exact He.
  - intros txts Hnew.
    pose proof (use_changeTexts txts s Hu Hnew) as Hu'.
    unfold TypingEffect.changeTexts in *.
    destruct (reset_in_bounds (TypingEffect.with_texts (as_array txts) s)
                Hnew) as [Hb' Ht].
    unfold TypingEffect.reset in *.
    erewrite set_textContent_some in *;
      try (cbn; rewrite (proj1 (stop_keeps _)); exact He).
    cbn [and_then final] in *.
    apply (type_returns _ ""); [exact Hb'|reflexivity].
Qed.

Lemma typing_with_sink_never_throws_witness :
  let s := TypingEffect.pause
             (final (TypingEffect.new (Some "") (Many ["ab"; "c"])
                       TypingEffect.default_options (idle_at 0))) in
  exists s', TypingEffect.resume s = Returned s'.
Proof.
  intros s.
  refine (proj1 (proj2 (proj2
            (typing_with_sink_never_throws s "a" _ eq_refl)))).
  apply use_pause, use_new.
  split; [discriminate|repeat constructor; discriminate].
Defined.

(** ** [reset], [changeTexts] and [destroy] *)

Section TypingControls.
Import TypingEffect.
Implicit Types (s : state).

(** The instance [reset] works on once the timer is cancelled and the
    fields are back at their first values. *)
Lemma reset_state s :
  typing_tracks s ->
  let z := with_paused false (with_position 0 0 false (stop s)) in
  pending (timers z) = []
  /\ 0 < next_id (timers z)
  /\ element z = element s /\ texts z = texts s /\ opts z = opts s.
Proof.
  intros [Ht _]. destruct (stop_idle s Ht) as (Hp & Hn & _).
  destruct (stop_keeps s) as (K1 & K2 & K3 & _).
  cbn. rewrite Hn. repeat split; try assumption. apply Ht.
Qed.

Lemma schedule_idle d s :
  pending (timers s) = [] ->
  pending (timers (schedule d s))
  = [Timer (next_id (timers s)) (now (timers s) + Z.max 0 d) tt]
  /\ timeoutId (schedule d s) = Some (next_id (timers s))
  /\ next_id (timers (schedule d s)) = next_id (timers s) + 1.
Proof. intros Hp. unfold schedule. cbn. now rewrite Hp. Qed.

Lemma tick_idle s : pending (timers s) = [] -> tick s = None.
Proof. intros Hp. unfold tick. now rewrite (pop_idle _ Hp). Qed.
End TypingControls.

(** X3. [reset] on a typewriter that holds its timer cancels the pending
    tick and puts text index, character count, direction and paused flag
    back to their first values; with a sink it empties it and returns,
    without one it throws after the fields are reset. It does not start
    the typewriter again: nothing is pending and no tick follows. *)
Theorem reset_returns_to_start_and_idles (s : TypingEffect.state) :
  typing_tracks s ->
  let s' := final (TypingEffect.reset s) in
  TypingEffect.currentTextIndex s' = 0
  /\ TypingEffect.currentCharIndex s' = 0
  /\ TypingEffect.isDeleting s' = false
  /\ TypingEffect.isPaused s' = false
  /\ TypingEffect.texts s' = TypingEffect.texts s
  /\ pending (TypingEffect.timers s') = []
  /\ TypingEffect.tick s' = None
  /\ (forall n, TypingEffect.ticks n s' = s')
  /\ (forall e, TypingEffect.element s = Some e ->
        TypingEffect.reset s = Returned s' /\ TypingEffect.shown s' = "")
  /\ (TypingEffect.element s = None -> TypingEffect.reset s = Threw s').
Proof.
  intros Ht s'. destruct (reset_state s Ht) as (Hp & _ & He & Htx & _).
  subst s'. unfold TypingEffect.reset.
  set (z := TypingEffect.with_paused false _) in *.
  assert (Hcases :
    (exists e, TypingEffect.element s = Some e
       /\ TypingEffect.set_textContent "" z
          = Returned (TypingEffect.with_element (Some "") z))
    \/ (TypingEffect.element s = None
        /\ TypingEffect.set_textContent "" z = Threw z)).
  { unfold TypingEffect.set_textContent. rewrite He.
    destruct (TypingEffect.element s); eauto. }
  assert (Hidle : forall y,
            pending (TypingEffect.timers y) = [] ->
            TypingEffect.tick y = None
            /\ forall n, TypingEffect.ticks n y = y).
  { intros y Hy. pose proof (tick_idle y Hy) as Hn. split; [exact Hn|].
    intros n. destruct n; [reflexivity|].
    cbn [TypingEffect.ticks]. now rewrite Hn. }
  destruct Hcases as [(e & Hs & ->) | (Hs & ->)]; cbn [final].
  - destruct (Hidle (TypingEffect.with_element (Some "") z) Hp) as [H1 H2].
    repeat split; try assumption; try reflexivity; congruence.
  - destruct (Hidle z Hp) as [H1 H2].
    repeat split; try assumption; try reflexivity; congruence.
Qed.

Lemma reset_returns_to_start_and_idles_witness :
  let s := TypingEffect.ticks 1
             (final (TypingEffect.new (Some "") (Many ["ab"])
                       TypingEffect.default_options (idle_at 0))) in
  TypingEffect.currentCharIndex (final (TypingEffect.reset s)) = 0
  /\ TypingEffect.tick (final (TypingEffect.reset s)) = None.
Proof.
  intros s.
  destruct (reset_returns_to_start_and_idles s)
    as (_ & H2 & _ & _ & _ & _ & H7 & _).
  - apply typing_driven_tracks.
    apply (typ_tick
             (final (TypingEffect.new (Some "") (Many ["ab"])
                       TypingEffect.default_options (idle_at 0)))
             (Returned s)); [apply typ_new|].
    vm_compute. reflexivity.
  - split; [exact H2|exact H7].
Defined.

(** X4. [changeTexts] restarts the typewriter on the new texts, whatever
    it was doing (also when it was paused): the pending tick is cancelled,
    the first character of the first new text is shown at once and exactly
    one timer, the one [timeoutId] names, is pending. *)
Theorem changeTexts_restarts
    (s : TypingEffect.state) (e : string) (txts : texts_arg)
    (t : string) (rest : list string) :
  typing_tracks s ->
  TypingEffect.element s = Some e ->
  as_array txts = t :: rest ->
  exists s',
    TypingEffect.changeTexts txts s = Returned s'
    /\ typing_at (t :: rest) (TypingEffect.opts s) 0 1 (1 =? js_length t) s'
    /\ TypingEffect.shown s' = js_prefix 1 t
    /\ typing_tracks s'.
Proof.
  intros Ht He Htx.
  assert (Hw : typing_tracks (TypingEffect.with_texts (as_array txts) s))
    by exact Ht.
  destruct (reset_state _ Hw) as (Hp & Hn & Hel & _ & _).
  unfold TypingEffect.changeTexts, TypingEffect.reset.
  set (z := TypingEffect.with_paused false _) in *.
  rewrite (set_textContent_some "" z e) by (rewrite Hel; exact He).
  cbn [and_then]. unfold TypingEffect.start.
  set (y := TypingEffect.with_element (Some "") z).
  assert (Hjs : js_index (TypingEffect.texts y)
                  (TypingEffect.currentTextIndex y) = Some t).
  { subst y z. cbn. rewrite (proj1 (proj2 (stop_keeps _))). cbn.
    now rewrite Htx. }
  pose proof (type_typing y t "" eq_refl Hjs eq_refl eq_refl) as Hy.
  cbn zeta in Hy. rewrite Hy. eexists. split; [reflexivity|].
  assert (Hopts : TypingEffect.opts y = TypingEffect.opts s).
  { subst y z. cbn.
    exact (proj1 (proj2 (proj2
             (stop_keeps (TypingEffect.with_texts (as_array txts) s))))). }
  assert (Htexts : TypingEffect.texts y = t :: rest).
  { subst y z. cbn. rewrite (proj1 (proj2 (stop_keeps _))). cbn.
    exact Htx. }
  assert (Hpy : pending (TypingEffect.timers y) = []) by exact Hp.
  change (TypingEffect.currentCharIndex y + 1) with 1.
  set (w := TypingEffect.with_element _ _).
  set (d := if 1 =? js_length t then _ else _).
  destruct (schedule_idle d w Hpy) as (Hq & Hh & Hnx).
  assert (Hnw : 0 < next_id (TypingEffect.timers w)) by exact Hn.
  split; [|split; [reflexivity|]].
  - split; [exact Htexts|]. split; [exact Hopts|].
    repeat split; try reflexivity.
    + eexists. reflexivity.
    + eexists. exact Hq.
  - split; [split|discriminate].
    + rewrite Hnx. lia.
    + right. eexists. split; [exact Hq|]. split; [exact Hh|].
      cbn [tid]. lia.
Qed.

Lemma changeTexts_restarts_witness :
  let s := TypingEffect.pause
             (final (TypingEffect.new (Some "") (Many ["ab"])
                       TypingEffect.default_options (idle_at 0))) in
  exists s',
    TypingEffect.changeTexts (One "xyz") s = Returned s'
    /\ TypingEffect.shown s' = "x".
Proof.
  intros s.
  destruct (changeTexts_restarts s "a" (One "xyz") "xyz" [])
    as (s' & H1 & _ & H3 & _); try reflexivity.
  - apply typing_driven_tracks, typ_pause, typ_new.
  - exists s'. split; [exact H1|exact H3].
Defined.

(** X5. [changeTexts] with an empty array throws: the sink is emptied and
    the timer cancelled by the reset, then [type] finds no text to read.
    The typewriter is left without texts and with nothing pending. *)
Theorem changeTexts_empty_throws (s : TypingEffect.state) (e : string) :
  typing_tracks s ->
  TypingEffect.element s = Some e ->
  exists s',
    TypingEffect.changeTexts (Many []) s = Threw s'
    /\ TypingEffect.texts s' = []
    /\ TypingEffect.shown s' = ""
    /\ pending (TypingEffect.timers s') = []
    /\ TypingEffect.tick s' = None.
Proof.
  intros Ht He.
  assert (Hw : typing_tracks (TypingEffect.with_texts [] s)) by exact Ht.
  destruct (reset_state _ Hw) as (Hp & _ & Hel & _ & _).
  unfold TypingEffect.changeTexts, TypingEffect.reset. cbn [as_array].
  set (z := TypingEffect.with_paused false _) in *.
  rewrite (set_textContent_some "" z e) by (rewrite Hel; exact He).
  cbn [and_then]. unfold TypingEffect.start, TypingEffect.type.
  set (y := TypingEffect.with_element (Some "") z).
  assert (Hty : TypingEffect.texts y = []).
  { subst y z. cbn. now rewrite (proj1 (proj2 (stop_keeps _))). }
  change (TypingEffect.isPaused y) with false. cbn iota.
  rewrite Hty. change (TypingEffect.currentTextIndex y) with 0.
  cbn [js_index Z.ltb Z.compare Z.to_nat]. rewrite lookup_nil.
  exists y. repeat split; try assumption.
  now apply tick_idle.
Qed.

Lemma changeTexts_empty_throws_witness :
  let s := final (TypingEffect.new (Some "") (Many ["ab"])
                    TypingEffect.default_options (idle_at 0)) in
  exists s', TypingEffect.changeTexts (Many []) s = Threw s'
             /\ TypingEffect.texts s' = [].
Proof.
  intros s.
  destruct (changeTexts_empty_throws s "a") as (s' & H1 & H2 & _);
    [apply typing_driven_tracks, typ_new|reflexivity|].
  exists s'. split; [exact H1|exact H2].
Defined.

(** X6. [destroy] on a typewriter that holds its timer and has a sink
    cancels the pending tick and empties the sink; nothing is pending, so
    no tick follows. The position and the paused flag are kept, and the
    instance is not closed: a later [resume] in typing mode shows the next
    prefix at once and registers a timer again. *)
Theorem destroy_clears_but_can_restart
    (s : TypingEffect.state) (e t : string) :
  typing_tracks s ->
  TypingEffect.element s = Some e ->
  TypingEffect.getCurrentText s = Some t ->
  TypingEffect.isDeleting s = false ->
  exists s',
    TypingEffect.destroy s = Returned s'
    /\ TypingEffect.shown s' = ""
    /\ pending (TypingEffect.timers s') = []
    /\ TypingEffect.tick s' = None
    /\ TypingEffect.currentTextIndex s' = TypingEffect.currentTextIndex s
    /\ TypingEffect.currentCharIndex s' = TypingEffect.currentCharIndex s
    /\ TypingEffect.isPaused s' = TypingEffect.isPaused s
    /\ exists s'' tm,
        TypingEffect.resume s' = Returned s''
        /\ pending (TypingEffect.timers s'') = [tm]
        /\ TypingEffect.shown s''
           = js_prefix (TypingEffect.currentCharIndex s + 1) t.
Proof.
  intros [Ht _] He Hx Hd.
  destruct (stop_idle s Ht) as (Hp & _ & _).
  destruct (stop_keeps s) as (K1 & K2 & K3 & K4 & K5 & K6 & K7).
  unfold TypingEffect.destroy.
  rewrite (set_textContent_some "" (TypingEffect.stop s) e)
    by (rewrite K1; exact He).
  set (s' := TypingEffect.with_element (Some "") (TypingEffect.stop s)).
  exists s'. split; [reflexivity|]. split; [reflexivity|].
  split; [exact Hp|]. split; [now apply tick_idle|].
  split; [exact K4|]. split; [exact K5|]. split; [exact K7|].
  unfold TypingEffect.resume, TypingEffect.start.
  set (r := TypingEffect.with_paused false s').
  assert (Hjs : js_index (TypingEffect.texts r)
                  (TypingEffect.currentTextIndex r) = Some t).
  { subst r s'. cbn. rewrite K2, K4. exact Hx. }
  assert (Hdr : TypingEffect.isDeleting r = false).
  { subst r s'. cbn. rewrite K6. exact Hd. }
  pose proof (type_typing r t "" eq_refl Hjs Hdr eq_refl) as Hy.
  cbn zeta in Hy. rewrite Hy.
  set (w := TypingEffect.with_element _ _).
  set (d := if _ =? _ then _ else _).
  destruct (schedule_idle d w Hp) as (Hq & _ & _).
  eexists. eexists. split; [reflexivity|]. split; [exact Hq|].
  subst w r s'. cbn. now rewrite K5.
Qed.

Lemma destroy_clears_but_can_restart_witness :
  let s := final (TypingEffect.new (Some "") (Many ["abc"])
                    TypingEffect.default_options (idle_at 0)) in
  exists s',
    TypingEffect.destroy s = Returned s'
    /\ TypingEffect.shown s' = ""
    /\ exists s'',
        TypingEffect.resume s' = Returned s''
        /\ TypingEffect.shown s'' = "ab".
Proof.
  intros s.
  destruct (destroy_clears_but_can_restart s "a" "abc")
    as (s' & H1 & H2 & _ & _ & _ & _ & _ & s'' & tm & H3 & _ & H4);
    try reflexivity.
  - apply typing_driven_tracks, typ_new.
  - exists s'. split; [exact H1|]. split; [exact H2|].
    exists s''. split; [exact H3|exact H4].
Defined.

(** ** Looping *)

Section TypingLoop.
Import TypingEffect.
Variable txts : list string.
Variable o : options.
Hypothesis looping : loop o = true.
Hypothesis texts_not_empty : Forall (fun t => t <> "") txts.
Implicit Types (s : state) (i : nat).

Lemma tick_at_deleted_wrap i t s :
  typing_at txts o i 1 true s -> txts !! i = Some t ->
  (i + 1)%nat = length txts ->
  exists s',
    tick s = Some (Returned s')
    /\ shown s' = ""
    /\ typing_at txts o 0 0 false s'.
Proof.
  intros H Ht Hlast. open_at H. rewrite (tick_running s tm Hq).
  assert (Hrem : Z.rem (Z.of_nat i + 1) (Z.of_nat (length txts)) = 0).
  { replace (Z.of_nat i + 1) with (Z.of_nat (length txts)) by lia.
    apply Z.rem_same. lia. }
  erewrite type_deleted_next with (t := t) (e := e); popped_fields;
    [|assumption|now rewrite Htx, Hi, js_index_nat|assumption|assumption
     |assumption|left; now rewrite Ho].
  eexists. split; [reflexivity|]. split; [reflexivity|].
  rewrite Htx, Hi, Hrem.
  repeat split; cbn; try assumption; eauto.
Qed.

(** From the last character of text [i] through the texts that follow,
    back to the start of the first text. *)
Lemma from_last_char_to_start : forall (rest : list string) i t s,
  txts !! i = Some t ->
  drop (S i) txts = rest ->
  typing_at txts o i 1 true s ->
  exists s',
    typing_at txts o 0 0 false s'
    /\ shown s' = ""
    /\ forall n, ticks (1 + 2 * total_length rest + n) s = ticks n s'.
Proof.
  induction rest as [|t' r IH]; intros i t s Ht Hdrop Hat.
  - assert (Hlast : (i + 1)%nat = length txts).
    { pose proof (lookup_lt_Some _ _ _ Ht).
      apply (f_equal length) in Hdrop. rewrite length_drop in Hdrop.
      cbn in Hdrop. lia. }
    destruct (tick_at_deleted_wrap i t s Hat Ht Hlast)
      as (s' & Hs & Hsh & Hat').
    exists s'. split; [exact Hat'|]. split; [exact Hsh|].
    intros n. cbn [total_length foldr Nat.mul Nat.add].
    now apply ticks_step.
  - assert (Ht' : txts !! (i + 1)%nat = Some t').
    { rewrite Nat.add_1_r, <- (Nat.add_0_r (S i)), <- lookup_drop, Hdrop.
      reflexivity. }
    pose proof (lookup_lt_Some _ _ _ Ht') as Hlt.
    assert (Hne : t' <> "").
    { rewrite Forall_forall in texts_not_empty. apply texts_not_empty.
      apply list_elem_of_lookup. eauto. }
    destruct (tick_at_deleted_next txts o i t s Hat Ht Hlt)
      as (s1 & Hs1 & _ & Hat1).
    destruct (cycle_to_last_char txts o (i + 1) t' s1 Ht' Hne Hat1)
      as (s2 & Hat2 & Hrun2).
    destruct (IH (i + 1)%nat t' s2 Ht') as (s' & Hat' & Hsh & Hrun);
      [|exact Hat2|].
    { replace (S i) with (i + 1)%nat in Hdrop by lia.
      rewrite (drop_S _ _ _ Ht') in Hdrop. congruence. }
    exists s'. split; [exact Hat'|]. split; [exact Hsh|].
    intros n. rewrite <- Hrun, <- Hrun2.
    rewrite <- (ticks_step s s1 _ Hs1). f_equal.
    pose proof (js_length_pos t' Hne). unfold js_length in *.
    cbn [total_length foldr]. fold (total_length r). lia.
Qed.

(** One pass over all the texts. *)
Lemma one_pass t0 s :
  txts !! 0%nat = Some t0 ->
  typing_at txts o 0 0 false s ->
  exists s',
    typing_at txts o 0 0 false s'
    /\ shown s' = ""
    /\ forall n, ticks (2 * total_length txts + n) s = ticks n s'.
Proof.
  intros Ht Hat.
  assert (Hne : t0 <> "").
  { rewrite Forall_forall in texts_not_empty. apply texts_not_empty.
    apply list_elem_of_lookup. eauto. }
  destruct (cycle_to_last_char txts o 0 t0 s Ht Hne Hat)
    as (s1 & Hat1 & Hrun1).
  destruct (from_last_char_to_start (drop 1 txts) 0 t0 s1 Ht eq_refl Hat1)
    as (s' & Hat' & Hsh & Hrun).
  exists s'. split; [exact Hat'|]. split; [exact Hsh|].
  intros n. rewrite <- Hrun, <- Hrun1. f_equal.
  pose proof (js_length_pos t0 Hne). unfold js_length in *.
  assert (E : txts = t0 :: drop 1 txts) by exact (drop_S txts t0 0 Ht).
  assert (Htot : total_length txts
                 = (String.length t0 + total_length (drop 1 txts))%nat)
    by (rewrite E at 1; reflexivity).
  lia.
Qed.

Lemma many_passes t0 : forall (m : nat) s,
  txts !! 0%nat = Some t0 ->
  typing_at txts o 0 0 false s ->
  exists s',
    typing_at txts o 0 0 false s'
    /\ shown s' = ""
    /\ forall n, ticks (S m * (2 * total_length txts) + n) s = ticks n s'.
Proof.
  induction m as [|m IH]; intros s Ht Hat.
  - destruct (one_pass t0 s Ht Hat) as (s1 & Hat1 & Hsh & Hrun1).
    exists s1. split; [exact Hat1|]. split; [exact Hsh|].
    intros n. rewrite <- Hrun1. f_equal. lia.
  - destruct (one_pass t0 s Ht Hat) as (s1 & Hat1 & _ & Hrun1).
    destruct (IH s1 Ht Hat1) as (s' & Hat' & Hsh & Hrun).
    exists s'. split; [exact Hat'|]. split; [exact Hsh|].
    intros n. rewrite <- Hrun, <- Hrun1. f_equal. lia.
Qed.
End TypingLoop.

(** X7. With looping on and proper texts the typewriter never comes to
    rest: built on an idle host it is back at the start of the first text,
    with an empty sink and its timer pending, after the first pass (one
    tick per character typed and per character deleted, the first
    character being typed by the constructor) and again after every
    further pass. *)
Theorem looping_returns_to_empty_start
    (txts : list string) (o : TypingEffect.options) (e0 : string)
    (k : sched unit) (m : nat) :
  proper_texts txts ->
  TypingEffect.loop o = true ->
  pending k = [] ->
  let s :=
    TypingEffect.ticks
      (2 * total_length txts - 1 + m * (2 * total_length txts))
      (final (TypingEffect.new (Some e0) (Many txts) o k)) in
  typing_at txts o 0 0 false s /\ TypingEffect.shown s = "".
Proof.
  intros [Hne Hall] Hloop Hk.
  assert (E : exists t rest, txts = t :: rest).
  { destruct txts; [congruence|eauto]. }
  destruct E as (t & rest & E).
  assert (Ht : txts !! 0%nat = Some t) by now rewrite E.
  assert (Htne : t <> "").
  { rewrite Forall_forall in Hall. apply Hall.
    apply list_elem_of_lookup. eauto. }
  pose proof (new_starts_typing txts o e0 t k Ht Hk) as Hat.
  destruct (first_text_to_last_char txts o t _ Ht Htne Hat)
    as (s1 & Hat1 & Hrun1).
  destruct (from_last_char_to_start txts o Hloop Hall (drop 1 txts) 0 t s1
              Ht eq_refl Hat1) as (s2 & Hat2 & Hsh2 & Hrun2).
  assert (Etot : total_length txts
                 = (String.length t + total_length (drop 1 txts))%nat).
  { assert (E' : txts = t :: drop 1 txts) by exact (drop_S txts t 0 Ht).
    rewrite E' at 1. reflexivity. }
  pose proof (js_length_pos t Htne) as Hpos. unfold js_length in Hpos.
  assert (Hfirst : forall n,
            TypingEffect.ticks (2 * total_length txts - 1 + n)
              (final (TypingEffect.new (Some e0) (Many txts) o k))
            = TypingEffect.ticks n s2).
  { intros n. rewrite <- Hrun2, <- Hrun1. f_equal. lia. }
  cbn zeta. rewrite Hfirst. destruct m as [|m].
  - split; [exact Hat2|exact Hsh2].
  - destruct (many_passes txts o Hloop Hall t m s2 Ht Hat2)
      as (s3 & Hat3 & Hsh3 & Hrun3).
    specialize (Hrun3 0%nat). rewrite Nat.add_0_r in Hrun3.
    rewrite Hrun3. split; [exact Hat3|exact Hsh3].
Qed.

Lemma looping_returns_to_empty_start_witness :
  let s := TypingEffect.ticks 17
             (final (TypingEffect.new (Some "") (Many ["ab"; "c"])
                       TypingEffect.default_options (idle_at 0))) in
  typing_at ["ab"; "c"] TypingEffect.default_options 0 0 false s
  /\ TypingEffect.shown s = "".
Proof.
  refine (looping_returns_to_empty_start ["ab"; "c"]
            TypingEffect.default_options "" (idle_at 0) 2 _ eq_refl eq_refl).
  split; [discriminate|repeat constructor; discriminate].
Defined.

(** ** Hiding and showing the page *)

Section Visibility.
Import TypingEffect.
Implicit Types (s : state).

(** [resume] while typing: the next prefix, one more timer. *)
Lemma resume_typing s t e :
  js_index (texts s) (currentTextIndex s) = Some t ->
  isDeleting s = false ->
  element s = Some e ->
  let ci := currentCharIndex s + 1 in
  let full := ci =? js_length t in
  resume s
  = Returned
      (schedule (if full then pauseTime (opts s) else typeSpeed (opts s))
         (with_element (Some (js_prefix ci t))
            (with_position (currentTextIndex s) ci full
               (with_paused false s)))).
Proof.
  intros Hx Hd He. unfold resume, start.
  exact (type_typing (with_paused false s) t e eq_refl Hx Hd He).
Qed.
End Visibility.

(** X8. Both visibility listeners call the typewriter. Hiding the page
    pauses it (the second [pause] changes nothing); showing it again calls
    [resume] twice, so a typewriter that was typing shows two more
    characters at once and is left with two pending timers instead of
    one. *)
Theorem page_shown_again_doubles_the_timers
    (p : Page.state) (te : TypingEffect.state)
    (txts : list string) (o : TypingEffect.options) (i : nat) (c : Z)
    (t : string) :
  Page.typingEffect p = Some te ->
  typing_tracks te ->
  typing_at txts o i c false te ->
  txts !! i = Some t ->
  c + 1 < js_length t ->
  exists paused shown_again,
    Page.typingEffect (Page.visibilitychange true p) = Some paused
    /\ paused = TypingEffect.pause te
    /\ pending (TypingEffect.timers paused) = []
    /\ Page.typingEffect
         (Page.visibilitychange false (Page.visibilitychange true p))
       = Some shown_again
    /\ TypingEffect.currentCharIndex shown_again = c + 2
    /\ TypingEffect.shown shown_again = js_prefix (c + 2) t
    /\ length (pending (TypingEffect.timers shown_again)) = 2%nat
    /\ TypingEffect.isPaused shown_again = false.
Proof.
  intros Hte Htr Hat Ht Hc.
  destruct Hat as (Htx & Ho & Hi & Hci & Hd & Hp & [e He] & [tm Hq]).
  destruct (stop_keeps (TypingEffect.with_paused true te))
    as (K1 & K2 & K3 & K4 & K5 & K6 & K7).
  destruct (stop_idle (TypingEffect.with_paused true te) (proj1 Htr))
    as (Hidle & _ & _).
  set (q := TypingEffect.pause te).
  assert (Hhide : Page.typingEffect (Page.visibilitychange true p) = Some q).
  { unfold Page.visibilitychange, Page.typing_script_listener,
      Page.handleVisibilityChange, Page.pauseAnimations.
    cbn. rewrite Hte. cbn. f_equal. subst q.
    unfold TypingEffect.pause.
    rewrite !stop_with_paused, stop_stop.
    now destruct (TypingEffect.stop te). }
  exists q. 
  assert (Hjs : js_index (TypingEffect.texts q)
                  (TypingEffect.currentTextIndex q) = Some t).
  { subst q. unfold TypingEffect.pause. rewrite K2, K4. cbn.
    now rewrite Htx, Hi, js_index_nat. }
  assert (Hdq : TypingEffect.isDeleting q = false).
  { subst q. unfold TypingEffect.pause. rewrite K6. exact Hd. }
  assert (Heq : TypingEffect.element q = Some e).
  { subst q. unfold TypingEffect.pause. rewrite K1. exact He. }
  assert (Hcq : TypingEffect.currentCharIndex q = c).
  { subst q. unfold TypingEffect.pause. rewrite K5. exact Hci. }
  pose proof (resume_typing q t e Hjs Hdq Heq) as R1. cbn zeta in R1.
  rewrite Hcq in R1.
  destruct (Z.eqb_spec (c + 1) (js_length t)) as [|_]; [lia|].
  set (r1 := TypingEffect.schedule _ _) in R1.
  pose proof (resume_typing r1 t (js_prefix (c + 1) t) Hjs eq_refl eq_refl)
    as R2.
  cbn zeta in R2.
  change (TypingEffect.currentCharIndex r1) with (c + 1) in R2.
  set (r2 := TypingEffect.schedule _ _) in R2.
  exists r2. split; [exact Hhide|]. split; [reflexivity|].
  split; [exact Hidle|]. split.
  { unfold Page.visibilitychange at 1.
    unfold Page.typing_script_listener, Page.handleVisibilityChange,
      Page.resumeAnimations.
    cbn [Page.hidden Page.typingEffect Page.play_state]. rewrite Hhide.
    cbn [Page.hidden Page.typingEffect Page.play_state].
    rewrite R1. cbn [final]. now rewrite R2. }
  split; [subst r2; cbn; lia|].
  split; [subst r2; cbn; f_equal; lia|].
  split; [|reflexivity].
  subst r2 r1. cbn.
  change (pending (TypingEffect.timers q)) with
    (pending (TypingEffect.timers
                (TypingEffect.stop (TypingEffect.with_paused true te)))).
  rewrite Hidle. reflexivity.
Qed.

Lemma page_shown_again_doubles_the_timers_witness :
  let te := final (TypingEffect.new (Some "") (Many ["abcd"])
                     TypingEffect.default_options (idle_at 0)) in
  let p := Page.State false "running" (Some te) in
  exists shown_again,
    Page.typingEffect
      (Page.visibilitychange false (Page.visibilitychange true p))
    = Some shown_again
    /\ TypingEffect.shown shown_again = "abc"
    /\ length (pending (TypingEffect.timers shown_again)) = 2%nat.
Proof.
  intros te p.
  destruct (page_shown_again_doubles_the_timers p te ["abcd"]
              TypingEffect.default_options 0 1 "abcd")
    as (q & r & _ & _ & _ & H4 & _ & H6 & H7 & _).
  - reflexivity.
  - apply typing_driven_tracks, typ_new.
  - repeat split; try reflexivity; eexists; reflexivity.
  - reflexivity.
  - reflexivity.
  - exists r. split; [exact H4|]. split; [exact H6|exact H7].
Defined.

(** ** The multi-line typewriter, line by line *)

Section MultiLineRun.
Import MultiLine.
Variable ls : list string.
Variable o : options.
Implicit Types (s : state) (i : nat) (c : Z) (els : list string).

Lemma ml_tick_running s tm :
  pending (timers s) = [tm] ->
  tick s
  = Some (typeLine (with_timer (timeoutId s)
                      (Sched (Z.max (now (timers s)) (due tm))
                             (next_id (timers s)) []) s)).
Proof. intros Hp. unfold tick. now rewrite (pop_single _ _ Hp). Qed.

Lemma ml_ticks_step s s' n :
  tick s = Some (Returned s') -> ticks (S n) s = ticks n s'.
Proof. intros H. cbn [ticks]. now rewrite H. Qed.

Lemma ml_tick_char i c els line s :
  multiline_at ls o i c els s -> ls !! i = Some line ->
  c < js_length line -> (i < length els)%nat ->
  exists s' shown,
    tick s = Some (Returned s')
    /\ multiline_at ls o i (c + 1) (<[i := shown]> els) s'.
Proof.
  intros (Hl & Ho & Hi & Hc & He & tm & Hq) Hline Hlt Hlen.
  rewrite (ml_tick_running s tm Hq).
  erewrite typeLine_next_char with (i := i) (line := line); cbn;
    [|assumption|now rewrite Hl|now rewrite Hc
     |rewrite He; now apply lookup_lt_is_Some_2].
  eexists. eexists. split; [reflexivity|].
  repeat split; cbn; try assumption.
  - now rewrite Hc.
  - rewrite He. reflexivity.
  - eauto.
Qed.

Lemma ml_tick_line_end i c els line s :
  multiline_at ls o i c els s -> ls !! i = Some line ->
  js_length line <= c -> (i < length els)%nat ->
  exists s',
    tick s = Some (Returned s')
    /\ multiline_at ls o (i + 1) 0 (<[i := line]> els) s'.
Proof.
  intros (Hl & Ho & Hi & Hc & He & tm & Hq) Hline Hge Hlen.
  rewrite (ml_tick_running s tm Hq).
  erewrite typeLine_line_end with (i := i) (line := line); cbn;
    [|assumption|now rewrite Hl|now rewrite Hc
     |rewrite He; now apply lookup_lt_is_Some_2].
  eexists. split; [reflexivity|].
  repeat split; cbn; try assumption.
  - lia.
  - now rewrite He.
  - eauto.
Qed.

(** The rest of line [i], up to the tick that moves on to the next
    line. *)
Lemma ml_line_phase i line : forall (k : nat) c els s,
  ls !! i = Some line ->
  multiline_at ls o i c els s ->
  c + Z.of_nat k = js_length line ->
  (i < length els)%nat ->
  exists s',
    multiline_at ls o (i + 1) 0 (<[i := line]> els) s'
    /\ forall n, ticks (k + 1 + n) s = ticks n s'.
Proof.
  induction k as [|k IH]; intros c els s Hline Hat Hc Hlen.
  - destruct (ml_tick_line_end i c els line s Hat Hline) as (s' & Hs & Hat');
      [lia|exact Hlen|].
    exists s'. split; [exact Hat'|]. intros n. now apply ml_ticks_step.
  - destruct (ml_tick_char i c els line s Hat Hline)
      as (s1 & shown & Hs & Hat1); [lia|exact Hlen|].
    destruct (IH (c + 1) _ s1 Hline Hat1) as (s' & Hat' & Hrun);
      [lia|now rewrite length_insert|].
    exists s'. split.
    + now rewrite list_insert_insert_eq in Hat'.
    + intros n. rewrite <- Hrun. now apply ml_ticks_step.
Qed.

(** The elements when line [i] is about to start: the lines before it
    are complete, the others empty. *)
Lemma ml_progress_elements i line :
  ls !! i = Some line ->
  <[i := line]> (take i ls ++ replicate (length ls - i) "")
  = take (i + 1) ls ++ replicate (length ls - (i + 1)) "".
Proof.
  intros Hline. pose proof (lookup_lt_Some _ _ _ Hline) as Hlt.
  replace (length ls - i)%nat with (S (length ls - (i + 1))) by lia.
  cbn [replicate].
  rewrite insert_app_r_alt by (rewrite length_take; lia).
  rewrite length_take, Nat.min_l by lia.
  replace (i - i)%nat with 0%nat by lia. cbn [insert list_insert].
  rewrite Nat.add_1_r, (take_S_r _ _ _ Hline), <- app_assoc. reflexivity.
Qed.

(** Lines [i] and after, one after the other. *)
Lemma ml_lines_phase : forall (rest : list string) i s,
  drop i ls = rest ->
  (i <= length ls)%nat ->
  multiline_at ls o i 0 (take i ls ++ replicate (length ls - i) "") s ->
  exists s',
    multiline_at ls o (length ls) 0 ls s'
    /\ forall n, ticks (total_length rest + length rest + n) s = ticks n s'.
Proof.
  induction rest as [|line r IH]; intros i s Hdrop Hle Hat.
  - assert (Hi : i = length ls).
    { apply (f_equal length) in Hdrop. rewrite length_drop in Hdrop.
      cbn in Hdrop. lia. }
    subst i. exists s. split; [|reflexivity].
    rewrite firstn_all, Nat.sub_diag, app_nil_r in Hat. exact Hat.
  - assert (Hline : ls !! i = Some line).
    { rewrite <- (Nat.add_0_r i), <- lookup_drop, Hdrop. reflexivity. }
    pose proof (lookup_lt_Some _ _ _ Hline) as Hlt.
    destruct (ml_line_phase i line (String.length line) 0 _ s Hline Hat)
      as (s1 & Hat1 & Hrun1); [reflexivity| |].
    { rewrite length_app, length_take, length_replicate. lia. }
    rewrite (ml_progress_elements i line Hline) in Hat1.
    destruct (IH (i + 1)%nat s1) as (s' & Hat' & Hrun); [|lia|exact Hat1|].
    { rewrite (drop_S _ _ _ Hline) in Hdrop. rewrite Nat.add_1_r.
      congruence. }
    exists s'. split; [exact Hat'|]. intros n.
    rewrite <- Hrun, <- Hrun1. f_equal.
    cbn [total_length foldr length]. fold (total_length r). lia.
Qed.

(** The tick that finds every line done. *)
Lemma ml_last_tick s :
  multiline_at ls o (length ls) 0 ls s ->
  exists s',
    tick s = Some (Returned s')
    /\ elements s' = ls
    /\ currentLineIndex s' = Z.of_nat (length ls)
    /\ container s' = container s
    /\ pending (timers s') = []
    /\ tick s' = None.
Proof.
  intros (Hl & Ho & Hi & Hc & He & tm & Hq).
  rewrite (ml_tick_running s tm Hq).
  rewrite typeLine_done by (cbn; rewrite Hl, Hi; lia).
  eexists. split; [reflexivity|]. cbn. repeat split; try assumption.
Qed.

Lemma ml_ticks_container : forall (n : nat) s,
  container (ticks n s) = container s.
Proof.
  assert (Hone : forall s, container (final (typeLine s)) = container s).
  { intros s.
    destruct (typeLine_effect s) as (li & ci & els & [H | (dl & H)]);
      now rewrite H. }
  induction n as [|n IH]; intros s; [reflexivity|].
  cbn [ticks]. unfold tick.
  destruct (pop (timers s)) as [[tm k]|]; [|reflexivity].
  specialize (Hone (with_timer (timeoutId s) k s)).
  destruct (typeLine (with_timer (timeoutId s) k s)) as [s1|s1];
    cbn [final] in Hone; [now rewrite IH|exact Hone].
Qed.

(** What the constructor leaves behind, carried to the end of the first
    line. *)
Lemma ml_new_first_line (c : list node) line k :
  ls !! 0%nat = Some line -> pending k = [] ->
  exists s1,
    multiline_at ls o 1 0 (take 1 ls ++ replicate (length ls - 1) "") s1
    /\ forall n,
        ticks (String.length line + n) (final (new (Some c) ls o k))
        = ticks n s1.
Proof.
  intros Hline Hk. pose proof (lookup_lt_Some _ _ _ Hline) as Hlt.
  unfold new, init, start. cbn [container lines elements].
  rewrite bool_decide_true by eauto.
  destruct (Z.eqb_spec (Z.of_nat (length ls)) 0) as [|_]; [lia|].
  cbn [negb orb app length].
  set (z := with_elements _ _).
  assert (Hels : elements z = take 0 ls ++ replicate (length ls - 0) "").
  { subst z. cbn. now rewrite Nat.sub_0_r. }
  assert (Hlenz : length (elements z) = length ls).
  { rewrite Hels, length_app, length_take, length_replicate. lia. }
  assert (Hsome : is_Some (elements z !! 0%nat)).
  { apply lookup_lt_is_Some_2. lia. }
  assert (Hpk : pending (timers z) = []) by exact Hk.
  destruct (Z.lt_ge_cases 0 (js_length line)) as [Hpos|Hzero].
  - rewrite (typeLine_next_char z 0 line eq_refl Hline Hpos Hsome).
    set (s0 := schedule _ _).
    assert (Hat0 : multiline_at ls o 0 1 (elements s0) s0).
    { repeat split; try reflexivity.
      unfold s0, schedule, setTimeout, with_timer.
      cbn [timers pending snd with_position with_elements].
      rewrite Hpk. cbn. eauto. }
    destruct (ml_line_phase 0 line (String.length line - 1) 1 _ s0
                Hline Hat0) as (s1 & Hat1 & Hrun1).
    { unfold js_length in *. lia. }
    { unfold s0. cbn [elements schedule with_timer with_position
                      with_elements].
      rewrite length_insert. lia. }
    exists s1. split.
    + unfold s0 in Hat1.
      cbn [elements schedule with_timer with_position with_elements]
        in Hat1.
      rewrite list_insert_insert_eq, Hels in Hat1.
      now rewrite (ml_progress_elements 0 line Hline) in Hat1.
    + intros n. rewrite <- Hrun1. f_equal. unfold js_length in *. lia.
  - rewrite (typeLine_line_end z 0 line eq_refl Hline Hzero Hsome).
    set (s0 := schedule _ _).
    exists s0. split.
    + repeat split; try reflexivity.
      * unfold s0.
        cbn [elements schedule with_timer with_position with_elements].
        rewrite Hels. exact (ml_progress_elements 0 line Hline).
      * unfold s0, schedule, setTimeout, with_timer.
        cbn [timers pending snd with_position with_elements].
        rewrite Hpk. cbn. eauto.
    + intros n. f_equal. unfold js_length in *. lia.
Qed.
End MultiLineRun.

(** X9. A multi-line typewriter built with a container on an idle host
    types every line to the end: after one tick per character and one per
    line the [i]-th element shows exactly the [i]-th line (without the
    cursor, whatever [showCursor] says), the line index equals the number
    of lines, the container holds the line elements, nothing is pending
    and no tick follows. *)
Theorem multiline_types_every_line
    (c : list MultiLine.node) (ls : list string) (o : MultiLine.options)
    (k : sched unit) :
  ls <> [] ->
  pending k = [] ->
  let s :=
    MultiLine.ticks (total_length ls + length ls)
      (final (MultiLine.new (Some c) ls o k)) in
  MultiLine.elements s = ls
  /\ MultiLine.currentLineIndex s = Z.of_nat (length ls)
  /\ MultiLine.container s = Some (MultiLine.Line <$> seq 0 (length ls))
  /\ pending (MultiLine.timers s) = []
  /\ MultiLine.tick s = None.
Proof.
  intros Hne Hk.
  assert (E : exists line, ls !! 0%nat = Some line).
  { destruct ls; [congruence|eauto]. }
  destruct E as (line & Hline).
  pose proof (lookup_lt_Some _ _ _ Hline) as Hlt.
  destruct (ml_new_first_line ls o c line k Hline Hk) as (s1 & Hat1 & Hrun1).
  destruct (ml_lines_phase ls o (drop 1 ls) 1 s1 eq_refl) as (s2 & Hat2 & Hrun2);
    [lia|exact Hat1|].
  destruct (ml_last_tick ls o s2 Hat2) as (s3 & Hs3 & He & Hi & _ & Hp & Hn).
  assert (Etot : (total_length ls + length ls
                  = String.length line
                    + (total_length (drop 1 ls) + length (drop 1 ls) + 1))%nat).
  { assert (E' : ls = line :: drop 1 ls) by exact (drop_S ls line 0 Hline).
    rewrite E' at 1 2. cbn [total_length foldr length].
    fold (total_length (drop 1 ls)). lia. }
  cbn zeta. rewrite Etot, Hrun1, Hrun2.
  rewrite (ml_ticks_step s2 s3 0 Hs3). cbn [MultiLine.ticks].
  split; [exact He|]. split; [exact Hi|]. split; [|split; assumption].
  assert (Hc3 : MultiLine.container s3
                = MultiLine.container
                    (final (MultiLine.new (Some c) ls o k))).
  { rewrite <- (ml_ticks_container (total_length ls + length ls)
                  (final (MultiLine.new (Some c) ls o k))).
    rewrite Etot, Hrun1, Hrun2, (ml_ticks_step s2 s3 0 Hs3). reflexivity. }
  rewrite Hc3. unfold MultiLine.new, MultiLine.init, MultiLine.start.
  cbn [MultiLine.container MultiLine.lines MultiLine.elements].
  rewrite bool_decide_true by eauto.
  destruct (Z.eqb_spec (Z.of_nat (length ls)) 0) as [|_]; [lia|].
  cbn [negb orb app length].
  set (z := MultiLine.with_elements _ _).
  destruct (typeLine_effect z) as (li & ci & els & [H | (dl & H)]);
    rewrite H; reflexivity.
Qed.

Lemma multiline_types_every_line_witness :
  let s := MultiLine.ticks 5
             (final (MultiLine.new (Some [MultiLine.Foreign "<p>old</p>"])
                       ["ab"; "c"] MultiLine.default_options (idle_at 0))) in
  MultiLine.elements s = ["ab"; "c"] /\ MultiLine.tick s = None.
Proof.
  destruct (multiline_types_every_line [MultiLine.Foreign "<p>old</p>"]
              ["ab"; "c"] MultiLine.default_options (idle_at 0))
    as (H1 & _ & _ & _ & H5); [discriminate|reflexivity|].
  split; [exact H1|exact H5].
Defined.

(** X10. However many ticks run, the line index of a multi-line
    typewriter never goes back, never passes the number of lines once it
    is within it, and the lines and the number of line elements stay the
    same. *)
Theorem multiline_index_only_grows (n : nat) (s : MultiLine.state) :
  MultiLine.currentLineIndex s
  <= MultiLine.currentLineIndex (MultiLine.ticks n s)
  /\ (MultiLine.currentLineIndex s <= Z.of_nat (length (MultiLine.lines s)) ->
      MultiLine.currentLineIndex (MultiLine.ticks n s)
      <= Z.of_nat (length (MultiLine.lines s)))
  /\ MultiLine.lines (MultiLine.ticks n s) = MultiLine.lines s
  /\ length (MultiLine.elements (MultiLine.ticks n s))
     = length (MultiLine.elements s).
Proof.
  assert (Hone : forall z,
    let z' := final (MultiLine.typeLine z) in
    MultiLine.currentLineIndex z <= MultiLine.currentLineIndex z'
    /\ (MultiLine.currentLineIndex z
        <= Z.of_nat (length (MultiLine.lines z)) ->
        MultiLine.currentLineIndex z'
        <= Z.of_nat (length (MultiLine.lines z)))
    /\ MultiLine.lines z' = MultiLine.lines z
    /\ length (MultiLine.elements z') = length (MultiLine.elements z)).
  { intros z. cbn zeta. unfold MultiLine.typeLine.
    destruct (Z.leb_spec (Z.of_nat (length (MultiLine.lines z)))
                (MultiLine.currentLineIndex z)) as [Hge|Hlt];
      [cbn; repeat split; lia|].
    destruct (js_index (MultiLine.lines z) (MultiLine.currentLineIndex z))
      as [line|]; [|cbn; repeat split; lia].
    unfold MultiLine.set_line.
    destruct (MultiLine.currentCharIndex z <? js_length line);
      destruct (js_index (MultiLine.elements z)
                  (MultiLine.currentLineIndex z));
      cbn; rewrite ?length_insert; repeat split; lia. }
  revert s. induction n as [|n IH]; intros s.
  - cbn. repeat split; lia.
  - cbn [MultiLine.ticks]. unfold MultiLine.tick.
    destruct (pop (MultiLine.timers s)) as [[tm k]|];
      [|repeat split; lia].
    specialize (Hone (MultiLine.with_timer (MultiLine.timeoutId s) k s)).
    cbn zeta in Hone. cbn [MultiLine.currentLineIndex MultiLine.lines
                           MultiLine.elements MultiLine.with_timer] in Hone.
    destruct Hone as (H1 & H2 & H3 & H4).
    destruct (MultiLine.typeLine
                (MultiLine.with_timer (MultiLine.timeoutId s) k s))
      as [s1|s1]; cbn [final] in *.
    + destruct (IH s1) as (I1 & I2 & I3 & I4).
      rewrite H3 in I2. rewrite I3, H3, I4, H4.
      split; [lia|]. split; [|split; reflexivity].
      intros Hle. apply I2. now apply H2.
    + repeat split; try assumption.
Qed.

Lemma cleared_elements (els : list string) :
  (fun _ => "") <$> els = replicate (length els) "".
Proof.
  induction els as [|x r IH]; [reflexivity|]. cbn. now f_equal.
Qed.

(** X11. [reset] on a multi-line typewriter that holds its timer cancels
    the pending tick, empties every line element and puts line index and
    character count back to 0. It does not start typing again: nothing is
    pending and no tick follows. *)
Theorem multiline_reset_clears_and_idles (s : MultiLine.state) :
  multiline_tracks s ->
  let s' := MultiLine.reset s in
  MultiLine.elements s' = replicate (length (MultiLine.elements s)) ""
  /\ MultiLine.currentLineIndex s' = 0
  /\ MultiLine.currentCharIndex s' = 0
  /\ MultiLine.lines s' = MultiLine.lines s
  /\ pending (MultiLine.timers s') = []
  /\ MultiLine.tick s' = None.
Proof.
  intros Ht. destruct (ml_stop_idle s Ht) as (Hp & _).
  assert (Hk : MultiLine.elements (MultiLine.stop s) = MultiLine.elements s
               /\ MultiLine.lines (MultiLine.stop s) = MultiLine.lines s).
  { unfold MultiLine.stop.
    destruct (truthy (MultiLine.timeoutId s)); split; reflexivity. }
  destruct Hk as [Ke Kl]. cbn zeta. unfold MultiLine.reset.
  set (z := MultiLine.stop s) in *.
  cbn [MultiLine.elements MultiLine.lines MultiLine.currentLineIndex
       MultiLine.currentCharIndex MultiLine.timers MultiLine.with_elements
       MultiLine.with_position].
  rewrite Kl. repeat split; try assumption.
  - apply cleared_elements.
  - unfold MultiLine.tick.
    cbn [MultiLine.timers MultiLine.with_elements MultiLine.with_position].
    now rewrite (pop_idle _ Hp).
Qed.

Lemma multiline_reset_clears_and_idles_witness :
  let s := final (MultiLine.new (Some []) ["ab"; "c"]
                    MultiLine.default_options (idle_at 0)) in
  MultiLine.elements s = ["a"; ""]
  /\ MultiLine.elements (MultiLine.reset s) = [""; ""]
  /\ MultiLine.tick (MultiLine.reset s) = None.
Proof.
  intros s.
  destruct (multiline_reset_clears_and_idles s) as (H1 & _ & _ & _ & _ & H6).
  - apply multiline_driven_tracks, ml_new.
  - split; [reflexivity|]. split; [exact H1|exact H6].
Defined.

(** ** [debounce] over any sequence of calls *)

Section DebounceAnyCalls.
Context {Arg : Type}.
Variable wait : Z.
Variable immediate : bool.
Implicit Types (s : Debounce.state (Arg := Arg)) (cs : list (Z * Arg)).

(** Time reaches [t]: a waiting call whose time has come is carried out
    (or, with [immediate], just forgotten); otherwise nothing happens. *)
Lemma debounce_time_passes prev t s :
  debounce_after wait prev s ->
  now (Debounce.timers s) <= t ->
  let s' := Debounce.at_time immediate t s in
  now (Debounce.timers s') = t
  /\ match prev with
     | Some p =>
         if t <? fst p + Z.max 0 wait
         then debounce_after wait (Some p) s'
              /\ Debounce.calls_made s' = Debounce.calls_made s
         else debounce_after wait None s'
              /\ Debounce.calls_made s'
                 = if negb immediate
                   then Debounce.calls_made s
                        ++ [(fst p + Z.max 0 wait, snd p)]
                   else Debounce.calls_made s
     | None =>
         debounce_after wait None s'
         /\ Debounce.calls_made s' = Debounce.calls_made s
     end.
Proof.
  intros [Hn Hs] Hle. cbn zeta. destruct prev as [p|].
  - destruct Hs as (Hp & i & Hq & Hh & Hi).
    destruct (Z.ltb_spec t (fst p + Z.max 0 wait)) as [Hlt|Hge].
    + rewrite (debounce_at_time_waiting immediate t s _ Hq) by (cbn; lia).
      unfold debounce_after. cbn. split; [lia|]. split; [|reflexivity].
      split; [exact Hn|]. split; [lia|]. exists i. auto.
    + unfold Debounce.at_time. rewrite Hq. cbn [length Debounce.fire_due].
      rewrite Hq. cbn [earliest due].
      destruct (Z.leb_spec (fst p + Z.max 0 wait) t); [|lia].
      rewrite (debounce_fire_single immediate s _ Hq).
      unfold debounce_after. cbn.
      split; [lia|]. split; [split; [exact Hn|auto]|].
      destruct immediate; cbn; [reflexivity|].
      rewrite Z.max_r by lia. reflexivity.
  - destruct Hs as (Hq & Hh).
    rewrite (debounce_at_time_idle immediate t s Hq).
    unfold debounce_after. cbn.
    split; [lia|]. split; [|reflexivity]. split; [exact Hn|auto].
Qed.

(** A call re-arms the timer, whatever was waiting. *)
Lemma debounce_call_rearms prev a s :
  debounce_after wait prev s ->
  debounce_after wait (Some (now (Debounce.timers s), a))
    (Debounce.call wait immediate a s)
  /\ now (Debounce.timers (Debounce.call wait immediate a s))
     = now (Debounce.timers s)
  /\ Debounce.calls_made (Debounce.call wait immediate a s)
     = if immediate && negb (truthy (Debounce.timeout s))
       then Debounce.calls_made s ++ [(now (Debounce.timers s), a)]
       else Debounce.calls_made s.
Proof.
  intros [Hn Hs].
  assert (Ht : debounce_tracks s).
  { destruct prev as [p|].
    - destruct Hs as (_ & i & Hq & Hh & _). right. eexists. split; eauto.
    - left. apply Hs. }
  destruct (debounce_call_replaces wait immediate a s Ht) as (Hq & Hh & Hnow).
  split; [|split; [exact Hnow|reflexivity]].
  split.
  - assert (Hnx : next_id (Debounce.timers (Debounce.call wait immediate a s))
                  = next_id (Debounce.timers s) + 1).
    { unfold Debounce.call, setTimeout, clearTimeout.
      destruct (Debounce.timeout s); reflexivity. }
    rewrite Hnx. lia.
  - cbn [fst snd]. rewrite Hnow. split; [lia|].
    exists (next_id (Debounce.timers s)).
    split; [exact Hq|]. split; [exact Hh|lia].
Qed.
End DebounceAnyCalls.

Section DebounceRuns.
Context {Arg : Type}.
Variable wait : Z.
Implicit Types (s : Debounce.state (Arg := Arg)) (cs : list (Z * Arg)).

Lemma debounce_settle_after prev s :
  debounce_after wait prev s ->
  Debounce.calls_made (Debounce.settle false s)
  = Debounce.calls_made s ++ trailing wait prev [].
Proof.
  intros [_ Hs]. unfold Debounce.settle. destruct prev as [p|].
  - destruct Hs as (Hp & i & Hq & _).
    rewrite Hq. cbn [length Debounce.drain].
    rewrite (debounce_fire_single false s _ Hq). cbn.
    rewrite Z.max_r by lia. reflexivity.
  - destruct Hs as [Hq _]. rewrite Hq. cbn. now rewrite app_nil_r.
Qed.

Lemma debounce_run_trailing cs : forall prev s,
  debounce_after wait prev s ->
  ascending (now (Debounce.timers s)) (cs.*1) ->
  Debounce.calls_made (Debounce.settle false (Debounce.run wait false cs s))
  = Debounce.calls_made s ++ trailing wait prev cs.
Proof.
  induction cs as [|[t a] r IH]; intros prev s Hs Hasc.
  - now apply debounce_settle_after.
  - cbn in Hasc. destruct Hasc as [Hle Hasc].
    cbn [Debounce.run fold_left fst snd].
    change (fold_left _ r ?x) with (Debounce.run wait false r x).
    destruct (debounce_time_passes wait false prev t s Hs Hle) as [Hnow Hcase].
    set (s1 := Debounce.at_time false t s) in *.
    assert (Hstep : forall q,
              debounce_after wait q s1 ->
              Debounce.calls_made
                (Debounce.settle false
                   (Debounce.run wait false r (Debounce.call wait false a s1)))
              = Debounce.calls_made s1 ++ trailing wait (Some (t, a)) r).
    { intros q Hq.
      destruct (debounce_call_rearms wait false q a s1 Hq) as (Ha & Hn & Hc).
      rewrite Hnow in Ha. rewrite (IH _ _ Ha); [|now rewrite Hn, Hnow].
      now rewrite Hc. }
    cbn [trailing fst snd]. destruct prev as [p|].
    + destruct (t <? fst p + Z.max 0 wait); destruct Hcase as [Hq Hc];
        rewrite (Hstep _ Hq), Hc; cbn [negb]; [reflexivity|].
      now rewrite <- app_assoc.
    + destruct Hcase as [Hq Hc]. now rewrite (Hstep _ Hq), Hc.
Qed.

Lemma debounce_drain_immediate : forall (n : nat) s,
  Debounce.calls_made (Debounce.drain true n s) = Debounce.calls_made s.
Proof.
  induction n as [|n IH]; intros s; [reflexivity|].
  cbn [Debounce.drain]. unfold Debounce.fire.
  destruct (pop (Debounce.timers s)) as [[tm k]|]; [|reflexivity].
  now rewrite IH.
Qed.

Lemma debounce_run_leading cs : forall prev s,
  debounce_after wait prev s ->
  ascending (now (Debounce.timers s)) (cs.*1) ->
  Debounce.calls_made (Debounce.run wait true cs s)
  = Debounce.calls_made s ++ leading wait (fst <$> prev) cs.
Proof.
  induction cs as [|[t a] r IH]; intros prev s Hs Hasc.
  - cbn. now rewrite app_nil_r.
  - cbn in Hasc. destruct Hasc as [Hle Hasc].
    cbn [Debounce.run fold_left fst snd].
    change (fold_left _ r ?x) with (Debounce.run wait true r x).
    destruct (debounce_time_passes wait true prev t s Hs Hle) as [Hnow Hcase].
    set (s1 := Debounce.at_time true t s) in *.
    assert (Hstep : forall q,
              debounce_after wait q s1 ->
              Debounce.calls_made
                (Debounce.run wait true r (Debounce.call wait true a s1))
              = (if negb (truthy (Debounce.timeout s1))
                 then Debounce.calls_made s1 ++ [(t, a)]
                 else Debounce.calls_made s1)
                ++ leading wait (Some t) r).
    { intros q Hq.
      destruct (debounce_call_rearms wait true q a s1 Hq) as (Ha & Hn & Hc).
      rewrite Hnow in Ha, Hc. rewrite (IH _ _ Ha); [|now rewrite Hn, Hnow].
      now rewrite Hc. }
    cbn [leading fst snd]. destruct prev as [p|]; cbn [fmap option_fmap option_map].
    + destruct (t <? fst p + Z.max 0 wait); destruct Hcase as [Hq Hc];
        rewrite (Hstep _ Hq), Hc.
      * destruct Hq as (_ & _ & i & _ & -> & Hi). cbn.
        destruct (Z.eqb_spec i 0); [contradiction|]. reflexivity.
      * destruct Hq as (_ & _ & ->). cbn. now rewrite <- app_assoc.
    + destruct Hcase as [Hq Hc]. rewrite (Hstep _ Hq), Hc.
      destruct Hq as (_ & _ & ->). cbn. now rewrite <- app_assoc.
Qed.

Lemma leading_in_burst cs : forall tp,
  burst wait (tp :: cs.*1) -> leading wait (Some tp) cs = [].
Proof.
  induction cs as [|[t a] r IH]; intros tp Hb; [reflexivity|].
  cbn in Hb. destruct Hb as [Hlt Hb]. cbn [leading fst].
  destruct (Z.ltb_spec t (tp + Z.max 0 wait)); [|lia].
  apply IH. exact Hb.
Qed.
End DebounceRuns.

(** X12. A debounce wrapper without [immediate], over any sequence of
    calls: once everything has settled, the wrapped function has run once
    for every call that was not followed by another call within [wait],
    each time [wait] after that call and with its arguments, in the order
    of the calls. *)
Theorem debounce_trailing_calls {Arg : Type} (wait t0 : Z)
    (cs : list (Z * Arg)) :
  ascending t0 (cs.*1) ->
  Debounce.calls_made
    (Debounce.settle false (Debounce.run wait false cs (Debounce.init t0)))
  = trailing wait None cs.
Proof.
  intros Hasc.
  rewrite (debounce_run_trailing wait cs None (Debounce.init t0));
    [reflexivity| |exact Hasc].
  split; [cbn; lia|]. split; reflexivity.
Qed.

Lemma debounce_trailing_calls_witness :
  Debounce.calls_made
    (Debounce.settle false
       (Debounce.run 50 false
          [(0, "a"); (10, "b"); (60, "c"); (100, "d"); (300, "e")]
          (Debounce.init 0)))
  = [(60, "b"); (150, "d"); (350, "e")].
Proof.
  rewrite (debounce_trailing_calls 50 0
             [(0, "a"); (10, "b"); (60, "c"); (100, "d"); (300, "e")]).
  - vm_compute. reflexivity.
  - cbn. lia.
Defined.

(** X13. A debounce wrapper with [immediate], over any sequence of calls:
    a call runs the wrapped function at once exactly when no call was made
    during the [wait] before it, and the timers never run it. In a burst
    (each call less than [wait] after the one before) only the first call
    gets through. *)
Theorem debounce_leading_calls {Arg : Type} (wait t0 : Z)
    (cs : list (Z * Arg)) :
  ascending t0 (cs.*1) ->
  let s := Debounce.run wait true cs (Debounce.init t0) in
  Debounce.calls_made s = leading wait None cs
  /\ Debounce.calls_made (Debounce.settle true s) = Debounce.calls_made s
  /\ (forall c r, cs = c :: r -> burst wait (cs.*1) ->
        Debounce.calls_made s = [c]).
Proof.
  intros Hasc s.
  assert (Hrun : Debounce.calls_made s = leading wait None cs).
  { subst s. rewrite (debounce_run_leading wait cs None (Debounce.init t0));
      [reflexivity| |exact Hasc].
    split; [cbn; lia|]. split; reflexivity. }
  split; [exact Hrun|]. split.
  - apply debounce_drain_immediate.
  - intros c r -> Hb. rewrite Hrun. cbn [leading].
    now rewrite (leading_in_burst wait r (fst c) Hb).
Qed.

Lemma debounce_leading_calls_witness :
  Debounce.calls_made
    (Debounce.run 50 true
       [(0, "a"); (10, "b"); (59, "c"); (109, "d"); (300, "e")]
       (Debounce.init 0))
  = [(0, "a"); (109, "d"); (300, "e")].
Proof.
  destruct (debounce_leading_calls 50 0
              [(0, "a"); (10, "b"); (59, "c"); (109, "d"); (300, "e")])
    as (H & _).
  - cbn. lia.
  - rewrite H. vm_compute. reflexivity.
Defined.

(** ** Helpers of utils.js *)

(** X14. For every window width exactly one of [isMobile], [isTablet] and
    [isDesktop] holds, and [getDeviceType] names that one: mobile up to
    768, tablet from 769 to 1024, desktop above. *)
Theorem device_type_partitions (w : Z) :
  (w <= 768
   /\ Device.isMobile w = true /\ Device.isTablet w = false
   /\ Device.isDesktop w = false /\ Device.getDeviceType w = "mobile")
  \/ (768 < w <= 1024
      /\ Device.isMobile w = false /\ Device.isTablet w = true
      /\ Device.isDesktop w = false /\ Device.getDeviceType w = "tablet")
  \/ (1024 < w
      /\ Device.isMobile w = false /\ Device.isTablet w = false
      /\ Device.isDesktop w = true /\ Device.getDeviceType w = "desktop").
Proof.
  unfold Device.getDeviceType, Device.isMobile, Device.isTablet,
    Device.isDesktop.
  destruct (Z.leb_spec w 768), (Z.ltb_spec 768 w), (Z.leb_spec w 1024),
    (Z.ltb_spec 1024 w); try lia; cbn.
  - left. repeat split; lia.
  - right. left. repeat split; lia.
  - right. right. repeat split; lia.
Qed.

Section RandomIdFacts.
Import RandomId.

Lemma get_within (s : string) (n : nat) :
  (n < String.length s)%nat ->
  exists ch, String.get n s = Some ch /\ In ch (String.list_ascii_of_string s).
Proof.
  revert n. induction s as [|a s IH]; intros n Hn; cbn in Hn; [lia|].
  destruct n as [|n]; cbn.
  - exists a. auto.
  - destruct (IH n) as (ch & Hg & Hin); [lia|]. exists ch. auto.
Qed.

Lemma string_app_length (a b : string) :
  String.length (a +:+ b) = (String.length a + String.length b)%nat.
Proof.
  induction a as [|x a IH]; [reflexivity|].
  change (S (String.length (a +:+ b))
          = S (String.length a + String.length b)).
  now rewrite IH.
Qed.

Lemma string_app_chars (a b : string) :
  String.list_ascii_of_string (a +:+ b)
  = String.list_ascii_of_string a ++ String.list_ascii_of_string b.
Proof.
  induction a as [|x a IH]; [reflexivity|].
  change (x :: String.list_ascii_of_string (a +:+ b)
          = x :: (String.list_ascii_of_string a
                  ++ String.list_ascii_of_string b)).
  now rewrite IH.
Qed.

Lemma loop_spec (draw : nat -> Z) :
  (forall i, 0 <= draw i < 62) ->
  forall (rounds i : nat) (result : string),
    String.length (loop draw rounds i result)
    = (String.length result + rounds)%nat
    /\ forall ch,
        In ch (String.list_ascii_of_string (loop draw rounds i result)) ->
        In ch (String.list_ascii_of_string result)
        \/ In ch (String.list_ascii_of_string chars).
Proof.
  intros Hd. induction rounds as [|r IH]; intros i result; cbn [loop].
  - split; [lia|auto].
  - destruct (IH (S i) (result +:+ js_charAt chars (draw i))) as [Hl Hc].
    assert (Hch : exists ch,
              js_charAt chars (draw i) = String ch EmptyString
              /\ In ch (String.list_ascii_of_string chars)).
    { unfold js_charAt. specialize (Hd i).
      destruct (Z.ltb_spec (draw i) 0); [lia|].
      destruct (get_within chars (Z.to_nat (draw i))) as (ch & Hg & Hin).
      { change (String.length chars) with 62%nat. lia. }
      rewrite Hg. eauto. }
    destruct Hch as (ch0 & Hone & Hin0). rewrite Hone in *. split.
    + rewrite Hl, string_app_length. cbn. lia.
    + intros ch Hin. destruct (Hc ch Hin) as [H|H]; [|now right].
      rewrite string_app_chars in H. apply in_app_or in H.
      destruct H as [H|H]; [now left|]. cbn in H.
      destruct H as [<-|[]]. now right.
Qed.
End RandomIdFacts.

(** X15. [generateId(length)] returns exactly [length] characters (none
    for a length of zero or less), and every one of them is a letter or a
    digit of the alphabet it draws from. *)
Theorem generateId_length_and_alphabet (length : Z) (draw : nat -> Z) :
  (forall i, 0 <= draw i < 62) ->
  String.length (RandomId.generateId length draw) = Z.to_nat length
  /\ (length <= 0 -> RandomId.generateId length draw = "")
  /\ forall ch,
      In ch (String.list_ascii_of_string (RandomId.generateId length draw)) ->
      In ch (String.list_ascii_of_string RandomId.chars).
Proof.
  intros Hd. unfold RandomId.generateId.
  destruct (loop_spec draw Hd (Z.to_nat length) 0 "") as [Hl Hc].
  split; [exact Hl|]. split.
  - intros Hle. replace (Z.to_nat length) with 0%nat by lia. reflexivity.
  - intros ch Hin. destruct (Hc ch Hin) as [[]|H]. exact H.
Qed.

Lemma generateId_length_and_alphabet_witness :
  RandomId.generateId 4 (fun i => (7 * Z.of_nat i) mod 62) = "AHOV"
  /\ String.length
       (RandomId.generateId 4 (fun i => (7 * Z.of_nat i) mod 62))
     = 4%nat.
Proof.
  split; [vm_compute; reflexivity|].
  apply (generateId_length_and_alphabet 4
           (fun i => (7 * Z.of_nat i) mod 62)).
  intros i. apply Z.mod_pos_bound. lia.
Defined.

(** X16. With a [JSON] that reads back what it wrote (and never writes
    the empty text), the [storage] helper is a store: after a [set] that
    reports success [get] returns the value set and other keys read as
    before; a [set] that reports failure leaves everything as it was;
    after [remove] or [clear] the key reads as the default; and when
    [localStorage] cannot be reached, [set], [remove] and [clear] report
    failure and [get] returns the default. *)
Theorem storage_reads_back_what_it_wrote {V : Type}
    (stringify : V -> option string) (parse : string -> option V)
    (fits : gmap string string -> string -> string -> bool)
    (key : string) (value d : V) (st : Storage.store) :
  (forall v txt, stringify v = Some txt -> txt <> "" /\ parse txt = Some v) ->
  let set := Storage.set stringify fits in
  let get := Storage.get parse in
  (fst (set key value st) = true ->
   get key d (snd (set key value st)) = value
   /\ forall k, k <> key ->
        get k d (snd (set key value st)) = get k d st)
  /\ (fst (set key value st) = false -> snd (set key value st) = st)
  /\ get key d (snd (Storage.remove key st)) = d
  /\ (forall k, k <> key ->
        get k d (snd (Storage.remove key st)) = get k d st)
  /\ (forall k, get k d (snd (Storage.clear st)) = d)
  /\ (st = None ->
      fst (set key value st) = false
      /\ fst (Storage.remove key st) = false
      /\ fst (Storage.clear st) = false
      /\ get key d st = d).
Proof.
  intros Hcodec. cbn zeta. unfold Storage.set, Storage.get, Storage.remove,
    Storage.clear.
  repeat apply conj.
  - destruct (stringify value) as [txt|] eqn:Hs; [|discriminate].
    destruct st as [m|]; [|discriminate].
    destruct (fits m key txt); [|discriminate]. intros _. cbn.
    destruct (Hcodec value txt Hs) as [Hne Hp]. split.
    + rewrite lookup_insert_eq.
      destruct (String.eqb_spec txt ""); [contradiction|]. now rewrite Hp.
    + intros k Hk. now rewrite lookup_insert_ne.
  - destruct (stringify value) as [txt|]; [|reflexivity].
    destruct st as [m|]; [|reflexivity].
    destruct (fits m key txt); [discriminate|reflexivity].
  - destruct st as [m|]; cbn; [|reflexivity]. now rewrite lookup_delete_eq.
  - intros k Hk. destruct st as [m|]; cbn; [|reflexivity].
    now rewrite lookup_delete_ne.
  - intros k. destruct st as [m|]; cbn; [|reflexivity].
    now rewrite lookup_empty.
  - intros ->. destruct (stringify value); auto.
Qed.

Lemma storage_reads_back_what_it_wrote_witness :
  let stringify := fun b : bool => Some (if b then "true" else "false") in
  let parse := fun txt : string =>
                 if String.eqb txt "true" then Some true
                 else if String.eqb txt "false" then Some false
                 else None in
  let fits := fun (_ : gmap string string) (_ _ : string) => true in
  Storage.get parse "theme" true
    (snd (Storage.set stringify fits "theme" false (Some ∅)))
  = false.
Proof.
  intros stringify parse fits.
  refine (proj1 (proj1 (storage_reads_back_what_it_wrote stringify parse fits
                          "theme" false true (Some ∅) _) eq_refl)).
  intros [|] txt [= <-]; split; (discriminate || reflexivity).
Defined.

(** ** [ProjectsController] *)

(** X17. Toggling the overlay of a card whose overlay is not showing
    leaves exactly that overlay showing: the card gets [hovered] and its
    overlay opacity 1 / visible, every other card loses [hovered] and, if
    it has an overlay, that overlay is set to opacity 0 / hidden. Toggling
    the same card again hides its overlay too. *)
Theorem toggle_shows_one_overlay
    (i : nat) (cards : list Projects.card) (c : Projects.card)
    (ov : Projects.overlay_style) :
  cards !! i = Some c ->
  Projects.overlay c = Some ov ->
  Projects.ov_opacity ov <> "1" ->
  let once := Projects.toggleProjectOverlay i cards in
  let twice := Projects.toggleProjectOverlay i once in
  length once = length cards
  /\ once !! i = Some (Projects.showProjectOverlay c)
  /\ (forall j other, j <> i -> cards !! j = Some other ->
        once !! j = Some (Projects.hideProjectOverlay other))
  /\ twice = <[i := Projects.hideProjectOverlay c]> once
  /\ forall j shown, twice !! j = Some shown ->
       Projects.hovered shown = false
       /\ forall ov', Projects.overlay shown = Some ov' ->
            ov' = Projects.Overlay "0" "hidden".
Proof.
  intros Hc Hov Hne. cbn zeta.
  pose proof (lookup_lt_Some _ _ _ Hc) as Hlt.
  set (others := imap (fun j other =>
                         if bool_decide (j = i) then other
                         else Projects.hideProjectOverlay other) cards).
  assert (Honce : Projects.toggleProjectOverlay i cards
                  = alter Projects.showProjectOverlay i others).
  { unfold Projects.toggleProjectOverlay. rewrite Hc, Hov.
    destruct (String.eqb_spec (Projects.ov_opacity ov) "1");
      [contradiction|reflexivity]. }
  rewrite Honce.
  assert (Hi : alter Projects.showProjectOverlay i others !! i
               = Some (Projects.showProjectOverlay c)).
  { rewrite list_lookup_alter_eq. unfold others.
    rewrite list_lookup_imap, Hc. cbn. now rewrite bool_decide_true. }
  assert (Hj : forall j other, j <> i -> cards !! j = Some other ->
                 alter Projects.showProjectOverlay i others !! j
                 = Some (Projects.hideProjectOverlay other)).
  { intros j other Hji Ho. rewrite list_lookup_alter_ne by congruence.
    unfold others. rewrite list_lookup_imap, Ho. cbn.
    now rewrite bool_decide_false. }
  assert (Htwice : Projects.toggleProjectOverlay i
                     (alter Projects.showProjectOverlay i others)
                   = <[i := Projects.hideProjectOverlay c]>
                       (alter Projects.showProjectOverlay i others)).
  { unfold Projects.toggleProjectOverlay at 1. rewrite Hi. cbn.
    rewrite Hov. cbn. f_equal. unfold Projects.hideProjectOverlay. cbn.
    now rewrite Hov. }
  assert (Hlen1 : length (alter Projects.showProjectOverlay i others)
                  = length cards).
  { unfold others. now rewrite length_alter, length_imap. }
  split; [exact Hlen1|].
  split; [exact Hi|]. split; [exact Hj|]. split; [exact Htwice|].
  intros j shown. rewrite Htwice.
  destruct (decide (j = i)) as [->|Hji].
  - rewrite list_lookup_insert_eq by (now rewrite Hlen1).
    intros [= <-]. cbn. rewrite Hov. split; [reflexivity|].
    now intros ov' [= <-].
  - rewrite list_lookup_insert_ne by congruence. intros Hs.
    assert (Hlen : (j < length cards)%nat).
    { apply lookup_lt_Some in Hs. now rewrite Hlen1 in Hs. }
    destruct (lookup_lt_is_Some_2 cards j Hlen) as [other Ho].
    rewrite (Hj j other Hji Ho) in Hs. injection Hs as <-. cbn.
    split; [reflexivity|].
    destruct (Projects.overlay other); [now intros ov' [= <-]|discriminate].
Qed.

Lemma toggle_shows_one_overlay_witness :
  let plain := Projects.Card (Some "web") "" "" "" None true in
  let closed := Projects.Card (Some "web") "" "" ""
                  (Some (Projects.Overlay "0" "hidden")) false in
  let open := Projects.Card (Some "app") "" "" ""
                (Some (Projects.Overlay "1" "visible")) true in
  let once := Projects.toggleProjectOverlay 1 [plain; closed; open] in
  once !! 1%nat = Some (Projects.showProjectOverlay closed)
  /\ once !! 2%nat = Some (Projects.hideProjectOverlay open).
Proof.
  intros plain closed open once.
  destruct (toggle_shows_one_overlay 1 [plain; closed; open] closed
              (Projects.Overlay "0" "hidden") eq_refl eq_refl)
    as (_ & H1 & H2 & _); [discriminate|].
  split; [exact H1|]. apply (H2 2%nat open); [lia|reflexivity].
Defined.

Section ArrowKeys.
Import Projects.





Lemma shown_cards_spec (cards : list card) (j : nat) :
  j ∈ shown_cards cards
  <-> exists c, cards !! j = Some c /\ display c <> "none".
Proof.
  unfold shown_cards. rewrite list_elem_of_In, filter_In, in_seq. split.
  - intros [_ H]. destruct (cards !! j) as [c|]; [|discriminate].
    exists c. split; [reflexivity|].
    destruct (String.eqb_spec (display c) "none"); [discriminate|assumption].
  - intros (c & Hc & Hd). split.
    + apply lookup_lt_Some in Hc. lia.
    + rewrite Hc. destruct (String.eqb_spec (display c) "none");
        [contradiction|reflexivity].
Qed.


End ArrowKeys.



(** ** [filterProjects] *)

Section TimerQueues.
Context {A : Type}.
Implicit Types (k : sched A) (tm : timer A) (l : list (timer A)).

Lemma pop_front k tm rest :
  pending k = tm :: rest ->
  Forall (fun u => due tm <= due u /\ tid u <> tid tm) rest ->
  pop k = Some (tm, Sched (Z.max (now k) (due tm)) (next_id k) rest).
Proof.
  intros Hp Hall. unfold pop. rewrite Hp.
  assert (He : earliest (tm :: rest) = Some tm).
  { cbn. destruct (earliest rest) as [y|] eqn:Ey; [|reflexivity].
    apply earliest_in in Ey. rewrite Forall_forall in Hall.
    destruct (Hall y) as [Hle _]; [now apply list_elem_of_In|].
    destruct (Z.ltb_spec (due y) (due tm)); [lia|reflexivity]. }
  rewrite He. do 3 f_equal. cbn. rewrite Z.eqb_refl. cbn.
  clear -Hall. induction Hall as [|u r [_ Hu] _ IH]; [reflexivity|].
  cbn. destruct (Z.eqb_spec (tid u) (tid tm)); [contradiction|].
  cbn. now rewrite IH.
Qed.

Lemma in_order_snoc l x :
  in_order l ->
  Forall (fun u => due u <= due x /\ tid x <> tid u) l ->
  in_order (l ++ [x]).
Proof.
  induction l as [|tm r IH]; intros Ho Hall; cbn; [auto|].
  destruct Ho as [Hr Ho]. apply Forall_cons in Hall.
  destruct Hall as [Hx Hall]. split; [|now apply IH].
  apply Forall_app. split; [exact Hr|]. apply Forall_singleton. exact Hx.
Qed.
End TimerQueues.

Section FilterProjects.
Import Projects.
Implicit Types (s : state) (cards : list card).

Lemma schedule_each_batch mk step : forall idxs j k,
  schedule_each mk step idxs j k
  = Sched (now k) (next_id k + Z.of_nat (length idxs))
          (pending k ++ batch mk step (now k) (next_id k) j idxs).
Proof.
  induction idxs as [|i r IH]; intros j k; cbn [schedule_each batch length].
  - destruct k. cbn. now rewrite Z.add_0_r, app_nil_r.
  - rewrite IH. cbn. rewrite <- app_assoc. cbn. f_equal. lia.
Qed.

Lemma batch_callbacks mk step base : forall idxs id j,
  cb <$> batch mk step base id j idxs = mk <$> idxs.
Proof.
  induction idxs as [|i r IH]; intros id j; cbn; [reflexivity|].
  now rewrite IH.
Qed.

Lemma batch_length mk step base : forall idxs id j,
  length (batch mk step base id j idxs) = length idxs.
Proof.
  induction idxs as [|i r IH]; intros id j; cbn; [reflexivity|].
  now rewrite IH.
Qed.

Lemma batch_members mk step base : forall idxs id j u,
  0 <= step ->
  u ∈ batch mk step base id j idxs ->
  id <= tid u < id + Z.of_nat (length idxs)
  /\ base + Z.of_nat j * step <= due u
     <= base + (Z.of_nat j + Z.of_nat (length idxs)) * step.
Proof.
  induction idxs as [|i r IH]; intros id j u Hs Hin; cbn in Hin.
  - now apply elem_of_nil in Hin.
  - apply elem_of_cons in Hin. destruct Hin as [->|Hin].
    + cbn. split; [lia|]. nia.
    + destruct (IH _ _ _ Hs Hin) as [Hid Hdue]. cbn [length].
      split; [lia|]. nia.
Qed.

Lemma batch_in_order mk step base : forall idxs id j,
  0 <= step -> in_order (batch mk step base id j idxs).
Proof.
  induction idxs as [|i r IH]; intros id j Hs; cbn; [exact I|].
  split; [|now apply IH].
  apply Forall_forall. intros u Hu.
  destruct (batch_members _ _ _ _ _ _ _ Hs Hu) as [Hid Hdue]. cbn.
  split; [nia|lia].
Qed.

Lemma batch_all_fades mk step base idxs id j :
  (forall i, is_fade (mk i)) ->
  Forall (fun tm => is_fade (cb tm)) (batch mk step base id j idxs).
Proof.
  intros Hmk. revert id j. induction idxs as [|i r IH]; intros id j; cbn.
  - constructor.
  - constructor; [apply Hmk|apply IH].
Qed.

Lemma fire_front s tm rest :
  pending (timers s) = tm :: rest ->
  Forall (fun u => due tm <= due u /\ tid u <> tid tm) rest ->
  fire s
  = Some (run_callback (cb tm)
            (State (projectCards s) (currentFilter s) (isAnimating s)
               (Sched (Z.max (now (timers s)) (due tm))
                      (next_id (timers s)) rest))).
Proof.
  intros Hp Hall. unfold fire. now rewrite (pop_front _ _ _ Hp Hall).
Qed.

(** The host runs a row of fading timers from the front of the queue. *)
Lemma drain_fades : forall (l rest : list (timer callback)) s,
  pending (timers s) = l ++ rest ->
  in_order (l ++ rest) ->
  Forall (fun tm => is_fade (cb tm)) l ->
  exists t',
    now (timers s) <= t'
    /\ forall m,
        drain (length l + m) s
        = drain m
            (State (fold_left (fun cs c => fade c cs) (cb <$> l)
                      (projectCards s))
               (currentFilter s) (isAnimating s)
               (Sched t' (next_id (timers s)) rest)).
Proof.
  induction l as [|tm l IH]; intros rest s Hp Ho Hf.
  - exists (now (timers s)). split; [lia|]. intros m. cbn.
    destruct s as [cs f a [t n p]]. cbn in *. now subst.
  - cbn in Ho. destruct Ho as [Hall Ho]. apply Forall_cons in Hf.
    destruct Hf as [Htm Hf].
    pose proof (fire_front s tm (l ++ rest) Hp Hall) as Hfire.
    set (s1 := run_callback (cb tm) _) in Hfire.
    assert (Hs1 : s1 = State (fade (cb tm) (projectCards s))
                         (currentFilter s) (isAnimating s)
                         (Sched (Z.max (now (timers s)) (due tm))
                                (next_id (timers s)) (l ++ rest))).
    { subst s1. destruct (cb tm); cbn in *; (reflexivity || contradiction). }
    destruct (IH rest s1) as (t' & Ht' & Hrun);
      [now rewrite Hs1|exact Ho|exact Hf|].
    exists t'. split; [rewrite Hs1 in Ht'; cbn in Ht'; lia|].
    intros m. cbn [length Nat.add drain]. rewrite Hfire, Hrun.
    rewrite Hs1. reflexivity.
Qed.

Lemma drain_idle (m : nat) s : pending (timers s) = [] -> drain m s = s.
Proof.
  intros Hp. destruct m; [reflexivity|]. cbn. unfold fire.
  now rewrite (pop_idle _ Hp).
Qed.

(** Hiding the cards [a], [a+1], ... one after the other. *)
Lemma hides_lookup : forall (m a : nat) cards (i : nat),
  fold_left (fun cs c => fade c cs) (HideCard <$> seq a m) cards !! i
  = if bool_decide (a <= i < a + m)%nat
    then with_fade "0" "translateY(20px)" <$> cards !! i
    else cards !! i.
Proof.
  induction m as [|m IH]; intros a cards i; cbn [seq fmap list_fmap fold_left].
  - rewrite bool_decide_false by lia. reflexivity.
  - rewrite IH. cbn [fade].
    destruct (decide (i = a)) as [->|Hne].
    + rewrite bool_decide_false, bool_decide_true by lia.
      apply list_lookup_alter_eq.
    + rewrite list_lookup_alter_ne by congruence.
      destruct (decide (S a <= i < S a + m)%nat).
      * now rewrite !bool_decide_true by lia.
      * now rewrite !bool_decide_false by lia.
Qed.

(** Revealing the cards of a list one after the other. *)
Lemma reveals_lookup : forall (vis : list nat) cards (i : nat),
  fold_left (fun cs c => fade c cs) (RevealCard <$> vis) cards !! i
  = if bool_decide (i ∈ vis)
    then with_fade "1" "translateY(0)" <$> cards !! i
    else cards !! i.
Proof.
  induction vis as [|v r IH]; intros cards i;
    cbn [fmap list_fmap fold_left].
  - rewrite bool_decide_false by apply not_elem_of_nil. reflexivity.
  - rewrite IH. cbn [fade].
    destruct (decide (i = v)) as [->|Hne].
    + rewrite list_lookup_alter_eq.
      rewrite (bool_decide_true (v ∈ v :: r))
        by (apply elem_of_cons; now left).
      destruct (bool_decide (v ∈ r)); destruct (cards !! v); reflexivity.
    + rewrite list_lookup_alter_ne by congruence.
      destruct (decide (i ∈ r)) as [Hin|Hnin].
      * rewrite !bool_decide_true; [reflexivity| |exact Hin].
        apply elem_of_cons. now right.
      * rewrite !bool_decide_false; [reflexivity| |exact Hnin].
        intros Hin. apply elem_of_cons in Hin. tauto.
Qed.
End FilterProjects.

Section FilterSettles.
Import Projects.

(** The cards after the hide timers, the show timer and the reveal timers
    have run, in that order. *)
Lemma faded_cards (filter : string) (cards : list card) :
  let hidden :=
    fold_left (fun cs c => fade c cs) (HideCard <$> seq 0 (length cards))
      cards in
  let decided :=
    (fun c => with_display (if shouldShow filter c then "block" else "none") c)
      <$> hidden in
  fold_left (fun cs c => fade c cs) (RevealCard <$> shown_cards decided)
    decided
  = filtered filter <$> cards.
Proof.
  cbn zeta. apply list_eq. intros i.
  rewrite reveals_lookup, !list_lookup_fmap.
  set (hidden := fold_left _ (HideCard <$> _) cards).
  set (decided := _ <$> hidden).
  assert (Hh : hidden !! i
               = with_fade "0" "translateY(20px)" <$> cards !! i).
  { unfold hidden. rewrite hides_lookup.
    destruct (cards !! i) as [c|] eqn:Hc.
    - apply lookup_lt_Some in Hc. now rewrite bool_decide_true by lia.
    - now destruct (bool_decide _). }
  assert (Hd : decided !! i
               = (fun c => with_display
                             (if shouldShow filter c then "block" else "none")
                             (with_fade "0" "translateY(20px)" c))
                 <$> cards !! i).
  { unfold decided. rewrite list_lookup_fmap, Hh.
    now destruct (cards !! i). }
  rewrite Hh. destruct (cards !! i) as [c|] eqn:Hc; cbn.
  2:{ now destruct (bool_decide _). }
  unfold filtered. destruct (shouldShow filter c) eqn:Hs.
  - rewrite bool_decide_true; [cbn; unfold shouldShow in *; cbn;
                               now rewrite Hs|].
    apply shown_cards_spec. rewrite Hd. cbn. eexists. split; [reflexivity|].
    rewrite Hs. cbn. discriminate.
  - rewrite bool_decide_false; [cbn; unfold shouldShow in *; cbn;
                                now rewrite Hs|].
    intros Hin. apply shown_cards_spec in Hin.
    destruct Hin as (c' & Hc' & Hdisp). rewrite Hd in Hc'. cbn in Hc'.
    injection Hc' as <-. rewrite Hs in Hdisp. cbn in Hdisp. congruence.
Qed.
(** The show timer, alone in the queue. *)
Lemma fire_show (cards : list card) (f filter : string) (a : bool)
    (t nid id d : Z) :
  let decided :=
    (fun c => with_display (if shouldShow filter c then "block" else "none") c)
      <$> cards in
  let t2 := Z.max t d in
  fire (State cards f a (Sched t nid [Timer id d (ShowFiltered filter)]))
  = Some (State decided f false
            (Sched t2 (nid + Z.of_nat (length (shown_cards decided)))
                   (batch RevealCard 100 t2 nid 0 (shown_cards decided)))).
Proof.
  cbn zeta.
  rewrite (fire_front
             (State cards f a
                (Sched t nid [Timer id d (ShowFiltered filter)]))
             (Timer id d (ShowFiltered filter)) [] eq_refl
             (List.Forall_nil _)).
  cbn [run_callback cb projectCards currentFilter isAnimating timers
       next_id now due].
  now rewrite schedule_each_batch.
Qed.
End FilterSettles.

(** X19. [filterProjects(filter)], asked for a new filter while nothing
    is animating, ends with every card decided by the filter: once its
    timers have run (the hides, then the show, then the reveals) a card is
    shown as a block, opaque and in place when the filter is [all] or
    equals its category, and hidden and faded otherwise; [currentFilter]
    is the new filter, [isAnimating] is off again and nothing is pending.
    Requests that come while the animation runs, or that ask for the
    filter already set, are dropped. *)
Theorem filterProjects_settles (filter : string) (s : Projects.state) :
  pending (Projects.timers s) = [] ->
  Projects.isAnimating s = false ->
  Projects.currentFilter s <> filter ->
  let asked := Projects.filterProjects filter s in
  let s' := Projects.drain (2 * length (Projects.projectCards s) + 1) asked in
  Projects.projectCards s' = filtered filter <$> Projects.projectCards s
  /\ Projects.currentFilter s' = filter
  /\ Projects.isAnimating s' = false
  /\ pending (Projects.timers s') = []
  /\ (forall other, Projects.filterProjects other asked = asked)
  /\ Projects.filterProjects (Projects.currentFilter s) s = s.
Proof.
  intros Hp Ha Hf. cbn zeta.
  set (n := length (Projects.projectCards s)).
  set (t0 := now (Projects.timers s)).
  set (id0 := next_id (Projects.timers s)).
  set (hides := batch Projects.HideCard 50 t0 id0 0 (seq 0 n)).
  set (show := Timer (id0 + Z.of_nat n)
                 (t0 + Z.max 0 (Z.of_nat n * 50 + 100))
                 (Projects.ShowFiltered filter)).
  assert (Hasked : Projects.filterProjects filter s
                   = Projects.State (Projects.projectCards s) filter true
                       (Sched t0 (id0 + Z.of_nat n + 1) (hides ++ [show]))).
  { unfold Projects.filterProjects. rewrite Ha.
    destruct (String.eqb_spec (Projects.currentFilter s) filter);
      [contradiction|]. cbn [orb].
    rewrite schedule_each_batch, Hp. cbn. rewrite length_seq.
    reflexivity. }
  rewrite Hasked.
  set (s1 := Projects.State _ filter true _).
  assert (Hlen : length hides = n).
  { unfold hides. now rewrite batch_length, length_seq. }
  assert (Hord : in_order (hides ++ [show])).
  { apply in_order_snoc; [apply batch_in_order; lia|].
    apply Forall_forall. intros u Hu.
    assert (H50 : 0 <= 50) by lia.
    destruct (batch_members Projects.HideCard 50 t0 (seq 0 n) id0 0%nat u
                H50 Hu) as [Hid Hdue].
    rewrite length_seq in Hid, Hdue. unfold show. cbn [due tid].
    split; lia. }
  destruct (drain_fades hides [show] s1 eq_refl Hord) as (t1 & _ & Hrun1).
  { apply batch_all_fades. intros i. exact I. }
  subst s1.
  cbn [Projects.projectCards Projects.currentFilter Projects.isAnimating
       Projects.timers next_id] in Hrun1.
  assert (Hcb1 : cb <$> hides = Projects.HideCard <$> seq 0 n)
    by apply batch_callbacks.
  rewrite Hcb1 in Hrun1.
  set (hidden := fold_left _ _ (Projects.projectCards s)) in Hrun1.
  set (sA := Projects.State hidden filter true _) in Hrun1.
  (* the show timer *)
  pose proof (fire_show hidden filter filter true t1 (id0 + Z.of_nat n + 1)
                (id0 + Z.of_nat n)
                (t0 + Z.max 0 (Z.of_nat n * 50 + 100))) as HfireA.
  cbn zeta in HfireA. fold show sA in HfireA.
  set (decided := _ <$> hidden) in HfireA.
  set (vis := Projects.shown_cards decided) in HfireA.
  set (t2 := Z.max t1 _) in HfireA.
  set (reveals := batch Projects.RevealCard 100 t2 _ 0 vis) in HfireA.
  set (sB := Projects.State decided filter false _) in HfireA.
  destruct (drain_fades reveals [] sB) as (t3 & _ & Hrun2).
  { cbn. now rewrite app_nil_r. }
  { rewrite app_nil_r. apply batch_in_order. lia. }
  { apply batch_all_fades. intros i. exact I. }
  unfold sB in Hrun2 at 2 3 4 5.
  cbn [Projects.projectCards Projects.currentFilter Projects.isAnimating
       Projects.timers next_id] in Hrun2.
  assert (Hcb2 : cb <$> reveals = Projects.RevealCard <$> vis)
    by apply batch_callbacks.
  rewrite Hcb2 in Hrun2.
  assert (Hvis : (length vis <= n)%nat).
  { unfold vis, Projects.shown_cards.
    etransitivity; [apply List.filter_length_le|].
    rewrite length_seq. unfold decided. rewrite length_fmap.
    unfold hidden.
    assert (Hkeep : forall cbs cs,
              length (fold_left (fun cs c => fade c cs) cbs cs) = length cs).
    { induction cbs as [|c r IH]; intros cs; [reflexivity|].
      cbn. rewrite IH. destruct c; cbn; now rewrite ?length_alter. }
    now rewrite Hkeep. }
  assert (Hlr : length reveals = length vis)
    by (unfold reveals; apply batch_length).
  replace (2 * n + 1)%nat
    with (length hides + S (length reveals + (n - length vis)))%nat by lia.
  rewrite Hrun1. cbn [Projects.drain]. rewrite HfireA, Hrun2.
  rewrite drain_idle by reflexivity.
  cbn [Projects.projectCards Projects.currentFilter Projects.isAnimating
       Projects.timers pending].
  split; [apply (faded_cards filter (Projects.projectCards s))|].
  split; [reflexivity|]. split; [reflexivity|]. split; [reflexivity|].
  split.
  - intros other. unfold Projects.filterProjects. reflexivity.
  - unfold Projects.filterProjects. rewrite String.eqb_refl.
    now rewrite orb_true_r.
Qed.

Lemma filterProjects_settles_witness :
  let web := Projects.Card (Some "web") "block" "1" "" None false in
  let app := Projects.Card (Some "app") "block" "1" "" None false in
  let s := Projects.State [web; app; web] "all" false (idle_at 0) in
  Projects.projectCards (Projects.drain 7 (Projects.filterProjects "web" s))
  = [filtered "web" web; filtered "web" app; filtered "web" web].
Proof.
  intros web app s.
  destruct (filterProjects_settles "web" s eq_refl eq_refl) as (H & _).
  - discriminate.
  - exact H.
Defined.

(** ** [TextRevealEffect] *)

Section AnyOrder.
Context {A : Type}.
Implicit Types (k : sched A) (tm : timer A) (l : list (timer A)).

Lemma filter_keeps l (h : Z) :
  (forall u, u ∈ l -> tid u <> h) ->
  List.filter (fun u => negb (tid u =? h)) l = l.
Proof.
  induction l as [|x r IH]; intros Hall; [reflexivity|]. cbn.
  destruct (Z.eqb_spec (tid x) h) as [E|_].
  - exfalso. apply (Hall x); [apply elem_of_cons; now left|exact E].
  - cbn. rewrite IH; [reflexivity|].
    intros u Hu. apply Hall. apply elem_of_cons. now right.
Qed.

(** Taking one timer out of a queue of distinct handles. *)
Lemma without_timer l tm :
  NoDup (tid <$> l) -> tm ∈ l ->
  let l' := List.filter (fun u => negb (tid u =? tid tm)) l in
  S (length l') = length l
  /\ NoDup (tid <$> l')
  /\ forall u, u ∈ l <-> u = tm \/ u ∈ l'.
Proof.
  induction l as [|x r IH]; intros Hnd Hin; cbn zeta.
  - now apply elem_of_nil in Hin.
  - cbn [fmap list_fmap] in Hnd. apply NoDup_cons in Hnd.
    destruct Hnd as [Hx Hnd].
    assert (Hfresh : forall u, u ∈ r -> tid u <> tid x).
    { intros u Hu E. apply Hx. rewrite <- E.
      apply list_elem_of_fmap. now exists u. }
    cbn [List.filter].
    destruct (Z.eqb_spec (tid x) (tid tm)) as [E|Hne]; cbn [negb].
    + assert (tm = x) as ->.
      { apply elem_of_cons in Hin. destruct Hin as [->|Hin]; [reflexivity|].
        exfalso. now apply (Hfresh tm Hin). }
      rewrite (filter_keeps r (tid x) Hfresh).
      split; [reflexivity|]. split; [exact Hnd|].
      intros u. apply elem_of_cons.
    + assert (Hr : tm ∈ r).
      { apply elem_of_cons in Hin. destruct Hin as [->|Hin];
          [contradiction|exact Hin]. }
      destruct (IH Hnd Hr) as (Hlen & Hnd' & Hiff). cbn zeta in *.
      split; [cbn [length]; now rewrite Hlen|]. split.
      * cbn [fmap list_fmap]. apply NoDup_cons. split; [|exact Hnd'].
        intros Hin'. apply list_elem_of_fmap in Hin'.
        destruct Hin' as (u & Eu & Hu).
        apply (Hfresh u); [apply Hiff; now right|now symmetry].
      * intros u. rewrite !elem_of_cons, Hiff. tauto.
Qed.

(** Whatever the order of the due times, the host takes one of the
    pending timers and leaves the others. *)
Lemma pop_any k :
  pending k <> [] -> NoDup (tid <$> pending k) ->
  exists tm k',
    pop k = Some (tm, k')
    /\ tm ∈ pending k
    /\ next_id k' = next_id k
    /\ S (length (pending k')) = length (pending k)
    /\ NoDup (tid <$> pending k')
    /\ forall u, u ∈ pending k <-> u = tm \/ u ∈ pending k'.
Proof.
  intros Hne Hnd. unfold pop.
  destruct (earliest (pending k)) as [tm|] eqn:He.
  2:{ apply earliest_none in He. contradiction. }
  apply earliest_in, list_elem_of_In in He.
  destruct (without_timer (pending k) tm Hnd He) as (Hlen & Hnd' & Hiff).
  eexists _, _. split; [reflexivity|]. cbn [pending next_id].
  split; [exact He|]. split; [reflexivity|].
  split; [exact Hlen|]. split; [exact Hnd'|exact Hiff].
Qed.
End AnyOrder.

Section SplitJoin.
Import TextReveal.

Lemma string_app_empty (a : string) : String.append a "" = a.
Proof.
  induction a as [|c a IH]; [reflexivity|].
  change (String c (String.append a "") = String c a). now rewrite IH.
Qed.

Lemma js_split_nonempty sep str : js_split sep str <> [].
Proof.
  destruct str as [|c r]; cbn; [discriminate|].
  destruct (Ascii.eqb c sep); [discriminate|].
  destruct (js_split sep r); discriminate.
Qed.

(** Joining the pieces with the separator gives the string back. *)
Lemma js_join_split str : js_join (js_split space str) = str.
Proof.
  induction str as [|c r IH]; [reflexivity|]. cbn [js_split].
  pose proof (js_split_nonempty space r) as Hne.
  destruct (js_split space r) as [|w ws] eqn:E; [congruence|].
  destruct (Ascii.eqb_spec c space) as [->|Hc].
  - cbn [js_join]. cbn [js_join] in IH. rewrite IH. reflexivity.
  - cbn [js_join] in *. destruct ws as [|w2 ws].
    + now rewrite IH.
    + rewrite <- IH. reflexivity.
Qed.

Lemma js_split_no_sep sep str :
  Forall (fun w => ~ In sep (String.list_ascii_of_string w))
         (js_split sep str).
Proof.
  induction str as [|c r IH]; cbn [js_split].
  - apply Forall_singleton. cbn. tauto.
  - destruct (Ascii.eqb_spec c sep) as [->|Hc].
    + apply Forall_cons. split; [cbn; tauto|exact IH].
    + destruct (js_split sep r) as [|w ws].
      * apply Forall_singleton. cbn. intros [H|[]]. congruence.
      * apply Forall_cons in IH. destruct IH as [Hw Hws].
        apply Forall_cons. split; [|exact Hws].
        cbn. intros [H|H]; [congruence|contradiction].
Qed.
End SplitJoin.

Section TextRevealFacts.
Import TextReveal.
Implicit Types (s : state) (ch : list node) (o : options).

Lemma word_nodes_text o : forall ws index N,
  (index + length ws = N)%nat ->
  textContent (word_nodes o (Z.of_nat N) index ws) = js_join ws.
Proof.
  induction ws as [|w r IH]; intros index N HN; [reflexivity|].
  cbn [word_nodes]. destruct r as [|w2 r'].
  - cbn [length] in HN.
    destruct (Z.ltb_spec (Z.of_nat index) (Z.of_nat N - 1)); [lia|].
    cbn. apply string_app_empty.
  - cbn [length] in HN.
    destruct (Z.ltb_spec (Z.of_nat index) (Z.of_nat N - 1)); [|lia].
    change (textContent
              (RevealWord (word_span o w)
                 :: [TextNode " "] ++ word_nodes o (Z.of_nat N) (S index)
                                        (w2 :: r')))
      with (String.append w
              (String space
                 (textContent (word_nodes o (Z.of_nat N) (S index)
                                 (w2 :: r'))))).
    rewrite (IH (S index) N) by (cbn [length]; lia). reflexivity.
Qed.

Lemma word_nodes_spans o n : forall ws index,
  omap word_of (word_nodes o n index ws) = word_span o <$> ws.
Proof.
  induction ws as [|w r IH]; intros index; [reflexivity|].
  cbn [word_nodes]. destruct (_ <? _); cbn; now rewrite IH.
Qed.

Lemma reveal_words_length : forall ch p,
  length (reveal_words p ch) = length (omap word_of ch).
Proof.
  induction ch as [|[w|t|t] r IH]; intros p; cbn; rewrite ?IH; reflexivity.
Qed.

Lemma reveal_words_spec : forall ch p i,
  i ∈ reveal_words p ch
  <-> (p <= i)%nat /\ exists w, ch !! (i - p)%nat = Some (RevealWord w).
Proof.
  induction ch as [|n r IH]; intros p i.
  - cbn. split; [intros H; now apply elem_of_nil in H|].
    intros (_ & w & H). discriminate.
  - assert (Hstep : (S p <= i)%nat ->
                    (n :: r) !! (i - p)%nat = r !! (i - S p)%nat).
    { intros Hle. replace (i - p)%nat with (S (i - S p)) by lia.
      reflexivity. }
    destruct n as [w0|t|t]; cbn [reveal_words];
      rewrite ?elem_of_cons, IH; split.
    + intros [->|(Hle & w & Hw)].
      * split; [lia|]. exists w0. now rewrite Nat.sub_diag.
      * split; [lia|]. exists w. now rewrite Hstep.
    + intros (Hle & w & Hw). destruct (decide (i = p)) as [->|Hne];
        [now left|right].
      split; [lia|]. exists w. rewrite <- Hstep by lia. exact Hw.
    + intros (Hle & w & Hw). split; [lia|]. exists w. now rewrite Hstep.
    + intros (Hle & w & Hw). destruct (decide (i = p)) as [->|Hne].
      * rewrite Nat.sub_diag in Hw. discriminate.
      * split; [lia|]. exists w. rewrite <- Hstep by lia. exact Hw.
    + intros (Hle & w & Hw). split; [lia|]. exists w. now rewrite Hstep.
    + intros (Hle & w & Hw). destruct (decide (i = p)) as [->|Hne].
      * rewrite Nat.sub_diag in Hw. discriminate.
      * split; [lia|]. exists w. rewrite <- Hstep by lia. exact Hw.
Qed.

Lemma reveal_words_on_word f : forall ch p,
  reveal_words p (on_word f <$> ch) = reveal_words p ch.
Proof.
  induction ch as [|[w|t|t] r IH]; intros p; cbn; now rewrite ?IH.
Qed.

Lemma text_on_word f ch :
  (forall w, text (f w) = text w) ->
  textContent (on_word f <$> ch) = textContent ch.
Proof.
  intros Hf. induction ch as [|[w|t|t] r IH]; [reflexivity|..].
  - change (String.append (text (f w)) (textContent (on_word f <$> r))
            = String.append (text w) (textContent r)).
    now rewrite Hf, IH.
  - change (String.append t (textContent (on_word f <$> r))
            = String.append t (textContent r)).
    now rewrite IH.
  - change (String.append t (textContent (on_word f <$> r))
            = String.append t (textContent r)).
    now rewrite IH.
Qed.

Lemma spans_on_word f ch :
  omap word_of (on_word f <$> ch) = f <$> omap word_of ch.
Proof.
  induction ch as [|[w|t|t] r IH]; cbn; now rewrite ?IH.
Qed.

(** Revealing every word element, read place by place. *)
Lemma all_revealed ch ch' :
  (forall i, ch' !! i
             = if bool_decide (i ∈ reveal_words 0 ch)
               then on_word show <$> ch !! i else ch !! i) ->
  ch' = on_word show <$> ch.
Proof.
  intros H. apply list_eq. intros i. rewrite H, list_lookup_fmap.
  destruct (decide (i ∈ reveal_words 0 ch)) as [Hin|Hnin].
  - now rewrite bool_decide_true.
  - rewrite bool_decide_false by exact Hnin.
    destruct (ch !! i) as [[w|t|t]|] eqn:E; try reflexivity.
    exfalso. apply Hnin. apply reveal_words_spec. split; [lia|].
    exists w. now rewrite Nat.sub_0_r.
Qed.

Lemma tr_schedule_each_batch o : forall ps index k,
  schedule_each o ps index k
  = Sched (now k) (next_id k + Z.of_nat (length ps))
          (pending k ++ reveal_batch o (now k) (next_id k) index ps).
Proof.
  induction ps as [|p r IH]; intros index k;
    cbn [schedule_each reveal_batch length].
  - destruct k. cbn. now rewrite Z.add_0_r, app_nil_r.
  - rewrite IH. cbn. rewrite <- app_assoc. cbn. f_equal. lia.
Qed.

Lemma reveal_batch_member o base : forall ps id index u,
  u ∈ reveal_batch o base id index ps ->
  id <= tid u /\ exists p, cb u = Reveal p.
Proof.
  induction ps as [|p r IH]; intros id index u Hin; cbn in Hin.
  - now apply elem_of_nil in Hin.
  - apply elem_of_cons in Hin. destruct Hin as [->|Hin].
    + cbn. split; [lia|eauto].
    + destruct (IH _ _ _ Hin) as [Hid Hcb]. split; [lia|exact Hcb].
Qed.

Lemma reveal_batch_NoDup o base : forall ps id index,
  NoDup (tid <$> reveal_batch o base id index ps).
Proof.
  induction ps as [|p r IH]; intros id index; cbn; [apply NoDup_nil_2|].
  apply NoDup_cons. split; [|apply IH].
  intros Hin. apply list_elem_of_fmap in Hin. destruct Hin as (u & E & Hu).
  apply reveal_batch_member in Hu. lia.
Qed.

Lemma reveal_batch_revealed o base : forall ps id index,
  revealed_by (reveal_batch o base id index ps) = ps.
Proof.
  induction ps as [|p r IH]; intros id index; [reflexivity|].
  cbn [reveal_batch]. unfold revealed_by in *. cbn. now rewrite IH.
Qed.

Lemma reveal_batch_length o base : forall ps id index,
  length (reveal_batch o base id index ps) = length ps.
Proof.
  induction ps as [|p r IH]; intros id index; cbn; [reflexivity|].
  now rewrite IH.
Qed.

Lemma reveal_batch_lookup o base : forall ps id index i p,
  ps !! i = Some p ->
  reveal_batch o base id index ps !! i
  = Some (Timer (id + Z.of_nat i)
            (base + Z.max 0 (delay o + Z.of_nat (index + i) * stagger o))
            (Reveal p)).
Proof.
  induction ps as [|q r IH]; intros id index i p Hp; [discriminate|].
  destruct i as [|i]; cbn in Hp |- *.
  - injection Hp as ->. now rewrite Z.add_0_r, Nat.add_0_r.
  - rewrite (IH _ _ _ _ Hp). do 2 f_equal; [lia|].
    now replace (S index + i)%nat with (index + S i)%nat by lia.
Qed.

Lemma show_twice (n : node) : on_word show (on_word show n) = on_word show n.
Proof. now destruct n. Qed.

(** The host runs a queue of reveal timers, in whatever order they are
    due: every place they name is revealed, no other. *)
Lemma tr_drain_reveals : forall n s ch,
  length (pending (timers s)) = n ->
  element s = Some ch ->
  NoDup (tid <$> pending (timers s)) ->
  Forall (fun tm => exists p, cb tm = Reveal p) (pending (timers s)) ->
  exists ch',
    element (drain n s) = Some ch'
    /\ (forall i, ch' !! i
                  = if bool_decide (i ∈ revealed_by (pending (timers s)))
                    then on_word show <$> ch !! i else ch !! i)
    /\ pending (timers (drain n s)) = []
    /\ opts (drain n s) = opts s
    /\ originalText (drain n s) = originalText s
    /\ words (drain n s) = words s.
Proof.
  induction n as [|n IH]; intros s ch Hlen He Hnd Hall.
  - apply nil_length_inv in Hlen. exists ch. cbn [drain]. rewrite Hlen.
    split; [exact He|]. split; [|auto].
    intros i. rewrite bool_decide_false; [reflexivity|].
    apply not_elem_of_nil.
  - assert (Hne : pending (timers s) <> []).
    { intros E. rewrite E in Hlen. discriminate. }
    destruct (pop_any (timers s) Hne Hnd)
      as (tm & k' & Hpop & Hin & _ & Hlen' & Hnd' & Hiff).
    rewrite Forall_forall in Hall.
    destruct (Hall tm Hin) as [p Hp].
    set (s1 := with_children (alter (on_word show) p ch) (with_timers k' s)).
    assert (Hfire : fire s = Some s1).
    { unfold fire. rewrite Hpop, Hp. cbn [run_callback with_timers element].
      now rewrite He. }
    destruct (IH s1 (alter (on_word show) p ch))
      as (ch' & He' & Hlook & Hp' & Ho & Ht & Hw).
    { cbn. lia. }
    { reflexivity. }
    { exact Hnd'. }
    { apply Forall_forall. intros u Hu. apply Hall. apply Hiff. now right. }
    cbn [drain]. rewrite Hfire. exists ch'.
    split; [exact He'|]. split; [|now rewrite Hp', Ho, Ht, Hw].
    intros i. rewrite Hlook. cbn [s1 with_children with_timers timers].
    assert (Hmem : i ∈ revealed_by (pending (timers s))
                   <-> i = p \/ i ∈ revealed_by (pending k')).
    { unfold revealed_by. rewrite !list_elem_of_omap. split.
      - intros (u & Hu & Eu). apply Hiff in Hu. destruct Hu as [->|Hu].
        + rewrite Hp in Eu. left. congruence.
        + right. eauto.
      - intros [->|(u & Hu & Eu)].
        + exists tm. split; [exact Hin|]. now rewrite Hp.
        + exists u. split; [apply Hiff; now right|exact Eu]. }
    destruct (decide (i = p)) as [->|Hip].
    + rewrite (bool_decide_true (p ∈ revealed_by (pending (timers s))))
        by (apply Hmem; now left).
      rewrite list_lookup_alter_eq.
      destruct (bool_decide _); [|reflexivity].
      destruct (ch !! p) as [nd|]; [|reflexivity]. cbn.
      now rewrite show_twice.
    + rewrite list_lookup_alter_ne by congruence.
      destruct (decide (i ∈ revealed_by (pending k'))) as [Hi|Hi].
      * rewrite !bool_decide_true; [reflexivity| |exact Hi].
        apply Hmem. now right.
      * rewrite !bool_decide_false; [reflexivity| |exact Hi].
        intros H. apply Hmem in H. tauto.
Qed.

(** [animate] on an idle host, and the timers it registers run: every
    word element is revealed. *)
Lemma animate_reveals s ch :
  element s = Some ch ->
  pending (timers s) = [] ->
  let s' := drain (length (reveal_words 0 ch)) (final (animate s)) in
  element s' = Some (on_word show <$> ch)
  /\ pending (timers s') = []
  /\ opts s' = opts s
  /\ originalText s' = originalText s
  /\ words s' = words s.
Proof.
  intros He Hp. cbn zeta. unfold animate. rewrite He. cbn [final].
  rewrite tr_schedule_each_batch, Hp. cbn [app].
  set (l := reveal_batch _ _ _ _ _).
  set (s1 := with_timers _ s).
  destruct (tr_drain_reveals (length (reveal_words 0 ch)) s1 ch)
    as (ch' & He' & Hlook & Hp' & Ho & Ht & Hw).
  { cbn. apply reveal_batch_length. }
  { exact He. }
  { cbn. apply reveal_batch_NoDup. }
  { cbn. apply Forall_forall. intros u Hu.
    now apply reveal_batch_member in Hu. }
  rewrite He', Hp', Ho, Ht, Hw. split; [|auto].
  f_equal. apply all_revealed. intros i. rewrite Hlook.
  cbn [s1 with_timers timers pending]. unfold l.
  now rewrite reveal_batch_revealed.
Qed.

Lemma tr_drain_idle (m : nat) s : pending (timers s) = [] -> drain m s = s.
Proof.
  intros Hp. destruct m; [reflexivity|]. cbn. unfold fire.
  now rewrite (pop_idle _ Hp).
Qed.

(** What the constructor leaves when there is a text. *)
Lemma new_with_text (children : list node) o (k : sched callback) :
  textContent children <> "" ->
  let ws := js_split space (textContent children) in
  let ch := word_nodes o (Z.of_nat (length ws)) 0 ws in
  new (Some children) o k
  = animate (State (Some ch) o (textContent children) ws k).
Proof.
  intros Hne. cbn zeta. unfold new, init. cbn [element originalText].
  rewrite bool_decide_true by eauto.
  destruct (String.eqb_spec (textContent children) ""); [contradiction|].
  reflexivity.
Qed.
End TextRevealFacts.

Section TextRevealRuns.
Import TextReveal.

Lemma hide_show_spans o (ws : list string) :
  hide o <$> (show <$> (word_span o <$> ws)) = word_span o <$> ws.
Proof. induction ws as [|w r IH]; cbn; [reflexivity|now rewrite IH]. Qed.

Lemma show_hide_show o (ch : list node) :
  on_word show <$> (on_word (hide o) <$> (on_word show <$> ch))
  = on_word show <$> ch.
Proof.
  induction ch as [|[w|t|t] r IH]; cbn; [reflexivity|..]; now rewrite IH.
Qed.


Lemma built_words (children : list node) o :
  let ws := js_split space (textContent children) in
  let ch := word_nodes o (Z.of_nat (length ws)) 0 ws in
  textContent ch = textContent children
  /\ omap word_of ch = word_span o <$> ws
  /\ length (reveal_words 0 ch) = length ws.
Proof.
  cbn zeta. split; [|split].
  - rewrite (word_nodes_text o (js_split space (textContent children)) 0
               (length (js_split space (textContent children))) eq_refl).
    apply js_join_split.
  - apply word_nodes_spans.
  - now rewrite reveal_words_length, word_nodes_spans, length_fmap.
Qed.



End TextRevealRuns.

(** X20. Built on an element that has a text, a text reveal cuts the text
    at its spaces and puts one word element per piece, spaces between
    them, so that the element reads as before; no piece holds a space;
    every word element starts hidden (opacity 0, the transform of the
    animation type); and one timer per word is registered, the [i]-th
    due [delay + i * stagger] after the construction (at once if that is
    negative). *)
Theorem text_reveal_keeps_the_text
    (children : list TextReveal.node) (o : TextReveal.options)
    (k : sched TextReveal.callback) :
  TextReveal.textContent children <> "" ->
  exists s ch,
    TextReveal.new (Some children) o k = Returned s
    /\ TextReveal.element s = Some ch
    /\ TextReveal.textContent ch = TextReveal.textContent children
    /\ TextReveal.words s
       = TextReveal.js_split TextReveal.space
           (TextReveal.textContent children)
    /\ TextReveal.spans s = TextReveal.word_span o <$> TextReveal.words s
    /\ Forall (fun w => ~ In TextReveal.space
                             (String.list_ascii_of_string w))
              (TextReveal.words s)
    /\ length (pending (TextReveal.timers s))
       = (length (pending k) + length (TextReveal.words s))%nat
    /\ forall i, (i < length (TextReveal.words s))%nat ->
         exists tm,
           pending (TextReveal.timers s) !! (length (pending k) + i)%nat
           = Some tm
           /\ due tm
              = now k + Z.max 0 (TextReveal.delay o
                                 + Z.of_nat i * TextReveal.stagger o).
Proof.
  intros Hne.
  pose proof (built_words children o) as (Htxt & Hsp & Hlen).
  cbn zeta in *.
  set (ws := TextReveal.js_split TextReveal.space
               (TextReveal.textContent children)) in *.
  set (ch := TextReveal.word_nodes o (Z.of_nat (length ws)) 0 ws) in *.
  set (s0 := TextReveal.State (Some ch) o (TextReveal.textContent children)
               ws k).
  exists (TextReveal.with_timers
            (TextReveal.schedule_each o (TextReveal.reveal_words 0 ch) 0 k)
            s0), ch.
  split; [now rewrite (new_with_text children o k Hne)|].
  split; [reflexivity|]. split; [exact Htxt|]. split; [reflexivity|].
  split; [exact Hsp|]. split; [apply js_split_no_sep|].
  cbn [TextReveal.timers TextReveal.with_timers TextReveal.words s0].
  rewrite tr_schedule_each_batch. cbn [pending]. split.
  - now rewrite length_app, reveal_batch_length, Hlen.
  - intros i Hi.
    destruct (lookup_lt_is_Some_2 (TextReveal.reveal_words 0 ch) i)
      as [p Hp]; [now rewrite Hlen|].
    eexists. split.
    + rewrite lookup_app_r by lia.
      replace (length (pending k) + i - length (pending k))%nat with i
        by lia.
      apply (reveal_batch_lookup o _ _ _ _ _ p Hp).
    + reflexivity.
Qed.

Lemma text_reveal_keeps_the_text_witness :
  exists s ch,
    TextReveal.new (Some [TextReveal.TextNode "About me"])
      (TextReveal.Options "fadeInUp" 600 0 100) (idle_at 0) = Returned s
    /\ TextReveal.element s = Some ch
    /\ TextReveal.textContent ch = "About me".
Proof.
  destruct (text_reveal_keeps_the_text [TextReveal.TextNode "About me"]
              (TextReveal.Options "fadeInUp" 600 0 100) (idle_at 0))
    as (s & ch & H1 & H2 & H3 & _).
  - discriminate.
  - exists s, ch. split; [exact H1|]. split; [exact H2|exact H3].
Defined.

(** X21. Built on an idle host and an element that has a text, a text
    reveal shows every word once its timers have run, one per word and
    in whatever order they are due: each word element has opacity 1 and
    the final transform, the element still reads as before and nothing
    is pending. [replay] then hides the words again, as they were after
    construction, and leaves one timer; once that one and the timers it
    registers have run, every word is shown again. *)
Theorem text_reveal_shows_every_word
    (children : list TextReveal.node) (o : TextReveal.options)
    (k : sched TextReveal.callback) :
  TextReveal.textContent children <> "" ->
  pending k = [] ->
  let s := final (TextReveal.new (Some children) o k) in
  let n := length (TextReveal.words s) in
  let s' := TextReveal.drain n s in
  let again := final (TextReveal.replay s') in
  TextReveal.spans s' = TextReveal.show <$> TextReveal.spans s
  /\ (exists ch', TextReveal.element s' = Some ch'
                  /\ TextReveal.textContent ch'
                     = TextReveal.textContent children)
  /\ pending (TextReveal.timers s') = []
  /\ TextReveal.spans again = TextReveal.spans s
  /\ length (pending (TextReveal.timers again)) = 1%nat
  /\ TextReveal.element (TextReveal.drain (S n) again)
     = TextReveal.element s'
  /\ pending (TextReveal.timers (TextReveal.drain (S n) again)) = [].
Proof.
  intros Hne Hk. cbn zeta.
  rewrite (new_with_text children o k Hne).
  pose proof (built_words children o) as (Htxt & Hsp & Hlen).
  cbn zeta in *.
  set (ws := TextReveal.js_split TextReveal.space
               (TextReveal.textContent children)) in *.
  set (ch := TextReveal.word_nodes o (Z.of_nat (length ws)) 0 ws) in *.
  set (s0 := TextReveal.State (Some ch) o (TextReveal.textContent children)
               ws k).
  change (TextReveal.words (final (TextReveal.animate s0))) with ws.
  change (TextReveal.spans (final (TextReveal.animate s0)))
    with (omap TextReveal.word_of ch).
  destruct (animate_reveals s0 ch eq_refl Hk) as (He & Hp & Ho & Ht & Hw).
  cbn zeta in *. rewrite Hlen in *.
  set (s' := TextReveal.drain (length ws)
               (final (TextReveal.animate s0))) in *.
  clearbody s'. destruct s' as [e o' t w tk].
  cbn [TextReveal.element TextReveal.timers TextReveal.opts
       TextReveal.originalText TextReveal.words] in He, Hp, Ho, Ht, Hw.
  destruct tk as [tnow nid tp]. cbn [pending] in Hp. subst e tp o' t w.
  cbn [s0 TextReveal.opts TextReveal.originalText TextReveal.words].
  set (ch1 := TextReveal.on_word TextReveal.show <$> ch).
  set (ch2 := TextReveal.on_word (TextReveal.hide o) <$> ch1).
  split.
  { cbn [TextReveal.spans TextReveal.element]. apply spans_on_word. }
  split.
  { exists ch1. split; [reflexivity|].
    unfold ch1. now rewrite text_on_word. }
  split; [reflexivity|].
  split.
  { cbn. unfold ch1. rewrite !spans_on_word, Hsp. apply hide_show_spans. }
  split; [reflexivity|].
  set (popped := TextReveal.State (Some ch2) o
                   (TextReveal.textContent children) ws
                   (Sched (Z.max tnow (tnow + 100)) (nid + 1) [])).
  assert (Hfire : TextReveal.fire
                    (final (TextReveal.replay
                              (TextReveal.State (Some ch1) o
                                 (TextReveal.textContent children) ws
                                 (Sched tnow nid []))))
                  = Some (final (TextReveal.animate popped))).
  { unfold TextReveal.fire. cbn [TextReveal.replay TextReveal.reset
      TextReveal.element and_then final TextReveal.with_children
      TextReveal.with_timers TextReveal.timers TextReveal.opts
      TextReveal.originalText TextReveal.words setTimeout snd now next_id
      pending app].
    rewrite (pop_front
               (Sched tnow (nid + 1)
                  [Timer nid (tnow + Z.max 0 100) TextReveal.Animate])
               (Timer nid (tnow + Z.max 0 100) TextReveal.Animate)
               [] eq_refl (List.Forall_nil _)).
    reflexivity. }
  cbn [TextReveal.drain]. rewrite Hfire.
  assert (Hlen2 : length (TextReveal.reveal_words 0 ch2) = length ws).
  { unfold ch2, ch1. now rewrite !reveal_words_on_word. }
  destruct (animate_reveals popped ch2 eq_refl eq_refl)
    as (He2 & Hp2 & _). cbn zeta in *. rewrite Hlen2 in *.
  rewrite He2, Hp2. split; [|reflexivity].
  cbn [TextReveal.element]. f_equal. apply show_hide_show.
Qed.

Lemma text_reveal_shows_every_word_witness :
  let o := TextReveal.Options "fadeInUp" 600 0 100 in
  let s := final (TextReveal.new (Some [TextReveal.TextNode "About me"]) o
                    (idle_at 0)) in
  TextReveal.spans (TextReveal.drain (length (TextReveal.words s)) s)
  = TextReveal.show <$> TextReveal.spans s.
Proof.
  intros o s.
  refine (proj1 (text_reveal_shows_every_word
                   [TextReveal.TextNode "About me"] o (idle_at 0) _ eq_refl)).
  discriminate.
Defined.



(** ** The filter buttons *)

(** X23. The click listener of a filter button marks the button even when
    [filterProjects] ignores the click. A click on a second button while
    the first filter is still animating leaves the controller as the
    first click put it (the first filter is the current one and the one
    that settles), yet the second button is the only one marked active
    and pressed. *)
Theorem second_click_marks_but_does_not_filter
    (a b : nat) (bs : list FilterBar.button) (ba bb : FilterBar.button)
    (s : Projects.state) :
  bs !! a = Some ba ->
  bs !! b = Some bb ->
  Projects.isAnimating s = false ->
  Projects.currentFilter s <> FilterBar.data_filter ba ->
  let once := FilterBar.click a (bs, s) in
  let twice := FilterBar.click b once in
  snd once = Projects.filterProjects (FilterBar.data_filter ba) s
  /\ snd twice = snd once
  /\ Projects.currentFilter (snd twice) = FilterBar.data_filter ba
  /\ Projects.isAnimating (snd twice) = true
  /\ (forall j x, fst twice !! j = Some x ->
        FilterBar.active x = bool_decide (j = b)
        /\ FilterBar.aria_pressed x
           = Some (if bool_decide (j = b) then "true" else "false"))
  /\ exists x, fst twice !! b = Some x
               /\ FilterBar.active x = true
               /\ FilterBar.data_filter x = FilterBar.data_filter bb.
Proof.
  intros Ha Hb Hanim Hnew. cbn zeta.
  assert (Hlook : forall i j (l : list FilterBar.button),
            FilterBar.updateActiveFilter i l !! j
            = (fun x => FilterBar.Button (FilterBar.data_filter x)
                          (bool_decide (j = i))
                          (Some (if bool_decide (j = i)
                                 then "true" else "false")))
              <$> l !! j).
  { intros i j l. unfold FilterBar.updateActiveFilter.
    destruct (decide (j = i)) as [->|Hne].
    - rewrite list_lookup_alter_eq, list_lookup_fmap.
      rewrite !bool_decide_true by reflexivity. now destruct (l !! i).
    - rewrite list_lookup_alter_ne by congruence.
      rewrite list_lookup_fmap, !bool_decide_false by exact Hne.
      reflexivity. }
  assert (Honce : FilterBar.click a (bs, s)
                  = (FilterBar.updateActiveFilter a bs,
                     Projects.filterProjects (FilterBar.data_filter ba) s)).
  { unfold FilterBar.click. cbn [fst snd]. now rewrite Ha. }
  rewrite Honce.
  assert (Hb1 : FilterBar.updateActiveFilter a bs !! b
                = Some (FilterBar.Button (FilterBar.data_filter bb)
                          (bool_decide (b = a))
                          (Some (if bool_decide (b = a)
                                 then "true" else "false")))).
  { now rewrite Hlook, Hb. }
  assert (Hasked : Projects.filterProjects (FilterBar.data_filter ba) s
                   = Projects.State (Projects.projectCards s)
                       (FilterBar.data_filter ba) true
                       (Projects.timers
                          (Projects.filterProjects
                             (FilterBar.data_filter ba) s))).
  { unfold Projects.filterProjects. rewrite Hanim.
    destruct (String.eqb_spec (Projects.currentFilter s)
                (FilterBar.data_filter ba)); [contradiction|].
    reflexivity. }
  assert (Htwice : FilterBar.click b
                     (FilterBar.updateActiveFilter a bs,
                      Projects.filterProjects (FilterBar.data_filter ba) s)
                   = (FilterBar.updateActiveFilter b
                        (FilterBar.updateActiveFilter a bs),
                      Projects.filterProjects (FilterBar.data_filter ba) s)).
  { unfold FilterBar.click. cbn [fst snd]. rewrite Hb1.
    cbn [FilterBar.data_filter]. f_equal.
    rewrite Hasked at 1. unfold Projects.filterProjects at 1.
    cbn [Projects.isAnimating orb]. now rewrite <- Hasked. }
  rewrite Htwice. cbn [fst snd].
  split; [reflexivity|]. split; [reflexivity|].
  split; [now rewrite Hasked|]. split; [now rewrite Hasked|]. split.
  - intros j x. rewrite Hlook. destruct (_ !! j); [|discriminate].
    intros [= <-]. split; reflexivity.
  - eexists. rewrite Hlook, Hb1. split; [reflexivity|].
    cbn. rewrite bool_decide_true by reflexivity. split; reflexivity.
Qed.

Lemma second_click_marks_but_does_not_filter_witness :
  let all := FilterBar.Button "all" true (Some "true") in
  let web := FilterBar.Button "web" false (Some "false") in
  let app := FilterBar.Button "app" false (Some "false") in
  let s := Projects.State [] "all" false (idle_at 0) in
  let twice := FilterBar.click 2 (FilterBar.click 1 ([all; web; app], s)) in
  Projects.currentFilter (snd twice) = "web"
  /\ exists x, fst twice !! 2%nat = Some x
               /\ FilterBar.active x = true
               /\ FilterBar.data_filter x = "app".
Proof.
  intros all web app s twice.
  destruct (second_click_marks_but_does_not_filter 1 2 [all; web; app]
              web app s eq_refl eq_refl eq_refl)
    as (_ & _ & Hc & _ & _ & Hx).
  - discriminate.
  - split; [exact Hc|exact Hx].
Defined.

(** ** The theme system *)

Section ThemeFacts.
Variable stringify : jsval -> option string.
Variable parse : string -> option jsval.
Variable fits : gmap string string -> string -> string -> bool.
Hypothesis codec :
  forall v txt, stringify v = Some txt -> txt <> "" /\ parse txt = Some v.

Lemma theme_read_back (theme d : jsval) (st : Storage.store) :
  fst (Storage.set stringify fits "theme" theme st) = true ->
  Storage.get parse "theme" d
    (snd (Storage.set stringify fits "theme" theme st)) = theme.
Proof.
  unfold Storage.set, Storage.get.
  destruct (stringify theme) as [txt|] eqn:Hs; [|discriminate].
  destruct st as [m|]; [|discriminate].
  destruct (fits m "theme" txt); [|discriminate]. intros _. cbn.
  destruct (codec theme txt Hs) as [Hne Hp]. rewrite lookup_insert_eq.
  destruct (String.eqb_spec txt ""); [contradiction|]. now rewrite Hp.
Qed.
End ThemeFacts.

(** X24. [initializeThemeSystem] applies the saved theme (light for a new
    visitor) and saves it again. When that save succeeds and the theme is
    truthy, the listener for system theme changes never changes anything
    afterwards, however often the system preference changes. Only when
    [localStorage] cannot be reached does the theme follow the system. *)
Theorem saved_theme_silences_system_changes
    (stringify : jsval -> option string) (parse : string -> option jsval)
    (fits : gmap string string -> string -> string -> bool)
    (s : Theme.state) :
  (forall v txt, stringify v = Some txt -> txt <> "" /\ parse txt = Some v) ->
  let saved := Storage.get parse "theme" (JStr "light") (Theme.storage s) in
  let s1 := Theme.initializeThemeSystem stringify parse fits s in
  Theme.data_theme s1 = Some saved
  /\ (forall m, Theme.storage s = Some m -> m !! "theme" = None ->
        saved = JStr "light")
  /\ (fst (Storage.set stringify fits "theme" saved (Theme.storage s)) = true ->
      js_truthy saved = true ->
      forall changes : list bool,
        fold_left
          (fun z matches =>
             Theme.system_theme_changed stringify parse fits matches z)
          changes s1 = s1)
  /\ (Theme.storage s = None ->
      forall matches,
        Theme.system_theme_changed stringify parse fits matches s1
        = Theme.State (Some (JStr (if matches then "dark" else "light")))
            None).
Proof.
  intros codec. cbn zeta. split; [reflexivity|]. split; [|split].
  - intros m Hm Hnone. unfold Storage.get. now rewrite Hm, Hnone.
  - intros Hset Htruthy changes.
    assert (Hstay : forall matches,
              Theme.system_theme_changed stringify parse fits matches
                (Theme.initializeThemeSystem stringify parse fits s)
              = Theme.initializeThemeSystem stringify parse fits s).
    { intros matches. unfold Theme.system_theme_changed,
        Theme.initializeThemeSystem, Theme.setTheme.
      cbn [Theme.storage].
      rewrite (theme_read_back stringify parse fits codec _ JNull _ Hset).
      now rewrite Htruthy. }
    induction changes as [|c r IH]; [reflexivity|].
    cbn [fold_left]. now rewrite Hstay.
  - intros Hnone matches.
    unfold Theme.system_theme_changed, Theme.initializeThemeSystem,
      Theme.setTheme. cbn [Theme.storage]. rewrite Hnone.
    unfold Storage.set, Storage.get.
    destruct (stringify (JStr "light")); cbn;
      destruct (stringify (JStr _)); reflexivity.
Qed.

Lemma saved_theme_silences_system_changes_witness :
  let stringify := fun v => match v with
                            | JStr t => Some (String (Ascii.ascii_of_nat 34) t)
                            | _ => None
                            end in
  let parse := fun txt => match txt with
                          | String _ t => Some (JStr t)
                          | EmptyString => None
                          end in
  let fits := fun (_ : gmap string string) (_ _ : string) => true in
  let s1 := Theme.initializeThemeSystem stringify parse fits
              (Theme.State None (Some ∅)) in
  Theme.data_theme s1 = Some (JStr "light")
  /\ Theme.system_theme_changed stringify parse fits true s1 = s1.
Proof.
  intros stringify parse fits s1.
  assert (codec : forall v txt, stringify v = Some txt ->
                                txt <> "" /\ parse txt = Some v).
  { intros [| |t|] txt; cbn; try discriminate. intros [= <-].
    split; [discriminate|reflexivity]. }
  destruct (saved_theme_silences_system_changes stringify parse fits
              (Theme.State None (Some ∅)) codec)
    as (H1 & _ & H3 & _).
  split; [exact H1|].
  exact (H3 eq_refl eq_refl [true]).
Defined.
